(** * Gas_Leakage_AIDetection: the detection utilities and the detection service

    A shallow embedding of [frontend/utils/detectionUtils.ts] (risk
    classifier, synthetic snapshot generator, identifier allocation, registry
    reconciliation) and of [DetectionService.getLeakageStatus], with the
    properties of the specification stated over it.

    Conventions of the embedding.
    - A JavaScript property that may be [undefined] is an [option].
    - An ISO date or timestamp string is represented by the instant it
      denotes, the number of milliseconds [new Date(s).getTime()] returns; a
      date-only string ('2024-11-15') denotes its UTC midnight.
    - [Math.random()] is a stream of draws from the unit interval, read through
      a position that every call advances.
    - The module-level counter [defectIdCounter] is threaded explicitly. *)

From Stdlib Require Import QArith Qround Ascii String DecimalString DecimalN.
From stdpp Require Import base tactics option list sorting strings.

Local Open Scope string_scope.
Local Open Scope list_scope.
Local Open Scope Z_scope.

(** * The program *)

(** ** Data model *)

Inductive RiskLevel := critical | warning | low.

Inductive DetectionState := ok | detected.

Inductive DefectStatus := pending | progress | resolved.

Module DefectDetection.
Record t := mk {
  defectType : string;
  sign : string;
  source : string;
  location : option string   (* [location?: string] *)
}.
End DefectDetection.

Module Subsystem.
Record t := mk {
  status : DetectionState;
  detections : list DefectDetection.t
}.
End Subsystem.

Module LeakageDetection.
Record t := mk {
  controlSystem : Subsystem.t;
  drone : Subsystem.t;
  totalLeakages : Z
}.
End LeakageDetection.

(** [riskLevel], [riskLabel] and [riskIcon] are copied from what
    [getRiskLevel] returns, whose fields can be [undefined] at run time (see
    [getRiskLevel]); [location] is copied from a detection through the
    unchecked assertion [location!]. *)
Module DefectRegistryItem.
Record t := mk {
  id : string;
  defectType : string;
  location : option string;
  riskLevel : option RiskLevel;
  riskLabel : option string;
  riskIcon : option string;
  detectedDate : Z;
  lastDetected : option Z;   (* [lastDetected?: string], an ISO timestamp *)
  status : DefectStatus;
  controlSystemSign : string;
  controlSystemSource : string;
  droneSign : string;
  droneSource : string;
  aiConfidence : Z
}.
End DefectRegistryItem.

Module RiskInfo.
Record t := mk {
  level : RiskLevel;
  label : string;
  icon : string;
  color : string;
  action : string
}.
End RiskInfo.

#[global] Instance RiskLevel_eq_dec : EqDecision RiskLevel.
Proof. solve_decision. Defined.

#[global] Instance DefectStatus_eq_dec : EqDecision DefectStatus.
Proof. solve_decision. Defined.

#[global] Instance DetectionState_eq_dec : EqDecision DetectionState.
Proof. solve_decision. Defined.

#[global] Instance DefectDetection_eq_dec : EqDecision DefectDetection.t.
Proof. solve_decision. Defined.

#[global] Instance DefectRegistryItem_eq_dec : EqDecision DefectRegistryItem.t.
Proof. solve_decision. Defined.

(** ** Risk classifier *)

(** The own properties of the object literal [riskMap], in source order. *)
Definition riskMap : list (string * RiskInfo.t) :=
  [ ("Major/Sudden Leak",
     RiskInfo.mk critical "Critical" "游댮" "#ff4757"
       "Immediate shutdown & emergency response");
    ("Mechanical Damage",
     RiskInfo.mk critical "Critical" "游댮" "#ff4757"
       "Immediate preventive action");
    ("Minor/Gradual Leak",
     RiskInfo.mk warning "Medium" "游" "#ffa502"
       "Enhanced monitoring, repair planning");
    ("Poor Pipe Support",
     RiskInfo.mk warning "Medium" "游" "#ffa502"
       "Structural intervention");
    ("Corrosion & Erosion",
     RiskInfo.mk low "Low" "游릭" "#1dd1a1"
       "Scheduled maintenance");
    ("Insulation/Coating Failure",
     RiskInfo.mk low "Low" "游릭" "#1dd1a1"
       "Preventive maintenance") ].

(** The literal on the right of [||] in [getRiskLevel]. *)
Definition unknownRisk : RiskInfo.t :=
  RiskInfo.mk warning "Unknown" "丘멆잺" "#ffa502" "Assessment required".

(** [riskMap] is written as an object literal, so its prototype is
    [Object.prototype]: a property read that finds no own property continues
    there.  These are the names [Object.prototype] defines (ECMA-262,
    including Annex B). *)
Definition objectPrototypeMembers : list string :=
  [ "constructor"; "hasOwnProperty"; "isPrototypeOf"; "propertyIsEnumerable";
    "toLocaleString"; "toString"; "valueOf"; "__proto__";
    "__defineGetter__"; "__defineSetter__";
    "__lookupGetter__"; "__lookupSetter__" ].

(** What [getRiskLevel] can return: one of the record literals of its body, or
    the member of [Object.prototype] the property read reached (a function, or
    [Object.prototype] itself for [__proto__]). *)
Inductive RiskValue :=
  | RiskRecord (r : RiskInfo.t)
  | PrototypeMember (name : string).

Fixpoint ownProperty {A} (m : list (string * A)) (key : string) : option A :=
  match m with
  | [] => None
  | (k, v) :: m' => if String.eqb k key then Some v else ownProperty m' key
  end.

(** [riskMap[defectType]]: [None] is [undefined]. *)
Definition riskMap_get (defectType : string) : option RiskValue :=
  match ownProperty riskMap defectType with
  | Some r => Some (RiskRecord r)
  | None =>
      if bool_decide (defectType ∈ objectPrototypeMembers)
      then Some (PrototypeMember defectType)
      else None
  end.

(** [riskMap[defectType] || { level: 'warning', label: 'Unknown', ... }]:
    every object and every function is truthy, only [undefined] selects the
    right operand. *)
Definition getRiskLevel (defectType : string) : RiskValue :=
  match riskMap_get defectType with
  | Some v => v
  | None => RiskRecord unknownRisk
  end.

(** Property reads on the result: a member of [Object.prototype] has no
    [level], [label] or [icon] property. *)
Definition riskInfo_level (v : RiskValue) : option RiskLevel :=
  match v with
  | RiskRecord r => Some (RiskInfo.level r)
  | PrototypeMember _ => None
  end.

Definition riskInfo_label (v : RiskValue) : option string :=
  match v with
  | RiskRecord r => Some (RiskInfo.label r)
  | PrototypeMember _ => None
  end.

Definition riskInfo_icon (v : RiskValue) : option string :=
  match v with
  | RiskRecord r => Some (RiskInfo.icon r)
  | PrototypeMember _ => None
  end.

(** The six defect types the classifier knows. *)
Definition knownDefectTypes : list string := map fst riskMap.

(** ** Defect scenarios and the synthetic snapshot generator *)

Module Signature.
Record t := mk {
  sign : string;
  source : string
}.
End Signature.

Module Scenario.
Record t := mk {
  type : string;
  controlSystem : list Signature.t;
  drone : list Signature.t
}.
End Scenario.

Definition defectScenarios : list Scenario.t :=
  [ Scenario.mk "Major/Sudden Leak"
      [ Signature.mk "High pressure drop" "PT";
        Signature.mk "Imbalance mass flow" "FT" ]
      [ Signature.mk "Direct visual sighting of spill" "Visible spectrum camera";
        Signature.mk "Detection of gas cloud" "Spectroscopic sensor";
        Signature.mk "Distinct thermal anomaly on the ground" "Thermal imaging camera" ];
    Scenario.mk "Minor/Gradual Leak"
      [ Signature.mk "Small, persistent deviation in mass balance" "FT";
        Signature.mk "Slow pressure decline" "PT" ]
      [ Signature.mk "Gradual discoloration" "Visible spectrum camera";
        Signature.mk "Consistently elevated gas concentration at a specific point"
          "Spectroscopic sensor";
        Signature.mk "Long-term changes in soil temperature" "Thermal imaging camera" ];
    Scenario.mk "Corrosion & Erosion"
      [ Signature.mk "Decrease in pressure" "PT" ]
      [ Signature.mk "Visual signs of rust, coating damage, or corrosion on exposed pipe"
          "Visible spectrum camera" ];
    Scenario.mk "Mechanical Damage"
      [ ]
      [ Signature.mk "Clear identification of damage: Dents, cracks"
          "Visible spectrum camera";
        Signature.mk "Detection of unauthorized activities (excavation, construction)"
          "Visible spectrum camera" ];
    Scenario.mk "Insulation/Coating Failure"
      [ Signature.mk "Increased heat loss" "TT" ]
      [ Signature.mk "Detection of insulation failures" "Visible spectrum camera";
        Signature.mk "Hot or cold spots along the pipe" "Thermal imaging camera" ];
    Scenario.mk "Poor Pipe Support"
      [ Signature.mk "Unusual vibrations" "Seismometer" ]
      [ Signature.mk "Visual identification of loose, shifted, or broken pipe supports"
          "Visible spectrum camera";
        Signature.mk "Identification of soil erosion or subsidence under the pipe"
          "Visible spectrum camera" ] ].

(** The values successive calls of [Math.random()] return. *)
Definition Random := nat -> Q.

(** What the platform guarantees of [Math.random()]: a value in [0, 1). *)
Definition unitInterval (random : Random) : Prop :=
  forall k, (0 <= random k)%Q /\ (random k < 1)%Q.

(** [Math.floor(r * n)] for a draw [r], with the product taken exactly.  The
    double-precision product is the exact one rounded, which next to an
    integer can be that integer (0.6 * 5 is 3); like the exact one it stays
    below [n] for a draw below 1 and the small [n] of this program, so that
    the range of an index is the same for both. *)
Definition floorTimes (r : Q) (n : nat) : nat :=
  Z.to_nat (Qfloor (r * inject_Z (Z.of_nat n))).

Definition locations : list string :=
  [ "Section A-B"; "Section B-C"; "Section C-D"; "Branch Line"; "Station Area";
    "Main Pipeline KM 12.5"; "Main Pipeline KM 18.3" ].

(** The scenarios with at least one control system and one drone signature. *)
Definition defectsWithBothSystems : list Scenario.t :=
  filter (fun d => (0 < length (Scenario.controlSystem d))%nat
                   /\ (0 < length (Scenario.drone d))%nat) defectScenarios.

(** One turn of the loop body, reading four draws from position [pos]; it
    returns the two detections pushed.  [None] is the [TypeError] of a
    property read on [undefined] (an array read out of range); reading
    [locations] out of range only leaves the location [undefined]. *)
Definition generateLeakage (random : Random) (pos : nat)
  : option (DefectDetection.t * DefectDetection.t) :=
  selectedDefect ←
    defectsWithBothSystems !! floorTimes (random pos) (length defectsWithBothSystems);
  let location := locations !! floorTimes (random (pos + 1)%nat) (length locations) in
  controlSystemSignature ←
    Scenario.controlSystem selectedDefect
      !! floorTimes (random (pos + 2)%nat) (length (Scenario.controlSystem selectedDefect));
  droneSignature ←
    Scenario.drone selectedDefect
      !! floorTimes (random (pos + 3)%nat) (length (Scenario.drone selectedDefect));
  Some (DefectDetection.mk (Scenario.type selectedDefect)
          (Signature.sign controlSystemSignature)
          (Signature.source controlSystemSignature) location,
        DefectDetection.mk (Scenario.type selectedDefect)
          (Signature.sign droneSignature)
          (Signature.source droneSignature) location).

(** The [for] loop: [n] turns from position [pos], pushing onto the two
    arrays. *)
Fixpoint generateLeakages (random : Random) (n : nat) (pos : nat)
    (controlSystemDetections droneDetections : list DefectDetection.t)
  : option (list DefectDetection.t * list DefectDetection.t * nat) :=
  match n with
  | O => Some (controlSystemDetections, droneDetections, pos)
  | S n' =>
      '(c, d) ← generateLeakage random pos;
      generateLeakages random n' (pos + 4)%nat
        (controlSystemDetections ++ [c]) (droneDetections ++ [d])
  end.

Definition statusOf (detections : list DefectDetection.t) : DetectionState :=
  if bool_decide (0 < length detections)%nat then detected else ok.

(** The double that the literal [0.2] denotes: 3602879701896397 / 2^54, a
    little above one fifth. *)
Definition double_0_2 : Q := 3602879701896397 # 18014398509481984.

(** [generateLeakageStatus], started when [pos] draws have been read; it
    returns the snapshot and the new position.  [Math.random() > 0.2]
    compares two doubles, exactly. *)
Definition generateLeakageStatus (random : Random) (pos : nat)
  : option (LeakageDetection.t * nat) :=
  let hasIssue := negb (Qle_bool (random pos) double_0_2) in
  if negb hasIssue then
    Some (LeakageDetection.mk (Subsystem.mk ok []) (Subsystem.mk ok []) 0, S pos)
  else
    let numLeakages := (floorTimes (random (S pos)) 3 + 1)%nat in
    '(controlSystemDetections, droneDetections, pos') ←
      generateLeakages random numLeakages (S (S pos)) [] [];
    Some (LeakageDetection.mk
            (Subsystem.mk (statusOf controlSystemDetections) controlSystemDetections)
            (Subsystem.mk (statusOf droneDetections) droneDetections)
            (Z.of_nat numLeakages),
          pos').

(** ** Dates *)

Definition msPerDay : Z := 86400000.

(** The instant a date-only ISO string [YYYY-MM-DD] denotes: UTC midnight of
    that day of the proleptic Gregorian calendar, in milliseconds since the
    epoch. *)
Definition isoDate (y m d : Z) : Z :=
  let y' := if m <=? 2 then y - 1 else y in
  let era := y' / 400 in
  let yoe := y' - era * 400 in
  let doy := (153 * (if m <=? 2 then m + 9 else m - 3) + 2) / 5 + d - 1 in
  let doe := yoe * 365 + yoe / 4 - yoe / 100 + doy in
  (era * 146097 + doe - 719468) * msPerDay.

(** [t.toISOString().split('T')[0]] for the instant [t]: the UTC day of [t],
    as the instant of its midnight. *)
Definition isoDay (t : Z) : Z := t - t mod msPerDay.

(** ** The static registry *)

Definition staticDefect (id defectType location : string) (level : RiskLevel)
    (label icon : string) (detectedDate : Z)
    (controlSystemSign controlSystemSource droneSign droneSource : string)
    (aiConfidence : Z) : DefectRegistryItem.t :=
  DefectRegistryItem.mk id defectType (Some location) (Some level) (Some label)
    (Some icon) detectedDate None resolved
    controlSystemSign controlSystemSource droneSign droneSource aiConfidence.

Definition getStaticDefectRegistry : list DefectRegistryItem.t :=
  [ staticDefect "DEF-001" "Major/Sudden Leak" "Section A-B"
      critical "Critical" "游댮" (isoDate 2024 11 15)
      "High pressure drop" "PT"
      "Direct visual sighting of spill" "Visible spectrum camera" 92;
    staticDefect "DEF-002" "Major/Sudden Leak" "Main Pipeline KM 12.5"
      critical "Critical" "游댮" (isoDate 2024 10 22)
      "Imbalance mass flow" "FT"
      "Detection of gas cloud" "Spectroscopic sensor" 89;
    staticDefect "DEF-003" "Mechanical Damage" "Section B-C"
      critical "Critical" "游댮" (isoDate 2024 9 18)
      "N/A" "N/A"
      "Clear identification of damage: Dents, cracks" "Visible spectrum camera" 87;
    staticDefect "DEF-004" "Mechanical Damage" "Branch Line"
      critical "Critical" "游댮" (isoDate 2024 8 5)
      "N/A" "N/A"
      "Detection of unauthorized activities (excavation, construction)"
      "Visible spectrum camera" 85;
    staticDefect "DEF-005" "Minor/Gradual Leak" "Section C-D"
      warning "Medium" "游" (isoDate 2024 7 12)
      "Small, persistent deviation in mass balance" "FT"
      "Gradual discoloration" "Visible spectrum camera" 91;
    staticDefect "DEF-006" "Minor/Gradual Leak" "Main Pipeline KM 18.3"
      warning "Medium" "游" (isoDate 2024 6 28)
      "Slow pressure decline" "PT"
      "Consistently elevated gas concentration at a specific point"
      "Spectroscopic sensor" 88;
    staticDefect "DEF-007" "Poor Pipe Support" "Station Area"
      warning "Medium" "游" (isoDate 2024 5 14)
      "Unusual vibrations" "Seismometer"
      "Visual identification of loose, shifted, or broken pipe supports"
      "Visible spectrum camera" 86;
    staticDefect "DEF-008" "Poor Pipe Support" "Section A-B"
      warning "Medium" "游" (isoDate 2024 4 20)
      "Unusual vibrations" "Seismometer"
      "Identification of soil erosion or subsidence under the pipe"
      "Visible spectrum camera" 84;
    staticDefect "DEF-009" "Corrosion & Erosion" "Section B-C"
      low "Low" "游릭" (isoDate 2024 3 8)
      "Decrease in pressure" "PT"
      "Visual signs of rust, coating damage, or corrosion on exposed pipe"
      "Visible spectrum camera" 90;
    staticDefect "DEF-010" "Corrosion & Erosion" "Main Pipeline KM 12.5"
      low "Low" "游릭" (isoDate 2024 2 15)
      "Decrease in pressure" "PT"
      "Visual signs of rust, coating damage, or corrosion on exposed pipe"
      "Visible spectrum camera" 87;
    staticDefect "DEF-011" "Insulation/Coating Failure" "Section C-D"
      low "Low" "游릭" (isoDate 2024 1 22)
      "Increased heat loss" "TT"
      "Detection of insulation failures" "Visible spectrum camera" 89;
    staticDefect "DEF-012" "Insulation/Coating Failure" "Branch Line"
      low "Low" "游릭" (isoDate 2023 12 10)
      "Increased heat loss" "TT"
      "Hot or cold spots along the pipe" "Thermal imaging camera" 85 ].

Definition MAX_DEFECT_REGISTRY_SIZE : nat := 15.

(** ** Identifier allocation *)

(** The initial value of the module-level [defectIdCounter].  The counter is
    a JavaScript number holding an integer; [++] is exact on it below 2^53,
    the range the embedding covers. *)
Definition initialDefectIdCounter : N := 100.

(** [String(n)] for a non-negative integer. *)
Definition stringOfNumber (n : N) : string :=
  NilEmpty.string_of_uint (N.to_uint n).

Fixpoint prependChars (n : nat) (c : ascii) (s : string) : string :=
  match n with
  | O => s
  | S n' => String c (prependChars n' c s)
  end.

(** [s.padStart(targetLength, c)] for a one-character pad string: [s] itself
    when it is long enough. *)
Definition padStart (targetLength : nat) (c : ascii) (s : string) : string :=
  prependChars (targetLength - String.length s) c s.

(** [generateDefectId], from the counter's value; it returns the identifier
    and the counter's new value. *)
Definition generateDefectId (defectIdCounter : N) : string * N :=
  let defectIdCounter := N.succ defectIdCounter in
  ("DEF-" +:+ padStart 3 "0"%char (stringOfNumber defectIdCounter), defectIdCounter).

(** The decimal number after the prefix [DEF-] of an identifier. *)
Definition idNumber (id : string) : option N :=
  match id with
  | String "D" (String "E" (String "F" (String "-" digits))) =>
      N.of_uint <$> NilEmpty.uint_of_string digits
  | _ => None
  end.

(** [n] successive calls of [generateDefectId]: the identifiers returned, in
    order, and the counter afterwards. *)
Fixpoint generateDefectIds (n : nat) (defectIdCounter : N) : list string * N :=
  match n with
  | O => ([], defectIdCounter)
  | S n' =>
      let '(id, counter) := generateDefectId defectIdCounter in
      let '(ids, counter') := generateDefectIds n' counter in
      (id :: ids, counter')
  end.

(** ** Registry reconciliation *)

(** The template literal [`${detection.location}-${detection.defectType}`];
    an [undefined] location is rendered as the text [undefined]. *)
Definition templateKey (location : option string) (defectType : string) : string :=
  default "undefined" location +:+ "-" +:+ defectType.

Definition detectionKey (detection : DefectDetection.t) : string :=
  templateKey (DefectDetection.location detection)
              (DefectDetection.defectType detection).

(** The value type of [locationDefectMap]. *)
Module Grouped.
Record t := mk {
  controlSystem : option DefectDetection.t;
  drone : option DefectDetection.t
}.
End Grouped.

(** A JavaScript [Map] with string keys: its entries in insertion order, which
    is the order [forEach] visits them in. *)
Definition LocationDefectMap := list (string * Grouped.t).

Definition map_has (key : string) (m : LocationDefectMap) : bool :=
  existsb (fun kv => String.eqb (fst kv) key) m.

(** [m.set(key, v)] for a key [m] does not have. *)
Definition map_set_new (key : string) (v : Grouped.t) (m : LocationDefectMap)
  : LocationDefectMap := m ++ [(key, v)].

(** An assignment to a property of the object [m.get(key)]. *)
Fixpoint map_assign (f : Grouped.t -> Grouped.t) (key : string)
    (m : LocationDefectMap) : LocationDefectMap :=
  match m with
  | [] => []
  | (k, v) :: m' =>
      if String.eqb k key then (k, f v) :: m'
      else (k, v) :: map_assign f key m'
  end.

Definition addControlSystemDetection (m : LocationDefectMap)
    (detection : DefectDetection.t) : LocationDefectMap :=
  let key := detectionKey detection in
  let m := if negb (map_has key m) then map_set_new key (Grouped.mk None None) m else m in
  map_assign (fun g => Grouped.mk (Some detection) (Grouped.drone g)) key m.

Definition addDroneDetection (m : LocationDefectMap)
    (detection : DefectDetection.t) : LocationDefectMap :=
  let key := detectionKey detection in
  let m := if negb (map_has key m) then map_set_new key (Grouped.mk None None) m else m in
  map_assign (fun g => Grouped.mk (Grouped.controlSystem g) (Some detection)) key m.

(** The two [forEach] loops that fill [locationDefectMap]. *)
Definition groupDetections (leakageStatus : LeakageDetection.t) : LocationDefectMap :=
  fold_left addDroneDetection
    (Subsystem.detections (LeakageDetection.drone leakageStatus))
    (fold_left addControlSystemDetection
       (Subsystem.detections (LeakageDetection.controlSystem leakageStatus)) []).

(** The state the reconciliation reads and writes: the array under
    construction, the module-level counter, and how many draws
    [Math.random()] has handed out. *)
Module Working.
Record t := mk {
  updatedRegistry : list DefectRegistryItem.t;
  defectIdCounter : N;
  drawn : nat
}.
End Working.

(** [riskInfo.level === 'critical' ? 'pending' :
     riskInfo.level === 'warning' ? 'progress' : 'pending'] *)
Definition statusForLevel (level : option RiskLevel) : DefectStatus :=
  if decide (level = Some critical) then pending
  else if decide (level = Some warning) then progress
  else pending.

(** [Math.min(99, 85 + Math.floor(r * 10))] for the draw [r]. *)
Definition confidenceOf (r : Q) : Z := Z.min 99 (85 + Z.of_nat (floorTimes r 10)).

(** The object literal of the UPDATE branch: the spread of the matching entry
    with eight properties overwritten. *)
Definition updatedDefect (existing : DefectRegistryItem.t)
    (currentDate currentTimestamp : Z) (riskInfo : RiskValue)
    (controlSystem drone : DefectDetection.t) (r : Q) : DefectRegistryItem.t :=
  DefectRegistryItem.mk
    (DefectRegistryItem.id existing)
    (DefectRegistryItem.defectType existing)
    (DefectRegistryItem.location existing)
    (DefectRegistryItem.riskLevel existing)
    (DefectRegistryItem.riskLabel existing)
    (DefectRegistryItem.riskIcon existing)
    currentDate
    (Some currentTimestamp)
    (statusForLevel (riskInfo_level riskInfo))
    (DefectDetection.sign controlSystem)
    (DefectDetection.source controlSystem)
    (DefectDetection.sign drone)
    (DefectDetection.source drone)
    (confidenceOf r).

(** The object literal of the ADD NEW branch. *)
Definition newDefect (id : string) (defectType : string) (location : option string)
    (currentDate currentTimestamp : Z) (riskInfo : RiskValue)
    (controlSystem drone : DefectDetection.t) (r : Q) : DefectRegistryItem.t :=
  DefectRegistryItem.mk
    id defectType location
    (riskInfo_level riskInfo) (riskInfo_label riskInfo) (riskInfo_icon riskInfo)
    currentDate
    (Some currentTimestamp)
    (statusForLevel (riskInfo_level riskInfo))
    (DefectDetection.sign controlSystem)
    (DefectDetection.source controlSystem)
    (DefectDetection.sign drone)
    (DefectDetection.source drone)
    (confidenceOf r).

(** The predicate of [findIndex]: same location and same defect type. *)
Definition matches (location : option string) (defectType : string)
    (d : DefectRegistryItem.t) : Prop :=
  DefectRegistryItem.location d = location
  /\ DefectRegistryItem.defectType d = defectType.

#[global] Instance matches_dec location defectType d :
  Decision (matches location defectType d).
Proof. unfold matches. apply _. Defined.

(** The callback of [locationDefectMap.forEach], on one value of the map. *)
Definition processDetections (random : Random) (currentDate currentTimestamp : Z)
    (w : Working.t) (detections : Grouped.t) : Working.t :=
  match Grouped.controlSystem detections, Grouped.drone detections with
  | Some controlSystem, Some drone =>
      let location := DefectDetection.location controlSystem in
      let defectType := DefectDetection.defectType controlSystem in
      let riskInfo := getRiskLevel defectType in
      match list_find (matches location defectType) (Working.updatedRegistry w) with
      | Some (matchingDefectIndex, existing) =>
          Working.mk
            (<[ matchingDefectIndex :=
                  updatedDefect existing currentDate currentTimestamp riskInfo
                    controlSystem drone (random (Working.drawn w)) ]>
               (Working.updatedRegistry w))
            (Working.defectIdCounter w)
            (S (Working.drawn w))
      | None =>
          let '(id, counter) := generateDefectId (Working.defectIdCounter w) in
          Working.mk
            (Working.updatedRegistry w ++
               [ newDefect id defectType location currentDate currentTimestamp
                   riskInfo controlSystem drone (random (Working.drawn w)) ])
            counter
            (S (Working.drawn w))
      end
  | _, _ => w
  end.

(** [Array.prototype.sort] with a comparator: the sort is stable, and for a
    consistent comparator its result is the one stable insertion computes.  A
    negative result keeps [a] before [b], a positive one moves [b] first. *)
Fixpoint insertSorted {A} (compareFn : A -> A -> Z) (a : A) (l : list A) : list A :=
  match l with
  | [] => [a]
  | b :: l' =>
      if compareFn a b <=? 0 then a :: b :: l'
      else b :: insertSorted compareFn a l'
  end.

Fixpoint sort {A} (compareFn : A -> A -> Z) (l : list A) : list A :=
  match l with
  | [] => []
  | a :: l' => insertSorted compareFn a (sort compareFn l')
  end.

(** The comparator of the registry sort.  [a.lastDetected] is truthy when
    present (a timestamp is not the empty string), and the difference of two
    instants is exact. *)
Definition compareDefects (a b : DefectRegistryItem.t) : Z :=
  match DefectRegistryItem.lastDetected a, DefectRegistryItem.lastDetected b with
  | Some ta, Some tb => tb - ta
  | Some _, None => -1
  | None, Some _ => 1
  | None, None => DefectRegistryItem.detectedDate b - DefectRegistryItem.detectedDate a
  end.

(** The array at the end of the [forEach] over the map, before sorting. *)
Definition reconciled (random : Random) (now now' : Z)
    (currentRegistry : list DefectRegistryItem.t) (leakageStatus : LeakageDetection.t)
    (defectIdCounter : N) (drawn : nat) : Working.t :=
  let currentTimestamp := now in
  let currentDate := isoDay now' in
  fold_left (fun w kv => processDetections random currentDate currentTimestamp w (snd kv))
    (groupDetections leakageStatus)
    (Working.mk currentRegistry defectIdCounter drawn).

(** [updateDefectRegistryWithDetections].  [now] and [now'] are the instants
    the two [new Date()] of its first lines read; [defectIdCounter] and
    [drawn] are the counter and the position in the draws when it is called.
    The [updatedRegistry] of the result is the array returned. *)
Definition updateDefectRegistryWithDetections (random : Random) (now now' : Z)
    (currentRegistry : list DefectRegistryItem.t) (leakageStatus : LeakageDetection.t)
    (defectIdCounter : N) (drawn : nat) : Working.t :=
  let w := reconciled random now now' currentRegistry leakageStatus defectIdCounter drawn in
  let updatedRegistry := sort compareDefects (Working.updatedRegistry w) in
  Working.mk
    (if bool_decide (MAX_DEFECT_REGISTRY_SIZE < length updatedRegistry)%nat
     then take MAX_DEFECT_REGISTRY_SIZE updatedRegistry
     else updatedRegistry)
    (Working.defectIdCounter w)
    (Working.drawn w).

(** [getInitialDefectRegistry] *)
Definition getInitialDefectRegistry : list DefectRegistryItem.t :=
  let allDefects :=
    sort (fun a b => DefectRegistryItem.detectedDate b - DefectRegistryItem.detectedDate a)
      getStaticDefectRegistry in
  take MAX_DEFECT_REGISTRY_SIZE allDefects.

(** ** Sequences of reconciliations *)

(** One refresh: the instants of its two clock reads and the snapshot. *)
Module Refresh.
Record t := mk {
  now : Z;
  now' : Z;
  leakageStatus : LeakageDetection.t
}.
End Refresh.

(** The refreshes of a session, one after the other, each on the registry the
    one before returned. *)
Definition reconcileAll (random : Random) (refreshes : list Refresh.t)
    (w : Working.t) : Working.t :=
  fold_left (fun w r =>
      updateDefectRegistryWithDetections random (Refresh.now r) (Refresh.now' r)
        (Working.updatedRegistry w) (Refresh.leakageStatus r)
        (Working.defectIdCounter w) (Working.drawn w))
    refreshes w.

(** ** Detection service *)

(** A JavaScript error value: its constructor's name and its message. *)
Module JsError.
Record t := mk {
  name : string;
  message : string
}.
End JsError.

(** What [getLeakageStatus] reads of the [Response] that [fetch] resolves to;
    [json] is what [response.json()] settles to. *)
Module Response.
Record t (Body : Type) := mk {
  status : Z;
  statusText : string;
  json : JsError.t + Body
}.
Arguments mk {Body}.
Arguments status {Body}.
Arguments statusText {Body}.
Arguments json {Body}.

(** [response.ok]: the status is in the range 200-299. *)
Definition ok {Body} (r : t Body) : bool := (200 <=? status r) && (status r <=? 299).
End Response.

(** [fetch] either rejects (a network failure, a [TypeError]) or resolves to a
    response, whatever its status. *)
Inductive FetchOutcome (Body : Type) :=
  | Rejects (e : JsError.t)
  | Resolves (r : Response.t Body).
Arguments Rejects {Body}.
Arguments Resolves {Body}.

Module DetectionService.

(** [getAuthHeaders], given what [localStorage.getItem('access_token')]
    returns. *)
Definition getAuthHeaders (token : option string) : list (string * string) :=
  [ ("Content-Type", "application/json");
    ("Authorization",
     match token with
     | Some t => if String.eqb t EmptyString then EmptyString else "Bearer " +:+ t
     | None => EmptyString
     end) ].

(** [getLeakageStatus], given the stored token and the behaviour of [fetch] on
    the request it makes: the error thrown, or the body returned. *)
Definition getLeakageStatus {Body} (token : option string)
    (fetch : string -> string -> list (string * string) -> FetchOutcome Body)
  : JsError.t + Body :=
  match fetch "/api/detection/leakage-status" "GET" (getAuthHeaders token) with
  | Rejects e => inl e
  | Resolves response =>
      if negb (Response.ok response) then
        inl (JsError.mk "Error"
               ("Failed to fetch leakage status: " +:+ Response.statusText response))
      else Response.json response
  end.

End DetectionService.

(** [s.includes(sub)] *)
Definition includes (sub s : string) : bool :=
  match String.index 0 sub s with
  | Some _ => true
  | None => false
  end.

(** The test the pages apply to the message of a caught error to decide on the
    redirect to the login page:
    [errorMessage.includes('Unauthorized') || errorMessage.includes('401')]. *)
Definition isUnauthorizedMessage (errorMessage : string) : bool :=
  includes "Unauthorized" errorMessage || includes "401" errorMessage.

(** * Predicates the properties are stated with *)

(** ** The generator's contract *)

(** What one turn of the generator's loop pushes: a detection for each
    subsystem, of the same type and location. *)
Definition agreeingPair (c d : DefectDetection.t) : Prop :=
  DefectDetection.defectType c = DefectDetection.defectType d
  /\ DefectDetection.location c = DefectDetection.location d.

(** The detection's type is that of a scenario with signatures of both
    subsystems. *)
Definition fromBothSystemsScenario (d : DefectDetection.t) : Prop :=
  exists sc, sc ∈ defectScenarios
    /\ Scenario.type sc = DefectDetection.defectType d
    /\ Scenario.controlSystem sc <> []
    /\ Scenario.drone sc <> []
    /\ DefectDetection.defectType d <> "Mechanical Damage".

(** ** The order of the registry *)

(** The order the specification asks of two entries, [a] before [b]: an entry
    with a last detection is never after one without; two entries with a last
    detection are in non-increasing order of it; two entries without are in
    non-increasing order of their detected date. *)
Definition inRegistryOrder (a b : DefectRegistryItem.t) : Prop :=
  match DefectRegistryItem.lastDetected a, DefectRegistryItem.lastDetected b with
  | Some ta, Some tb => tb <= ta
  | Some _, None => True
  | None, Some _ => False
  | None, None => DefectRegistryItem.detectedDate b <= DefectRegistryItem.detectedDate a
  end.

(** ** Identity keys and agreement *)

(** The identity key of a registry entry and of a detection: location and
    defect type. *)
Definition pairOf (e : DefectRegistryItem.t) : option string * string :=
  (DefectRegistryItem.location e, DefectRegistryItem.defectType e).

Definition pairOfDetection (d : DefectDetection.t) : option string * string :=
  (DefectDetection.location d, DefectDetection.defectType d).

Definition pairKey (p : option string * string) : string := templateKey (fst p) (snd p).

(** [m.get(key)]: the value of the first entry with that key. *)
Fixpoint map_get (key : string) (m : LocationDefectMap) : option Grouped.t :=
  match m with
  | [] => None
  | (k, v) :: m' => if String.eqb k key then Some v else map_get key m'
  end.

(** The pair [p] is processed by the reconciliation of the snapshot: the map
    of grouped detections has a value with a control system and a drone
    detection, and [p] is the location and defect type of the control system
    one (the pair the callback of [forEach] reads). *)
Definition agreed (leakageStatus : LeakageDetection.t) (p : option string * string) : Prop :=
  exists key c d,
    (key, Grouped.mk (Some c) (Some d)) ∈ groupDetections leakageStatus
    /\ pairOfDetection c = p.

(** The keys and the pairs of a subsystem's detections. *)
Definition controlSystemDetections (leakageStatus : LeakageDetection.t) :=
  Subsystem.detections (LeakageDetection.controlSystem leakageStatus).

Definition droneDetections (leakageStatus : LeakageDetection.t) :=
  Subsystem.detections (LeakageDetection.drone leakageStatus).

(** Every detection stored in the map comes from the corresponding subsystem
    and is stored under its own key. *)
Definition groupedFrom (cs ds : list DefectDetection.t) (m : LocationDefectMap) : Prop :=
  forall k g, (k, g) ∈ m ->
    (forall c, Grouped.controlSystem g = Some c -> c ∈ cs /\ detectionKey c = k)
    /\ (forall d, Grouped.drone g = Some d -> d ∈ ds /\ detectionKey d = k).

(** ** What a reconciliation does to an entry *)

(** [e'] has the identity of [e]: the properties the spread of the UPDATE
    branch carries over. *)
Definition sameIdentity (e e' : DefectRegistryItem.t) : Prop :=
  DefectRegistryItem.id e' = DefectRegistryItem.id e
  /\ DefectRegistryItem.defectType e' = DefectRegistryItem.defectType e
  /\ DefectRegistryItem.location e' = DefectRegistryItem.location e
  /\ DefectRegistryItem.riskLevel e' = DefectRegistryItem.riskLevel e
  /\ DefectRegistryItem.riskLabel e' = DefectRegistryItem.riskLabel e
  /\ DefectRegistryItem.riskIcon e' = DefectRegistryItem.riskIcon e.

(** [e'] carries what both branches write: the time stamps of this
    reconciliation and the status computed from the classifier's level of its
    defect type. *)
Definition written (currentDate currentTimestamp : Z) (e' : DefectRegistryItem.t) : Prop :=
  DefectRegistryItem.lastDetected e' = Some currentTimestamp
  /\ DefectRegistryItem.detectedDate e' = currentDate
  /\ DefectRegistryItem.status e'
     = statusForLevel (riskInfo_level (getRiskLevel (DefectRegistryItem.defectType e'))).

(** The risk properties of [e] are those the classifier gives its defect
    type. *)
Definition classified (e : DefectRegistryItem.t) : Prop :=
  DefectRegistryItem.riskLevel e
    = riskInfo_level (getRiskLevel (DefectRegistryItem.defectType e))
  /\ DefectRegistryItem.riskLabel e
    = riskInfo_label (getRiskLevel (DefectRegistryItem.defectType e))
  /\ DefectRegistryItem.riskIcon e
    = riskInfo_icon (getRiskLevel (DefectRegistryItem.defectType e)).

(** Where an entry of the reconciled registry comes from: it is an entry of
    the registry passed in, untouched; or it is one of them updated for a
    processed pair; or it was created for a processed pair, with an identifier
    allocated from the counter at or after its value [c0] at the call. *)
Inductive provenance (currentRegistry : list DefectRegistryItem.t)
    (leakageStatus : LeakageDetection.t) (currentDate currentTimestamp : Z) (c0 : N)
    (e' : DefectRegistryItem.t) : Prop :=
  | provenance_kept :
      e' ∈ currentRegistry ->
      provenance currentRegistry leakageStatus currentDate currentTimestamp c0 e'
  | provenance_updated e :
      e ∈ currentRegistry ->
      sameIdentity e e' ->
      agreed leakageStatus (pairOf e') ->
      written currentDate currentTimestamp e' ->
      provenance currentRegistry leakageStatus currentDate currentTimestamp c0 e'
  | provenance_created c :
      (c0 <= c)%N ->
      DefectRegistryItem.id e' = fst (generateDefectId c) ->
      classified e' ->
      agreed leakageStatus (pairOf e') ->
      written currentDate currentTimestamp e' ->
      provenance currentRegistry leakageStatus currentDate currentTimestamp c0 e'.

(** ** Time stamps of a registry *)

(** [e] was last detected, if at all, not after [t] / before [t]. *)
Definition notAfter (t : Z) (e : DefectRegistryItem.t) : Prop :=
  forall t', DefectRegistryItem.lastDetected e = Some t' -> t' <= t.

Definition before (t : Z) (e : DefectRegistryItem.t) : Prop :=
  forall t', DefectRegistryItem.lastDetected e = Some t' -> t' < t.

(** * Concrete inputs *)

Definition alwaysHalf : Random := fun _ => (1 # 2)%Q.

(** A refresh instant: 10 January 2025, 10:00 UTC. *)
Definition refreshInstant : Z := isoDate 2025 1 10 + 36000000.

(** A major leak in section A-B, as the control system and as the drone report
    it. *)
Definition leakSeenByControlSystem : DefectDetection.t :=
  DefectDetection.mk "Major/Sudden Leak" "High pressure drop" "PT" (Some "Section A-B").

Definition leakSeenByDrone : DefectDetection.t :=
  DefectDetection.mk "Major/Sudden Leak" "Detection of gas cloud" "Spectroscopic sensor"
    (Some "Section A-B").

(** Both subsystems report the leak. *)
Definition agreeingSnapshot : LeakageDetection.t :=
  LeakageDetection.mk
    (Subsystem.mk detected [leakSeenByControlSystem])
    (Subsystem.mk detected [leakSeenByDrone]) 1.

(** Only the control system reports the leak. *)
Definition controlOnlySnapshot : LeakageDetection.t :=
  LeakageDetection.mk
    (Subsystem.mk detected [leakSeenByControlSystem])
    (Subsystem.mk ok []) 1.

(** A full registry, as a session reaches it: the initial registry after a
    refresh in which both subsystems report three defects it has no entry
    for. *)
Definition reportedByBoth (defectType location : string) : DefectDetection.t * DefectDetection.t :=
  (DefectDetection.mk defectType "Decrease in pressure" "PT" (Some location),
   DefectDetection.mk defectType "Gradual discoloration" "Visible spectrum camera"
     (Some location)).

Definition threeNewDefects : list (DefectDetection.t * DefectDetection.t) :=
  [ reportedByBoth "Major/Sudden Leak" "Station Area";
    reportedByBoth "Minor/Gradual Leak" "Branch Line";
    reportedByBoth "Corrosion & Erosion" "Section A-B" ].

Definition threeNewDefectsSnapshot : LeakageDetection.t :=
  LeakageDetection.mk
    (Subsystem.mk detected (fst <$> threeNewDefects))
    (Subsystem.mk detected (snd <$> threeNewDefects)) 3.

Definition fullSession : Working.t :=
  updateDefectRegistryWithDetections alwaysHalf refreshInstant refreshInstant
    getInitialDefectRegistry threeNewDefectsSnapshot initialDefectIdCounter 0.

Definition fullRegistry : list DefectRegistryItem.t := Working.updatedRegistry fullSession.

(** The oldest entry of the initial registry, the last of the full one. *)
Definition oldestDefect : DefectRegistryItem.t :=
  staticDefect "DEF-012" "Insulation/Coating Failure" "Branch Line"
    low "Low" "游릭" (isoDate 2023 12 10)
    "Increased heat loss" "TT"
    "Hot or cold spots along the pipe" "Thermal imaging camera" 85.

(** The next refresh, 15 seconds later: the control system alone reports the
    insulation failure of the branch line (the pair of [oldestDefect]); both
    subsystems report a poor pipe support in section C-D, a pair the full
    registry has no entry for. *)
Definition insulationSeenByControlSystem : DefectDetection.t :=
  DefectDetection.mk "Insulation/Coating Failure" "Increased heat loss" "TT"
    (Some "Branch Line").

Definition supportSeenByControlSystem : DefectDetection.t :=
  DefectDetection.mk "Poor Pipe Support" "Unusual vibrations" "Seismometer"
    (Some "Section C-D").

Definition supportSeenByDrone : DefectDetection.t :=
  DefectDetection.mk "Poor Pipe Support"
    "Identification of soil erosion or subsidence under the pipe"
    "Visible spectrum camera" (Some "Section C-D").

Definition truncatingSnapshot : LeakageDetection.t :=
  LeakageDetection.mk
    (Subsystem.mk detected [insulationSeenByControlSystem; supportSeenByControlSystem])
    (Subsystem.mk detected [supportSeenByDrone]) 2.

(** Two different pairs with the same key: the control system reports the
    type 'B-C' at location 'A', the drone the type 'C' at location 'A-B'. *)
Definition collidingSnapshot : LeakageDetection.t :=
  LeakageDetection.mk
    (Subsystem.mk detected [DefectDetection.mk "B-C" "High pressure drop" "PT" (Some "A")])
    (Subsystem.mk detected
       [DefectDetection.mk "C" "Detection of gas cloud" "Spectroscopic sensor" (Some "A-B")])
    2.

(** * Further predicates and functions *)

(** ** Accounting of a reconciliation *)

(** The value of the map has a detection of both subsystems, the condition of
    the [if] in the callback of [forEach]. *)
Definition bothPresent (g : Grouped.t) : bool :=
  match Grouped.controlSystem g, Grouped.drone g with
  | Some _, Some _ => true
  | _, _ => false
  end.

(** The number of values of the map the callback processes. *)
Definition processedCount (leakageStatus : LeakageDetection.t) : nat :=
  length (filter (fun kv => bothPresent (snd kv) = true) (groupDetections leakageStatus)).

(** The identifiers of the registry are distinct, and each is [DEF-] followed
    by a number the counter has reached. *)
Definition idsAllocated (counter : N) (registry : list DefectRegistryItem.t) : Prop :=
  NoDup (DefectRegistryItem.id <$> registry)
  /\ forall e, e ∈ registry ->
       exists n, idNumber (DefectRegistryItem.id e) = Some n /\ (n <= counter)%N.

(** ** What the generator pushes *)

(** The pair of detections one turn of the generator's loop pushes: a scenario
    with signatures of both subsystems, one signature of each of its two
    lists, and one of the seven locations. *)
Definition fromScenario (c d : DefectDetection.t) : Prop :=
  exists sc cs ds l,
    sc ∈ defectsWithBothSystems
    /\ cs ∈ Scenario.controlSystem sc
    /\ ds ∈ Scenario.drone sc
    /\ l ∈ locations
    /\ c = DefectDetection.mk (Scenario.type sc) (Signature.sign cs) (Signature.source cs)
             (Some l)
    /\ d = DefectDetection.mk (Scenario.type sc) (Signature.sign ds) (Signature.source ds)
             (Some l).

(** The pairs the generator can report. *)
Definition generatedPairs : list (option string * string) :=
  l ← locations; sc ← defectsWithBothSystems; [(Some l, Scenario.type sc)].


(** * The report page

    What [pages/ReportPage.tsx] computes from the registry it holds in its
    state.  The entries are those of the detection utilities; a confidence is
    a whole percentage, as the utilities write it. *)

Module ReportPage.

(** [getSortTimestamp] *)
Definition getSortTimestamp (item : DefectRegistryItem.t) : Z :=
  match DefectRegistryItem.lastDetected item with
  | Some t => t
  | None => DefectRegistryItem.detectedDate item
  end.

(** The object [riskOrder] of the case 'severity-desc' and of the case
    'severity-asc'. *)
Definition riskOrderDesc (level : RiskLevel) : Z :=
  match level with critical => 0 | warning => 1 | low => 2 end.

Definition riskOrderAsc (level : RiskLevel) : Z :=
  match level with critical => 2 | warning => 1 | low => 0 end.

(** The comparator of the two severity cases.  A risk level that is
    [undefined] reads [undefined] from [riskOrder]; the difference is then
    [NaN], which is not 0 and is returned, and which [sort] takes for 0. *)
Definition compareSeverity (riskOrder : RiskLevel -> Z) (a b : DefectRegistryItem.t) : Z :=
  match DefectRegistryItem.riskLevel a, DefectRegistryItem.riskLevel b with
  | Some la, Some lb =>
      let riskDiff := riskOrder la - riskOrder lb in
      if negb (riskDiff =? 0) then riskDiff
      else getSortTimestamp b - getSortTimestamp a
  | _, _ => 0
  end.

Definition compareDateAsc (a b : DefectRegistryItem.t) : Z :=
  getSortTimestamp a - getSortTimestamp b.

Definition compareConfidenceDesc (a b : DefectRegistryItem.t) : Z :=
  let confidenceDiff := DefectRegistryItem.aiConfidence b - DefectRegistryItem.aiConfidence a in
  if negb (confidenceDiff =? 0) then confidenceDiff
  else getSortTimestamp b - getSortTimestamp a.

Definition compareConfidenceAsc (a b : DefectRegistryItem.t) : Z :=
  let confidenceDiff := DefectRegistryItem.aiConfidence a - DefectRegistryItem.aiConfidence b in
  if negb (confidenceDiff =? 0) then confidenceDiff
  else getSortTimestamp b - getSortTimestamp a.

(** The comparator the [switch] on [sortBy] selects; the comparator of the
    case 'date-desc' is, token for token, the one of the registry sort of the
    detection utilities.  [None] is the [default] case. *)
Definition comparatorOf (sortBy : string)
  : option (DefectRegistryItem.t -> DefectRegistryItem.t -> Z) :=
  if String.eqb sortBy "severity-desc" then Some (compareSeverity riskOrderDesc)
  else if String.eqb sortBy "severity-asc" then Some (compareSeverity riskOrderAsc)
  else if String.eqb sortBy "date-desc" then Some compareDefects
  else if String.eqb sortBy "date-asc" then Some compareDateAsc
  else if String.eqb sortBy "confidence-desc" then Some compareConfidenceDesc
  else if String.eqb sortBy "confidence-asc" then Some compareConfidenceAsc
  else None.

(** The effect that sorts: the value it sets [sortedDefectRegistry] to. *)
Definition sortedDefectRegistry (sortBy : string)
    (defectRegistry : list DefectRegistryItem.t) : list DefectRegistryItem.t :=
  match comparatorOf sortBy with
  | Some compareFn => sort compareFn defectRegistry
  | None => defectRegistry
  end.

(** [toggleFilter] and [toggleAccordionItemSelection]: the updater passed to
    the setter, applied to the previous array. *)
Definition toggleFilter (filter : string) (prev : list string) : list string :=
  if bool_decide (filter ∈ prev)
  then base.filter (fun f => f <> filter) prev
  else prev ++ [filter].

Definition toggleAccordionItemSelection (itemId : string) (prev : list string)
  : list string :=
  if bool_decide (itemId ∈ prev)
  then base.filter (fun id => id <> itemId) prev
  else prev ++ [itemId].

(** The updater [handleStatusChange] passes to [setDefectRegistry] when the
    request has succeeded. *)
Definition withStatus (defectId : string) (newStatus : DefectStatus)
    (prevRegistry : list DefectRegistryItem.t) : list DefectRegistryItem.t :=
  (fun defect : DefectRegistryItem.t =>
     if String.eqb (DefectRegistryItem.id defect) defectId
     then DefectRegistryItem.mk
            (DefectRegistryItem.id defect) (DefectRegistryItem.defectType defect)
            (DefectRegistryItem.location defect) (DefectRegistryItem.riskLevel defect)
            (DefectRegistryItem.riskLabel defect) (DefectRegistryItem.riskIcon defect)
            (DefectRegistryItem.detectedDate defect) (DefectRegistryItem.lastDetected defect)
            newStatus
            (DefectRegistryItem.controlSystemSign defect)
            (DefectRegistryItem.controlSystemSource defect)
            (DefectRegistryItem.droneSign defect) (DefectRegistryItem.droneSource defect)
            (DefectRegistryItem.aiConfidence defect)
     else defect) <$> prevRegistry.

(** The toast [handleStatusChange] shows. *)
Inductive Toast :=
  | SuccessToast (message : string)
  | ErrorToast (message : string).

(** [handleStatusChange], given what the awaited
    [detectionService.updateDetectionStatus(defectId, newStatus)] settles to:
    the registry and the toast it sets. *)
Definition handleStatusChange {Event} (defectId : string) (newStatus : DefectStatus)
    (updateDetectionStatus : string -> DefectStatus -> JsError.t + Event)
    (defectRegistry : list DefectRegistryItem.t)
  : list DefectRegistryItem.t * Toast :=
  match updateDetectionStatus defectId newStatus with
  | inr _ =>
      (withStatus defectId newStatus defectRegistry,
       SuccessToast "Status updated successfully")
  | inl _ =>
      (defectRegistry, ErrorToast "Failed to update status. Please try again.")
  end.

(** The count shown as 'Just Detected'. *)
Definition justDetected (sortedDefectRegistry : list DefectRegistryItem.t) : nat :=
  length (base.filter (fun d => DefectRegistryItem.lastDetected d <> None)
            sortedDefectRegistry).

End ReportPage.

(** ** The order of the sorted registry *)

(** The values of [sortBy] the [switch] has a case for. *)
Definition sortModes : list string :=
  [ "severity-desc"; "severity-asc"; "date-desc"; "date-asc";
    "confidence-desc"; "confidence-asc" ].

(** [la] is a more severe risk level than [lb]. *)
Definition moreSevere (la lb : RiskLevel) : Prop :=
  match la, lb with
  | critical, warning | critical, low | warning, low => True
  | _, _ => False
  end.

(** [a] is not older than [b], by the timestamp the page sorts with. *)
Definition newerFirst (a b : DefectRegistryItem.t) : Prop :=
  ReportPage.getSortTimestamp b <= ReportPage.getSortTimestamp a.

(** What each sort mode promises of two entries, [a] shown before [b]. *)
Definition shownBefore (sortBy : string) (a b : DefectRegistryItem.t) : Prop :=
  if String.eqb sortBy "severity-desc" then
    exists la lb, DefectRegistryItem.riskLevel a = Some la
      /\ DefectRegistryItem.riskLevel b = Some lb
      /\ (moreSevere la lb \/ (la = lb /\ newerFirst a b))
  else if String.eqb sortBy "severity-asc" then
    exists la lb, DefectRegistryItem.riskLevel a = Some la
      /\ DefectRegistryItem.riskLevel b = Some lb
      /\ (moreSevere lb la \/ (la = lb /\ newerFirst a b))
  else if String.eqb sortBy "date-desc" then inRegistryOrder a b
  else if String.eqb sortBy "date-asc" then
    ReportPage.getSortTimestamp a <= ReportPage.getSortTimestamp b
  else if String.eqb sortBy "confidence-desc" then
    DefectRegistryItem.aiConfidence b < DefectRegistryItem.aiConfidence a
    \/ (DefectRegistryItem.aiConfidence a = DefectRegistryItem.aiConfidence b
        /\ newerFirst a b)
  else if String.eqb sortBy "confidence-asc" then
    DefectRegistryItem.aiConfidence a < DefectRegistryItem.aiConfidence b
    \/ (DefectRegistryItem.aiConfidence a = DefectRegistryItem.aiConfidence b
        /\ newerFirst a b)
  else True.

(** The risk level of the entry is defined. *)
Definition hasRiskLevel (e : DefectRegistryItem.t) : Prop :=
  DefectRegistryItem.riskLevel e <> None.

(** ** The detection events of the back end *)

(** A [DetectionEvent], with its dates as instants. *)
Module DetectionEvent.
Record t := mk {
  id : string;
  defect_type : string;
  location : string;
  risk_level : RiskLevel;
  detected_date : Z;
  last_detected : Z;
  status : DefectStatus;
  control_system_sign : string;
  control_system_source : string;
  drone_sign : string;
  drone_source : string;
  ai_confidence : Z
}.
End DetectionEvent.

(** [DetectionService.getDetectionEvents], given the stored token and the
    behaviour of [fetch]; the body of a response is the array [data.events]. *)
Definition getDetectionEvents (token : option string)
    (fetch : string -> string -> list (string * string)
             -> FetchOutcome (list DetectionEvent.t))
    (limit : nat) : JsError.t + list DetectionEvent.t :=
  match fetch ("/api/detection/events?limit=" +:+ stringOfNumber (N.of_nat limit)) "GET"
          (DetectionService.getAuthHeaders token) with
  | Rejects e => inl e
  | Resolves response =>
      if negb (Response.ok response) then
        inl (JsError.mk "Error"
               ("Failed to fetch detection events: " +:+ Response.statusText response))
      else Response.json response
  end.

(** [convertDetectionEvent] *)
Definition convertDetectionEvent (event : DetectionEvent.t) : DefectRegistryItem.t :=
  let riskInfo := getRiskLevel (DetectionEvent.defect_type event) in
  DefectRegistryItem.mk
    (DetectionEvent.id event)
    (DetectionEvent.defect_type event)
    (Some (DetectionEvent.location event))
    (Some (DetectionEvent.risk_level event))
    (riskInfo_label riskInfo)
    (riskInfo_icon riskInfo)
    (DetectionEvent.detected_date event)
    (Some (DetectionEvent.last_detected event))
    (DetectionEvent.status event)
    (DetectionEvent.control_system_sign event)
    (DetectionEvent.control_system_source event)
    (DetectionEvent.drone_sign event)
    (DetectionEvent.drone_source event)
    (DetectionEvent.ai_confidence event).

(** The state of the report page that [fetchDetectionEvents] writes, and the
    paths it has navigated to. *)
Module ReportState.
Record t := mk {
  isLoading : bool;
  isEmpty : bool;
  error : option string;
  defectRegistry : list DefectRegistryItem.t;
  navigations : list string
}.
End ReportState.

(** [fetchDetectionEvents], given [authState.isAuthenticated] and what the
    awaited [detectionService.getDetectionEvents] settles to.  What is caught
    is an [Error], so that the message read is its own. *)
Definition fetchDetectionEvents (isAuthenticated : bool)
    (getDetectionEvents : nat -> JsError.t + list DetectionEvent.t)
    (s : ReportState.t) : ReportState.t :=
  if negb isAuthenticated then
    ReportState.mk (ReportState.isLoading s) (ReportState.isEmpty s) (ReportState.error s)
      (ReportState.defectRegistry s) (ReportState.navigations s ++ ["/login"])
  else
    match getDetectionEvents MAX_DEFECT_REGISTRY_SIZE with
    | inr events =>
        let convertedEvents := convertDetectionEvent <$> events in
        ReportState.mk false (bool_decide (length convertedEvents = 0%nat)) None
          convertedEvents (ReportState.navigations s)
    | inl err =>
        let errorMessage := JsError.message err in
        if isUnauthorizedMessage errorMessage then
          ReportState.mk false (ReportState.isEmpty s) None
            (ReportState.defectRegistry s) (ReportState.navigations s ++ ["/login"])
        else
          ReportState.mk false true (Some errorMessage) [] (ReportState.navigations s)
    end.

(** * The overview page *)

(** ** What the back end sends *)

Module BackendDetection.
Record t := mk {
  defect_type : string;
  sign : string;
  source : string;
  location : string
}.
End BackendDetection.

Module BackendSubsystem.
Record t := mk {
  status : DetectionState;
  detections : list BackendDetection.t
}.
End BackendSubsystem.

Module LeakageStatus.
Record t := mk {
  control_system : BackendSubsystem.t;
  drone : BackendSubsystem.t;
  total_leakages : Z
}.
End LeakageStatus.

Module ControlSystemSummary.
Record t := mk {
  total : Z;
  critical : Z;
  warning : Z;
  normal : Z
}.
End ControlSystemSummary.

Module DroneSummary.
Record t := mk {
  total : Z;
  videos : Z;
  images : Z
}.
End DroneSummary.

Module OverviewStats.
Record t := mk {
  leakage_status : LeakageStatus.t;
  control_system : ControlSystemSummary.t;
  drone : DroneSummary.t
}.
End OverviewStats.

(** [DetectionService.getOverviewStats] *)
Definition getOverviewStats (token : option string)
    (fetch : string -> string -> list (string * string) -> FetchOutcome OverviewStats.t)
  : JsError.t + OverviewStats.t :=
  match fetch "/api/detection/overview-stats" "GET"
          (DetectionService.getAuthHeaders token) with
  | Rejects e => inl e
  | Resolves response =>
      if negb (Response.ok response) then
        inl (JsError.mk "Error"
               ("Failed to fetch overview stats: " +:+ Response.statusText response))
      else Response.json response
  end.

Module OverviewPage.

(** [convertLeakageStatus] *)
Definition convertDetection (d : BackendDetection.t) : DefectDetection.t :=
  DefectDetection.mk (BackendDetection.defect_type d) (BackendDetection.sign d)
    (BackendDetection.source d) (Some (BackendDetection.location d)).

Definition convertLeakageStatus (backendStatus : LeakageStatus.t) : LeakageDetection.t :=
  LeakageDetection.mk
    (Subsystem.mk
       (BackendSubsystem.status (LeakageStatus.control_system backendStatus))
       (convertDetection
          <$> BackendSubsystem.detections (LeakageStatus.control_system backendStatus)))
    (Subsystem.mk
       (BackendSubsystem.status (LeakageStatus.drone backendStatus))
       (convertDetection
          <$> BackendSubsystem.detections (LeakageStatus.drone backendStatus)))
    (LeakageStatus.total_leakages backendStatus).

(** The own properties of the object literal [locationMap]. *)
Definition locationMap : list (string * (Z * Z)) :=
  [ ("Section A-B", (250, 190));
    ("Section B-C", (600, 185));
    ("Section C-D", (650, 195));
    ("Branch Line", (450, 280));
    ("Station Area", (400, 200));
    ("Main Pipeline KM 12.5", (350, 195));
    ("Main Pipeline KM 18.3", (550, 188)) ].

(** What [getLeakCoordinates] can return: a record of coordinates, or the
    member of [Object.prototype] the property read reached, which is truthy
    and has no [x] and no [y]. *)
Inductive CoordinatesValue :=
  | Coordinates (x y : Z)
  | NoCoordinates (name : string).

#[global] Instance CoordinatesValue_eq_dec : EqDecision CoordinatesValue.
Proof. solve_decision. Defined.

(** [getLeakCoordinates]: [locationMap[location] || { x: 400, y: 200 }], the
    read continuing in [Object.prototype] as in [getRiskLevel]. *)
Definition getLeakCoordinates (location : string) : CoordinatesValue :=
  match ownProperty locationMap location with
  | Some (x, y) => Coordinates x y
  | None =>
      if bool_decide (location ∈ objectPrototypeMembers)
      then NoCoordinates location
      else Coordinates 400 200
  end.

(** [getLeakColor]: the [color] of what [getRiskLevel] returns. *)
Definition getLeakColor (defectType : string) : option string :=
  match getRiskLevel defectType with
  | RiskRecord r => Some (RiskInfo.color r)
  | PrototypeMember _ => None
  end.

(** The values of the map [allLeakages]. *)
Module Leak.
Record t := mk {
  defectType : string;
  location : string
}.
End Leak.

(** [allLeakages.set(key, v)]: the value of a key the map has is replaced
    where it is, a new key goes last. *)
Fixpoint leakSet (key : string) (v : Leak.t) (m : list (string * Leak.t))
  : list (string * Leak.t) :=
  match m with
  | [] => [(key, v)]
  | (k, x) :: m' =>
      if String.eqb k key then (k, v) :: m'
      else (k, x) :: leakSet key v m'
  end.

(** The callback of the two [forEach]: a location that is [undefined] or empty
    is not truthy. *)
Definition addLeak (m : list (string * Leak.t)) (detection : DefectDetection.t)
  : list (string * Leak.t) :=
  match DefectDetection.location detection with
  | Some location =>
      if String.eqb location EmptyString then m
      else leakSet location (Leak.mk (DefectDetection.defectType detection) location) m
  | None => m
  end.

(** [Array.from(allLeakages.values())] after the two loops. *)
Definition allLeakages (leakageStatus : LeakageDetection.t) : list Leak.t :=
  snd <$> fold_left addLeak
            (Subsystem.detections (LeakageDetection.drone leakageStatus))
            (fold_left addLeak
               (Subsystem.detections (LeakageDetection.controlSystem leakageStatus)) []).

(** What the page writes of its state in [fetchOverviewData], and the paths
    it has navigated to. *)
Module State.
Record t := mk {
  leakageStatus : option LeakageDetection.t;
  controlSystemStats : ControlSystemSummary.t;
  droneStats : DroneSummary.t;
  isLoading : bool;
  error : option string;
  navigations : list string
}.
End State.

(** [fetchOverviewData], given [authState.isAuthenticated] and what the
    awaited [detectionService.getOverviewStats()] settles to. *)
Definition fetchOverviewData (isAuthenticated : bool)
    (getOverviewStats : JsError.t + OverviewStats.t) (s : State.t) : State.t :=
  if negb isAuthenticated then
    State.mk (State.leakageStatus s) (State.controlSystemStats s) (State.droneStats s)
      (State.isLoading s) (State.error s) (State.navigations s ++ ["/login"])
  else
    match getOverviewStats with
    | inr stats =>
        State.mk (Some (convertLeakageStatus (OverviewStats.leakage_status stats)))
          (OverviewStats.control_system stats) (OverviewStats.drone stats)
          false None (State.navigations s)
    | inl err =>
        let errorMessage := JsError.message err in
        if isUnauthorizedMessage errorMessage then
          State.mk (State.leakageStatus s) (State.controlSystemStats s)
            (State.droneStats s) false None (State.navigations s ++ ["/login"])
        else
          State.mk
            (Some (LeakageDetection.mk (Subsystem.mk ok []) (Subsystem.mk ok []) 0))
            (State.controlSystemStats s) (State.droneStats s)
            false (Some errorMessage) (State.navigations s)
    end.

(** Which of its three screens the page renders. *)
Inductive Screen :=
  | Loading
  | ErrorLoadingData (error : string)
  | Dashboard (leakageStatus : LeakageDetection.t).

Definition render (s : State.t) : Screen :=
  match State.leakageStatus s with
  | Some leakageStatus =>
      if State.isLoading s then Loading
      else match State.error s with
           | Some error =>
               if String.eqb error EmptyString then Dashboard leakageStatus
               else ErrorLoadingData error
           | None => Dashboard leakageStatus
           end
  | None => Loading
  end.

End OverviewPage.

(** ** The leak markers *)

(** The detection is the last of [detections] at the location of the leak,
    and the leak has its defect type. *)
Definition lastAt (detections : list DefectDetection.t) (k : string) (v : OverviewPage.Leak.t)
  : Prop :=
  exists pre d post,
    detections = pre ++ d :: post
    /\ DefectDetection.location d = Some k
    /\ DefectDetection.defectType d = OverviewPage.Leak.defectType v
    /\ forall d', d' ∈ post -> DefectDetection.location d' <> Some k.

(** * The authentication service

    [services/AuthService.tsx]: the class [AuthService], with the entry
    [access_token] of [localStorage] and the state of [AuthProvider] that the
    callback writes. *)

Module AuthState.
Record t := mk {
  isAuthenticated : bool;
  user : option string   (* [string | null] *)
}.
End AuthState.

(** What [login] and [verifyToken] read of the bodies of their responses; a
    property the body does not have is [None]. *)
Module TokenData.
Record t := mk {
  access_token : option string
}.
End TokenData.

Module VerifyData.
Record t := mk {
  username : option string
}.
End VerifyData.

Module AuthService.

(** The service, its surroundings included: [authState], whether
    [authStateCallback] is set, the state of the provider that the callback
    ([setAuthState]) writes, and the entry [access_token] of [localStorage]
    ([None] when there is none). *)
Record t := mk {
  authState : AuthState.t;
  authStateCallback : bool;
  provided : AuthState.t;
  access_token : option string
}.

(** A new service in a new provider, over the storage as it is. *)
Definition create (access_token : option string) : t :=
  mk (AuthState.mk false None) false (AuthState.mk false None) access_token.

(** [updateAuthState] *)
Definition updateAuthState (newState : AuthState.t) (s : t) : t :=
  mk newState (authStateCallback s)
     (if authStateCallback s then newState else provided s)
     (access_token s).

(** [setAuthStateCallback(setAuthState)] *)
Definition setAuthStateCallback (s : t) : t :=
  mk (authState s) true (provided s) (access_token s).

(** [localStorage.setItem('access_token', v)]: the value is stored as a
    string, [undefined] as the string 'undefined'. *)
Definition setItem (v : option string) (s : t) : t :=
  mk (authState s) (authStateCallback s) (provided s) (Some (default "undefined" v)).

Definition removeItem (s : t) : t :=
  mk (authState s) (authStateCallback s) (provided s) None.

(** [login], given the behaviour of [fetch] on the request for the
    credentials: the service afterwards and the value returned. *)
Definition login (fetch : string -> string -> FetchOutcome TokenData.t)
    (username password : string) (s : t) : t * bool :=
  match fetch username password with
  | Rejects _ => (s, false)
  | Resolves response =>
      if Response.ok response then
        match Response.json response with
        | inr data =>
            (updateAuthState (AuthState.mk true (Some username))
               (setItem (TokenData.access_token data) s), true)
        | inl _ => (s, false)
        end
      else (s, false)
  end.

(** [logout] *)
Definition logout (s : t) : t :=
  updateAuthState (AuthState.mk false None) (removeItem s).

(** [verifyToken], given the behaviour of [fetch] on a request to
    [/api/auth/verify] with the given headers. *)
Definition verifyToken (fetch : list (string * string) -> FetchOutcome VerifyData.t)
    (s : t) : t * bool :=
  match access_token s with
  | None => (s, false)
  | Some token =>
      if String.eqb token EmptyString then (s, false)
      else
        match fetch [("Authorization", "Bearer " +:+ token)] with
        | Rejects _ => (s, false)
        | Resolves response =>
            if Response.ok response then
              match Response.json response with
              | inr data =>
                  (updateAuthState (AuthState.mk true (VerifyData.username data)) s, true)
              | inl _ => (s, false)
              end
            else (s, false)
        end
  end.

(** [init] *)
Definition init (fetch : list (string * string) -> FetchOutcome VerifyData.t)
    (s : t) : t :=
  fst (verifyToken fetch s).

(** [getToken] *)
Definition getToken (s : t) : option string := access_token s.

(** [getAuthState] *)
Definition getAuthState (s : t) : AuthState.t :=
  AuthState.mk (AuthState.isAuthenticated (authState s)) (AuthState.user (authState s)).

(** ** The calls of the service, as they interleave

    [login] and [verifyToken] are [async]: each runs up to its request and
    goes on when the response is there, and other calls run in between.
    [login] reads and writes nothing of the service before its response.
    [verifyToken] reads the token before its request, and after the response
    writes the state without reading the token again.  The entry of the
    storage is written by the service alone. *)

(** The token a call of [verifyToken] reads and sends; [None] when the call
    returns [false] at once. *)
Definition verifyTokenRequest (s : t) : option string :=
  match access_token s with
  | Some token => if String.eqb token EmptyString then None else Some token
  | None => None
  end.

(** What a call of [verifyToken] does when [fetch] has settled. *)
Definition verifyTokenSettle (outcome : FetchOutcome VerifyData.t) (s : t) : t * bool :=
  match outcome with
  | Rejects _ => (s, false)
  | Resolves response =>
      if Response.ok response then
        match Response.json response with
        | inr data =>
            (updateAuthState (AuthState.mk true (VerifyData.username data)) s, true)
        | inl _ => (s, false)
        end
      else (s, false)
  end.

(** The service and the calls of [verifyToken] that wait for their response:
    the token each has sent. *)
Record Session := mkSession {
  service : t;
  verifying : list string
}.

(** What happens to a service: a call of [login] has its response; [logout]
    is called; [verifyToken] is called (by [init] or otherwise); the call of
    [verifyToken] at position [i] of those waiting has its response;
    [setAuthStateCallback] is called. *)
Inductive Event :=
  | Login (fetch : string -> string -> FetchOutcome TokenData.t) (username password : string)
  | Logout
  | VerifyTokenCalled
  | VerifyTokenSettled (i : nat)
      (fetch : list (string * string) -> FetchOutcome VerifyData.t)
  | SetAuthStateCallback.

Definition step (session : Session) (e : Event) : Session :=
  match e with
  | Login fetch username password =>
      mkSession (fst (login fetch username password (service session)))
        (verifying session)
  | Logout => mkSession (logout (service session)) (verifying session)
  | VerifyTokenCalled =>
      match verifyTokenRequest (service session) with
      | Some token => mkSession (service session) (verifying session ++ [token])
      | None => session
      end
  | VerifyTokenSettled i fetch =>
      match verifying session !! i with
      | Some token =>
          mkSession
            (fst (verifyTokenSettle (fetch [("Authorization", "Bearer " +:+ token)])
                    (service session)))
            (delete i (verifying session))
      | None => session
      end
  | SetAuthStateCallback =>
      mkSession (setAuthStateCallback (service session)) (verifying session)
  end.

(** The effect of [AuthProvider] when it mounts: the callback is set and
    [init] called. *)
Definition mounted (access_token : option string) : Session :=
  step (mkSession (setAuthStateCallback (create access_token)) []) VerifyTokenCalled.

(** A provider after any events. *)
Definition provider (events : list Event) (access_token : option string) : Session :=
  fold_left step events (mounted access_token).

(** [logout] is called only when no call of [verifyToken] waits for its
    response. *)
Fixpoint logoutsWhenSettled (session : Session) (events : list Event) : Prop :=
  match events with
  | [] => True
  | e :: events =>
      match e with
      | Logout => verifying session = []
      | _ => True
      end
      /\ logoutsWhenSettled (step session e) events
  end.

End AuthService.

(** What holds of the service in a provider: who is not authenticated has no
    user; and, the callback being set, the provider has the state of the
    service. *)
Definition authConsistent (s : AuthService.t) : Prop :=
  (AuthState.isAuthenticated (AuthService.authState s) = false ->
   AuthState.user (AuthService.authState s) = None)
  /\ AuthService.authStateCallback s = true
  /\ AuthService.provided s = AuthService.authState s.

(** Who is authenticated, and who waits for a verification, has an entry in
    the storage. *)
Definition tokenKept (session : AuthService.Session) : Prop :=
  (AuthState.isAuthenticated (AuthService.authState (AuthService.service session)) = true ->
   AuthService.access_token (AuthService.service session) <> None)
  /\ (AuthService.verifying session <> [] ->
      AuthService.access_token (AuthService.service session) <> None).

(** * The login page *)

Module LoginPage.

(** The state of the page that [handleSubmit] reads and writes, and the paths
    it has navigated to. *)
Record t := mk {
  username : string;
  password : string;
  error : string;
  loading : bool;
  navigations : list string
}.

(** [handleSubmit], given [isFormValid] and the method [login] of the service
    of the context, which settles to a boolean or rejects: the page and the
    service afterwards. *)
Definition handleSubmit {Service}
    (login : string -> string -> Service -> JsError.t + (Service * bool))
    (isFormValid : bool) (page : t) (service : Service) : t * Service :=
  if negb isFormValid then (page, service)
  else
    match login (username page) (password page) service with
    | inr (service', true) =>
        (mk (username page) (password page) EmptyString false
            (navigations page ++ ["/overview"]), service')
    | inr (service', false) =>
        (mk (username page) (password page) "Invalid credentials" false
            (navigations page), service')
    | inl _ =>
        (mk (username page) (password page) "Login failed" false (navigations page),
         service)
    end.

End LoginPage.

(** [login] of [AuthService] as a method: it catches what its body throws,
    and settles. *)
Definition authServiceLogin (fetch : string -> string -> FetchOutcome TokenData.t)
    (username password : string) (s : AuthService.t)
  : JsError.t + (AuthService.t * bool) :=
  inr (AuthService.login fetch username password s).
(** * Properties *)

(** ** Evaluation on concrete inputs *)

Example isoDate_2024_11_15 : isoDate 2024 11 15 = 1731628800000.
Proof. reflexivity. Qed.

Example isoDate_epoch : isoDate 1970 1 1 = 0.
Proof. reflexivity. Qed.

Example isoDay_of_instant : isoDay (isoDate 2024 11 15 + 3600000) = isoDate 2024 11 15.
Proof. reflexivity. Qed.

Example generateDefectId_first :
  generateDefectId initialDefectIdCounter = ("DEF-101", 101%N).
Proof. reflexivity. Qed.

Example generateDefectId_pads : fst (generateDefectId 6%N) = "DEF-007".
Proof. reflexivity. Qed.

Example generateDefectId_four_digits : fst (generateDefectId 999%N) = "DEF-1000".
Proof. reflexivity. Qed.

(** ** Risk classifier *)

Lemma getRiskLevel_known :
  getRiskLevel "Major/Sudden Leak" = RiskRecord
    (RiskInfo.mk critical "Critical" "游댮" "#ff4757"
       "Immediate shutdown & emergency response")
  /\ riskInfo_level (getRiskLevel "Mechanical Damage") = Some critical
  /\ riskInfo_level (getRiskLevel "Minor/Gradual Leak") = Some warning
  /\ riskInfo_level (getRiskLevel "Poor Pipe Support") = Some warning
  /\ riskInfo_level (getRiskLevel "Corrosion & Erosion") = Some low
  /\ riskInfo_level (getRiskLevel "Insulation/Coating Failure") = Some low.
Proof. repeat split; reflexivity. Qed.

Lemma ownProperty_None {A} (m : list (string * A)) key :
  key ∉ map fst m -> ownProperty m key = None.
Proof.
  induction m as [|[k v] m IH]; simpl; [done|].
  intros Hnot. apply not_elem_of_cons in Hnot as [Hne Hnot].
  destruct (String.eqb_spec k key); [congruence | auto].
Qed.

(** A string that is neither a known defect type nor the name of a member of
    [Object.prototype] gets the fallback. *)
Lemma getRiskLevel_fallback defectType :
  defectType ∉ knownDefectTypes ->
  defectType ∉ objectPrototypeMembers ->
  getRiskLevel defectType = RiskRecord unknownRisk.
Proof.
  intros Hknown Hproto. unfold getRiskLevel, riskMap_get.
  rewrite (ownProperty_None riskMap defectType Hknown).
  by rewrite bool_decide_eq_false_2.
Qed.

(** C7, at the input 'constructor': the string is none of the six defect
    types, yet [getRiskLevel] does not return the fallback record for it.  The
    property read [riskMap['constructor']] finds [Object.prototype.constructor],
    which is truthy, so the right operand of [||] is not taken; the value
    returned has no [level] and no [label]. *)
Theorem getRiskLevel_constructor_not_fallback :
  ("constructor" ∉ knownDefectTypes)
  /\ getRiskLevel "constructor" = PrototypeMember "constructor"
  /\ getRiskLevel "constructor" <> RiskRecord unknownRisk
  /\ riskInfo_level (getRiskLevel "constructor") = None
  /\ riskInfo_label (getRiskLevel "constructor") = None.
Proof.
  split; [|repeat split; done].
  unfold knownDefectTypes; simpl. rewrite !not_elem_of_cons.
  repeat split; try done. apply not_elem_of_nil.
Qed.

(** ** Detection service *)

(** For a response that is not ok, what [getLeakageStatus] throws depends on
    the status text alone: the status code is not part of it. *)
Lemma getLeakageStatus_error_by_statusText {Body} token (r1 r2 : Response.t Body) :
  Response.ok r1 = false -> Response.ok r2 = false ->
  Response.statusText r1 = Response.statusText r2 ->
  DetectionService.getLeakageStatus token (fun _ _ _ => Resolves r1)
  = DetectionService.getLeakageStatus token (fun _ _ _ => Resolves r2).
Proof.
  intros H1 H2 Htext. unfold DetectionService.getLeakageStatus.
  by rewrite H1, H2, Htext.
Qed.

(** C10, at an unauthorized response without status text (as every HTTP/2
    response has): [getLeakageStatus] throws for status 401 the very error it
    throws for status 500, and the test the pages apply to the message to
    recognise an unauthorized failure does not recognise it. *)
Theorem getLeakageStatus_unauthorized_not_distinguished :
  let unauthorized : Response.t unit := Response.mk 401 EmptyString (inr tt) in
  let serverError : Response.t unit := Response.mk 500 EmptyString (inr tt) in
  DetectionService.getLeakageStatus None (fun _ _ _ => Resolves unauthorized)
    = DetectionService.getLeakageStatus None (fun _ _ _ => Resolves serverError)
  /\ DetectionService.getLeakageStatus None (fun _ _ _ => Resolves unauthorized)
    = inl (JsError.mk "Error" "Failed to fetch leakage status: ")
  /\ isUnauthorizedMessage "Failed to fetch leakage status: " = false.
Proof. repeat split. Qed.

(** With the status text of HTTP/1.1 the message does carry the word the pages
    look for. *)
Example getLeakageStatus_unauthorized_http1 :
  DetectionService.getLeakageStatus (Body := unit) None
    (fun _ _ _ => Resolves (Response.mk 401 "Unauthorized" (inr tt)))
  = inl (JsError.mk "Error" "Failed to fetch leakage status: Unauthorized")
  /\ isUnauthorizedMessage "Failed to fetch leakage status: Unauthorized" = true.
Proof. split; reflexivity. Qed.

(** ** Identifier allocation *)

Lemma uint_of_string_zeros k s :
  NilEmpty.uint_of_string (prependChars k "0"%char s)
  = Nat.iter k Decimal.D0 <$> NilEmpty.uint_of_string s.
Proof.
  induction k as [|k IH]; simpl.
  - by destruct (NilEmpty.uint_of_string s).
  - rewrite IH. by destruct (NilEmpty.uint_of_string s).
Qed.

Lemma DEF_prefix s :
  "DEF-" +:+ s = String "D" (String "E" (String "F" (String "-" s))).
Proof. reflexivity. Qed.

Lemma N_of_uint_zeros k u : N.of_uint (Nat.iter k Decimal.D0 u) = N.of_uint u.
Proof. induction k as [|k IH]; [done|]. simpl. exact IH. Qed.

Lemma idNumber_generateDefectId c :
  idNumber (fst (generateDefectId c)) = Some (N.succ c).
Proof.
  unfold generateDefectId, padStart, stringOfNumber, fst.
  rewrite DEF_prefix. unfold idNumber.
  rewrite uint_of_string_zeros, NilEmpty.usu. simpl.
  by rewrite N_of_uint_zeros, DecimalN.Unsigned.of_to.
Qed.

Lemma generateDefectIds_counter n c :
  snd (generateDefectIds n c) = (c + N.of_nat n)%N.
Proof.
  revert c. induction n as [|n IH]; intros c.
  - simpl. lia.
  - cbn [generateDefectIds]. unfold generateDefectId at 1.
    specialize (IH (N.succ c)). destruct (generateDefectIds n (N.succ c)).
    simpl in *. lia.
Qed.

Lemma generateDefectIds_lookup n c k id :
  fst (generateDefectIds n c) !! k = Some id ->
  (k < n)%nat /\ id = fst (generateDefectId (c + N.of_nat k)).
Proof.
  revert c k id. induction n as [|n IH]; intros c k id; [done|].
  cbn [generateDefectIds]. unfold generateDefectId at 1.
  specialize (IH (N.succ c)). destruct (generateDefectIds n (N.succ c)) as [ids c'].
  destruct k as [|k]; simpl.
  - intros [= <-]. split; [apply Nat.lt_0_succ|]. by rewrite N.add_0_r.
  - intros Hk. apply IH in Hk as [Hlt ->]. split; [by apply Nat.succ_lt_mono in Hlt|].
    replace (c + N.of_nat (S k))%N with (N.succ c + N.of_nat k)%N by lia. done.
Qed.

Lemma generateDefectIds_length n c : length (fst (generateDefectIds n c)) = n.
Proof.
  revert c. induction n as [|n IH]; intros c; [done|].
  cbn [generateDefectIds]. unfold generateDefectId at 1.
  specialize (IH (N.succ c)). destruct (generateDefectIds n (N.succ c)).
  simpl in *. by rewrite IH.
Qed.

Lemma static_ids_numbers :
  Forall (fun id => exists x, idNumber id = Some x /\ (x <= 12)%N)
    (map DefectRegistryItem.id getStaticDefectRegistry).
Proof. repeat constructor; eexists; (split; [reflexivity | done]). Qed.

Lemma processDetections_counter random currentDate currentTimestamp w detections :
  (Working.defectIdCounter w
   <= Working.defectIdCounter
        (processDetections random currentDate currentTimestamp w detections))%N.
Proof.
  unfold processDetections.
  destruct (Grouped.controlSystem detections), (Grouped.drone detections); try done.
  destruct (list_find _ _) as [[i existing]|]; simpl; lia.
Qed.

Lemma reconciled_counter random now now' currentRegistry leakageStatus c drawn :
  (c <= Working.defectIdCounter
          (reconciled random now now' currentRegistry leakageStatus c drawn))%N.
Proof.
  unfold reconciled.
  change c with (Working.defectIdCounter (Working.mk currentRegistry c drawn)) at 1.
  generalize (Working.mk currentRegistry c drawn).
  induction (groupDetections leakageStatus) as [|kv m IH]; intros w; simpl; [lia|].
  etrans; [|apply IH]. apply processDetections_counter.
Qed.

(** C8: the identifiers [n] successive calls of [generateDefectId] return in a
    session (the counter starting at 100).  The [k]-th identifier, counting
    from 0, is [DEF-] followed by the decimal rendering of the counter's value
    [101 + k] padded with zeros to three digits; its number is [101 + k], so
    the numbers increase strictly; no identifier is returned twice and none is
    an identifier of the static registry ([DEF-001] to [DEF-012]).  A
    reconciliation never lowers the counter, whatever it truncates. *)
Theorem generateDefectId_allocation (n : nat) :
  let ids := fst (generateDefectIds n initialDefectIdCounter) in
  length ids = n
  /\ (forall k id, ids !! k = Some id ->
        id = "DEF-" +:+ padStart 3 "0"%char (stringOfNumber (101 + N.of_nat k))
        /\ idNumber id = Some (101 + N.of_nat k)%N)
  /\ (forall j k a b, (j < k)%nat -> ids !! j = Some a -> ids !! k = Some b ->
        exists x y, idNumber a = Some x /\ idNumber b = Some y /\ (x < y)%N)
  /\ NoDup ids
  /\ (forall id, id ∈ ids -> id ∉ map DefectRegistryItem.id getStaticDefectRegistry)
  /\ (forall random now now' currentRegistry leakageStatus c drawn,
        (c <= Working.defectIdCounter
                (updateDefectRegistryWithDetections random now now'
                   currentRegistry leakageStatus c drawn))%N).
Proof.
  intros ids.
  assert (Hnum : forall k id, ids !! k = Some id ->
            id = "DEF-" +:+ padStart 3 "0"%char (stringOfNumber (101 + N.of_nat k))
            /\ idNumber id = Some (101 + N.of_nat k)%N).
  { intros k id Hk. apply generateDefectIds_lookup in Hk as [_ ->].
    rewrite idNumber_generateDefectId. unfold initialDefectIdCounter.
    replace (101 + N.of_nat k)%N with (N.succ (100 + N.of_nat k)) by lia.
    done. }
  split; [apply generateDefectIds_length|].
  split; [exact Hnum|].
  split; [|split; [|split]].
  - intros j k a b Hjk Ha Hb.
    apply Hnum in Ha as [_ Ha]. apply Hnum in Hb as [_ Hb].
    eexists _, _. repeat split; [done..|lia].
  - apply NoDup_alt. intros j k a Ha Hb.
    apply Hnum in Ha as [_ Ha]. apply Hnum in Hb as [_ Hb].
    rewrite Ha in Hb. injection Hb. lia.
  - intros id Hin Hstatic.
    apply list_elem_of_lookup in Hin as [k Hk]. apply Hnum in Hk as [_ Hk].
    pose proof static_ids_numbers as Hall.
    rewrite Forall_forall in Hall. apply Hall in Hstatic as (x & Hx & Hle).
    rewrite Hk in Hx. injection Hx. lia.
  - intros. simpl. apply reconciled_counter.
Qed.

(** ** Synthetic snapshot generator *)

Lemma floorTimes_lt r n :
  (0 <= r)%Q -> (r < 1)%Q -> (0 < n)%nat -> (floorTimes r n < n)%nat.
Proof.
  intros H0 H1 Hn. unfold floorTimes.
  set (x := (r * inject_Z (Z.of_nat n))%Q).
  assert (Hx0 : (0 <= x)%Q).
  { unfold x. apply Qmult_le_0_compat; [done|].
    change 0%Q with (inject_Z 0). rewrite <- Zle_Qle. lia. }
  assert (Hx1 : (x < inject_Z (Z.of_nat n))%Q).
  { unfold x. rewrite <- (Qmult_1_l (inject_Z (Z.of_nat n))) at 2.
    apply Qmult_lt_compat_r; [|done].
    change 0%Q with (inject_Z 0). rewrite <- Zlt_Qlt. lia. }
  assert (0 <= Qfloor x).
  { change 0 with (Qfloor (inject_Z 0)). by apply Qfloor_resp_le. }
  assert (Qfloor x < Z.of_nat n).
  { rewrite Zlt_Qlt. eapply Qle_lt_trans; [apply Qfloor_le | done]. }
  lia.
Qed.

(** A scenario the generator may select has signatures of both subsystems and
    is not the one for mechanical damage. *)
Lemma defectsWithBothSystems_spec sc :
  sc ∈ defectsWithBothSystems ->
  sc ∈ defectScenarios
  /\ Scenario.controlSystem sc <> []
  /\ Scenario.drone sc <> []
  /\ Scenario.type sc <> "Mechanical Damage".
Proof.
  intros Hin. assert (Hall : Forall (fun sc =>
      sc ∈ defectScenarios /\ Scenario.controlSystem sc <> []
      /\ Scenario.drone sc <> [] /\ Scenario.type sc <> "Mechanical Damage")
    defectsWithBothSystems).
  { repeat constructor; try done; unfold defectScenarios;
      rewrite !elem_of_cons; tauto. }
  rewrite Forall_forall in Hall. by apply Hall.
Qed.

Lemma generateLeakage_spec random pos :
  unitInterval random ->
  exists c d, generateLeakage random pos = Some (c, d)
    /\ agreeingPair c d /\ fromBothSystemsScenario c /\ fromBothSystemsScenario d.
Proof.
  intros Hunit. unfold generateLeakage.
  destruct (lookup_lt_is_Some_2 defectsWithBothSystems
              (floorTimes (random pos) (length defectsWithBothSystems))) as [sc Hsc].
  { apply floorTimes_lt; [apply Hunit..|]. vm_compute. lia. }
  rewrite Hsc. simpl.
  assert (Hin : sc ∈ defectsWithBothSystems) by (eapply list_elem_of_lookup_2; done).
  apply defectsWithBothSystems_spec in Hin as (Hin & Hcs & Hdr & Hmd).
  destruct (lookup_lt_is_Some_2 (Scenario.controlSystem sc)
              (floorTimes (random (pos + 2)%nat) (length (Scenario.controlSystem sc))))
    as [cs Hcsl].
  { apply floorTimes_lt; [apply Hunit..|].
    destruct (Scenario.controlSystem sc); [done | simpl; lia]. }
  destruct (lookup_lt_is_Some_2 (Scenario.drone sc)
              (floorTimes (random (pos + 3)%nat) (length (Scenario.drone sc))))
    as [dr Hdrl].
  { apply floorTimes_lt; [apply Hunit..|].
    destruct (Scenario.drone sc); [done | simpl; lia]. }
  rewrite Hcsl, Hdrl. simpl.
  eexists _, _. split; [reflexivity|].
  repeat split; exists sc; simpl; done.
Qed.

Lemma generateLeakages_spec random n pos cs0 ds0 :
  unitInterval random ->
  exists cs ds pos', generateLeakages random n pos cs0 ds0 = Some (cs0 ++ cs, ds0 ++ ds, pos')
    /\ length cs = n /\ length ds = n
    /\ Forall2 agreeingPair cs ds
    /\ Forall fromBothSystemsScenario cs /\ Forall fromBothSystemsScenario ds.
Proof.
  intros Hunit. revert pos cs0 ds0.
  induction n as [|n IH]; intros pos cs0 ds0; simpl.
  - exists [], [], pos. rewrite !app_nil_r. repeat split; constructor.
  - destruct (generateLeakage_spec random pos Hunit) as (c & d & -> & Hcd & Hc & Hd).
    simpl.
    destruct (IH (pos + 4)%nat (cs0 ++ [c]) (ds0 ++ [d]))
      as (cs & ds & pos' & -> & Hlc & Hld & Hagree & Hcs & Hds).
    exists (c :: cs), (d :: ds), pos'. rewrite <- !app_assoc. simpl.
    repeat split; try lia; by constructor.
Qed.

(** C9: whatever [Math.random()] draws, [generateLeakageStatus] returns a
    snapshot (no array read fails) in which the control system and the drone
    have the same number of detections, at most three, at least one when the
    first draw is above 0.2 and none otherwise; the detections at the same
    position have the
    same defect type and the same location; every defect type that appears is
    that of a scenario with control system and drone signatures, so
    'Mechanical Damage' never appears; each subsystem's status is 'detected'
    exactly when its detections are not empty. *)
Theorem generateLeakageStatus_contract (random : Random) (pos : nat) :
  unitInterval random ->
  exists snapshot pos',
    generateLeakageStatus random pos = Some (snapshot, pos')
    /\ let controlSystem := LeakageDetection.controlSystem snapshot in
       let drone := LeakageDetection.drone snapshot in
       let cs := Subsystem.detections controlSystem in
       let ds := Subsystem.detections drone in
       length cs = length ds
       /\ (length cs <= 3)%nat
       /\ (Qle_bool (random pos) double_0_2 = false -> (1 <= length cs)%nat)
       /\ (Qle_bool (random pos) double_0_2 = true -> cs = [] /\ ds = [])
       /\ LeakageDetection.totalLeakages snapshot = Z.of_nat (length cs)
       /\ Forall2 agreeingPair cs ds
       /\ Forall fromBothSystemsScenario cs
       /\ Forall fromBothSystemsScenario ds
       /\ (Subsystem.status controlSystem = detected <-> cs <> [])
       /\ (Subsystem.status drone = detected <-> ds <> []).
Proof.
  intros Hunit. unfold generateLeakageStatus.
  destruct (Qle_bool (random pos) double_0_2) eqn:Hdraw; simpl.
  - eexists _, _. split; [reflexivity|]. simpl.
    repeat split; try done; try constructor; lia.
  - set (numLeakages := (floorTimes (random (S pos)) 3 + 1)%nat).
    assert (Hnum : (1 <= numLeakages <= 3)%nat).
    { pose proof (floorTimes_lt (random (S pos)) 3) as Hlt.
      destruct (Hunit (S pos)) as [H0 H1]. specialize (Hlt H0 H1).
      unfold numLeakages. lia. }
    destruct (generateLeakages_spec random numLeakages (S (S pos)) [] [] Hunit)
      as (cs & ds & pos' & -> & Hlc & Hld & Hagree & Hcs & Hds).
    simpl. eexists _, _. split; [reflexivity|]. simpl.
    assert (Hstatus : forall l : list DefectDetection.t,
               (1 <= length l)%nat -> statusOf l = detected <-> l <> []).
    { intros l Hl. unfold statusOf. rewrite bool_decide_eq_true_2 by lia.
      split; [|done]. intros _ ->. simpl in Hl. lia. }
    repeat split; try done; try lia.
    + by apply Hstatus; lia.
    + by apply Hstatus; lia.
    + by apply Hstatus; lia.
    + by apply Hstatus; lia.
Qed.

Lemma alwaysHalf_unitInterval : unitInterval alwaysHalf.
Proof. intros k. split; done. Qed.

Lemma generateLeakageStatus_contract_witness :
  unitInterval alwaysHalf
  /\ exists snapshot pos',
      generateLeakageStatus alwaysHalf 0 = Some (snapshot, pos')
      /\ let controlSystem := LeakageDetection.controlSystem snapshot in
         let drone := LeakageDetection.drone snapshot in
         let cs := Subsystem.detections controlSystem in
         let ds := Subsystem.detections drone in
         length cs = length ds
         /\ (length cs <= 3)%nat
         /\ (Qle_bool (alwaysHalf 0%nat) double_0_2 = false -> (1 <= length cs)%nat)
         /\ (Qle_bool (alwaysHalf 0%nat) double_0_2 = true -> cs = [] /\ ds = [])
         /\ LeakageDetection.totalLeakages snapshot = Z.of_nat (length cs)
         /\ Forall2 agreeingPair cs ds
         /\ Forall fromBothSystemsScenario cs
         /\ Forall fromBothSystemsScenario ds
         /\ (Subsystem.status controlSystem = detected <-> cs <> [])
         /\ (Subsystem.status drone = detected <-> ds <> []).
Proof.
  split; [exact alwaysHalf_unitInterval|].
  apply (generateLeakageStatus_contract alwaysHalf 0). exact alwaysHalf_unitInterval.
Defined.

(** ** Sorting *)

Section sorting.
Context {A : Type} (compareFn : A -> A -> Z).

Lemma insertSorted_Permutation a l : insertSorted compareFn a l ≡ₚ a :: l.
Proof.
  induction l as [|b l IH]; simpl; [done|].
  destruct (compareFn a b <=? 0); [done|].
  rewrite IH. apply Permutation_swap.
Qed.

Lemma sort_Permutation l : sort compareFn l ≡ₚ l.
Proof.
  induction l as [|a l IH]; simpl; [done|].
  by rewrite insertSorted_Permutation, IH.
Qed.

Lemma length_sort l : length (sort compareFn l) = length l.
Proof. by rewrite sort_Permutation. Qed.

Lemma elem_of_sort x l : x ∈ sort compareFn l <-> x ∈ l.
Proof. by rewrite sort_Permutation. Qed.

(** The comparator is consistent: it orders any two elements one way or the
    other, transitively. *)
Hypothesis compareFn_total : forall a b, 0 < compareFn a b -> compareFn b a <= 0.
Hypothesis compareFn_trans :
  forall a b c, compareFn a b <= 0 -> compareFn b c <= 0 -> compareFn a c <= 0.

Lemma insertSorted_StronglySorted a l :
  StronglySorted (fun a b => compareFn a b <= 0) l ->
  StronglySorted (fun a b => compareFn a b <= 0) (insertSorted compareFn a l).
Proof.
  induction l as [|b l IH]; simpl; intros Hl.
  - repeat constructor.
  - apply StronglySorted_inv in Hl as [Hl Hb].
    destruct (Z.leb_spec (compareFn a b) 0) as [Hab|Hab].
    + constructor; [by constructor|].
      constructor; [done|].
      eapply Forall_impl; [exact Hb|]. intros c Hbc. by eapply compareFn_trans.
    + constructor; [by apply IH|].
      rewrite insertSorted_Permutation. constructor; [|done].
      by apply compareFn_total.
Qed.

Lemma sort_StronglySorted l :
  StronglySorted (fun a b => compareFn a b <= 0) (sort compareFn l).
Proof.
  induction l as [|a l IH]; simpl; [constructor|].
  by apply insertSorted_StronglySorted.
Qed.
End sorting.

Lemma StronglySorted_take {A} (R : relation A) n l :
  StronglySorted R l -> StronglySorted R (take n l).
Proof.
  intros Hl. rewrite <- (take_drop n l) in Hl.
  by apply StronglySorted_app_1_l in Hl.
Qed.

Lemma compareDefects_total a b : 0 < compareDefects a b -> compareDefects b a <= 0.
Proof.
  unfold compareDefects.
  destruct (DefectRegistryItem.lastDetected a), (DefectRegistryItem.lastDetected b); lia.
Qed.

Lemma compareDefects_trans a b c :
  compareDefects a b <= 0 -> compareDefects b c <= 0 -> compareDefects a c <= 0.
Proof.
  unfold compareDefects.
  destruct (DefectRegistryItem.lastDetected a), (DefectRegistryItem.lastDetected b),
    (DefectRegistryItem.lastDetected c); lia.
Qed.

Lemma compareDefects_inRegistryOrder a b :
  compareDefects a b <= 0 -> inRegistryOrder a b.
Proof.
  unfold compareDefects, inRegistryOrder.
  destruct (DefectRegistryItem.lastDetected a), (DefectRegistryItem.lastDetected b); lia.
Qed.

(** What the last lines of [updateDefectRegistryWithDetections] return. *)
Lemma updateDefectRegistryWithDetections_take random now now' registry leakageStatus c drawn :
  Working.updatedRegistry
    (updateDefectRegistryWithDetections random now now' registry leakageStatus c drawn)
  = take MAX_DEFECT_REGISTRY_SIZE
      (sort compareDefects
         (Working.updatedRegistry
            (reconciled random now now' registry leakageStatus c drawn))).
Proof.
  unfold updateDefectRegistryWithDetections. simpl.
  case_bool_decide as Hlen; [done|].
  symmetry. apply take_ge. lia.
Qed.

(** ** Bounded size *)

Lemma length_getInitialDefectRegistry : length getInitialDefectRegistry = 12%nat.
Proof. reflexivity. Qed.

(** C3: the array [updateDefectRegistryWithDetections] returns has at most 15
    entries, whatever the registry and the snapshot; [getInitialDefectRegistry]
    returns at most 15 entries; after any sequence of reconciliations from the
    initial registry the registry has at most 15 entries. *)
Theorem registry_size_bounded :
  (forall random now now' registry leakageStatus c drawn,
      (length (Working.updatedRegistry
                 (updateDefectRegistryWithDetections random now now' registry
                    leakageStatus c drawn))
       <= MAX_DEFECT_REGISTRY_SIZE)%nat)
  /\ (length getInitialDefectRegistry <= MAX_DEFECT_REGISTRY_SIZE)%nat
  /\ (forall random refreshes drawn,
        (length (Working.updatedRegistry
                   (reconcileAll random refreshes
                      (Working.mk getInitialDefectRegistry initialDefectIdCounter drawn)))
         <= MAX_DEFECT_REGISTRY_SIZE)%nat)
  /\ MAX_DEFECT_REGISTRY_SIZE = 15%nat.
Proof.
  assert (Hone : forall random now now' registry leakageStatus c drawn,
      (length (Working.updatedRegistry
                 (updateDefectRegistryWithDetections random now now' registry
                    leakageStatus c drawn))
       <= MAX_DEFECT_REGISTRY_SIZE)%nat).
  { intros. rewrite updateDefectRegistryWithDetections_take, length_take. lia. }
  split; [exact Hone|]. split; [vm_compute; lia|].
  split; [|done].
  intros random refreshes drawn. unfold reconcileAll.
  assert (Hinit : (length (Working.updatedRegistry
             (Working.mk getInitialDefectRegistry initialDefectIdCounter drawn))
           <= MAX_DEFECT_REGISTRY_SIZE)%nat).
  { vm_compute. lia. }
  revert Hinit. generalize (Working.mk getInitialDefectRegistry initialDefectIdCounter drawn).
  induction refreshes as [|r refreshes IH]; intros w Hw; simpl; [done|].
  apply IH, Hone.
Qed.

(** ** Ordering *)

Lemma sort_compareDefects_ordered l :
  StronglySorted inRegistryOrder (sort compareDefects l).
Proof.
  eapply (Sorted.StronglySorted_ind (R := fun a b => compareDefects a b <= 0)
            (fun l => StronglySorted inRegistryOrder l)).
  - constructor.
  - intros a l' _ IH Ha. constructor; [done|].
    eapply Forall_impl; [exact Ha|]. intros; by apply compareDefects_inRegistryOrder.
  - apply sort_StronglySorted;
      [exact compareDefects_total | exact compareDefects_trans].
Qed.

Lemma StronglySorted_lookup {A} (R : relation A) l i j a b :
  StronglySorted R l -> (i < j)%nat -> l !! i = Some a -> l !! j = Some b -> R a b.
Proof.
  intros Hs. revert i j.
  induction Hs as [|x l Hs IH Hx]; intros i j Hij Ha Hb; [done|].
  destruct j as [|j]; [lia|]. destruct i as [|i]; simpl in *.
  - injection Ha as ->. rewrite Forall_forall in Hx. apply Hx.
    by eapply list_elem_of_lookup_2.
  - eapply IH; [|done..]. lia.
Qed.

(** C4: in the array [updateDefectRegistryWithDetections] returns, every entry
    is in registry order with every entry after it: no entry without
    [lastDetected] precedes one with it; entries that both have [lastDetected]
    are in non-increasing order of it; entries that both lack it are in
    non-increasing order of [detectedDate]. *)
Theorem registry_ordered random now now' registry leakageStatus c drawn :
  StronglySorted inRegistryOrder
    (Working.updatedRegistry
       (updateDefectRegistryWithDetections random now now' registry leakageStatus c drawn)).
Proof.
  rewrite updateDefectRegistryWithDetections_take.
  apply StronglySorted_take, sort_compareDefects_ordered.
Qed.

(** The same, read position by position. *)
Corollary registry_ordered_lookup random now now' registry leakageStatus c drawn i j a b :
  let returned := Working.updatedRegistry
    (updateDefectRegistryWithDetections random now now' registry leakageStatus c drawn) in
  (i < j)%nat -> returned !! i = Some a -> returned !! j = Some b ->
  inRegistryOrder a b.
Proof.
  intros returned Hij Ha Hb.
  eapply (StronglySorted_lookup inRegistryOrder returned); [|done..].
  unfold returned. rewrite updateDefectRegistryWithDetections_take.
  apply StronglySorted_take, sort_compareDefects_ordered.
Qed.

(** ** The map of grouped detections *)

Lemma map_has_get key m : map_has key m = bool_decide (is_Some (map_get key m)).
Proof.
  induction m as [|[k v] m IH]; simpl; [done|].
  by destruct (String.eqb k key).
Qed.

Lemma map_get_elem_of key m g : map_get key m = Some g -> (key, g) ∈ m.
Proof.
  induction m as [|[k v] m IH]; simpl; [done|].
  destruct (String.eqb_spec k key) as [->|Hne].
  - intros [= ->]. apply elem_of_cons; by left.
  - intros Hg. apply elem_of_cons; right; auto.
Qed.

Lemma map_get_app key m m' :
  map_get key (m ++ m') = match map_get key m with
                          | Some g => Some g
                          | None => map_get key m'
                          end.
Proof.
  induction m as [|[k v] m IH]; simpl; [done|].
  by destruct (String.eqb k key).
Qed.

Lemma map_get_assign f key key' m :
  map_get key' (map_assign f key m)
  = if String.eqb key key' then f <$> map_get key' m else map_get key' m.
Proof.
  induction m as [|[k v] m IH]; simpl.
  - by destruct (String.eqb key key').
  - destruct (String.eqb_spec k key) as [->|Hne]; simpl.
    + by destruct (String.eqb key key').
    + destruct (String.eqb_spec k key') as [->|Hne'].
      * by rewrite (proj2 (String.eqb_neq key key')) by congruence.
      * exact IH.
Qed.

Lemma elem_of_map_assign f key m k g :
  (k, g) ∈ map_assign f key m ->
  (k, g) ∈ m \/ (k = key /\ exists g0, (k, g0) ∈ m /\ g = f g0).
Proof.
  induction m as [|[k0 v] m IH]; simpl; [by left|].
  destruct (String.eqb_spec k0 key) as [->|Hne].
  - intros [Heq|Hin]%elem_of_cons.
    + injection Heq as -> ->. right. split; [done|]. exists v. split; [|done].
      apply elem_of_cons; by left.
    + left. apply elem_of_cons; by right.
  - intros [Heq|Hin]%elem_of_cons.
    + left. apply elem_of_cons; by left.
    + destruct (IH Hin) as [?|(-> & g0 & ? & ->)].
      * left. apply elem_of_cons; by right.
      * right. split; [done|]. exists g0. split; [|done]. apply elem_of_cons; by right.
Qed.

Lemma fold_left_invariant {A B} (P : A -> Prop) (f : A -> B -> A) l a :
  P a -> (forall a b, b ∈ l -> P a -> P (f a b)) -> P (fold_left f l a).
Proof.
  revert a. induction l as [|b l IH]; intros a Ha Hf; simpl; [done|].
  apply IH.
  - apply Hf; [apply elem_of_cons; by left | done].
  - intros a' b' Hb'. apply Hf. apply elem_of_cons; by right.
Qed.

Lemma fold_left_establish {A B} (P : A -> Prop) (f : A -> B -> A) l a b0 :
  b0 ∈ l -> (forall a, P (f a b0)) -> (forall a b, P a -> P (f a b)) ->
  P (fold_left f l a).
Proof.
  intros Hin Hest Hpres. revert a.
  induction l as [|b l IH]; intros a; simpl; [by apply elem_of_nil in Hin|].
  apply elem_of_cons in Hin as [->|Hin].
  - apply fold_left_invariant; [apply Hest | intros; by apply Hpres].
  - by apply IH.
Qed.

Lemma groupedFrom_ensure cs ds key m :
  groupedFrom cs ds m ->
  groupedFrom cs ds
    (if negb (map_has key m) then map_set_new key (Grouped.mk None None) m else m).
Proof.
  intros Hm. destruct (negb (map_has key m)); [|done].
  intros k g [Hin|Hin]%elem_of_app; [by apply Hm|].
  apply list_elem_of_singleton in Hin. injection Hin as -> ->. by split.
Qed.

Lemma addControlSystemDetection_groupedFrom cs ds m c :
  c ∈ cs -> groupedFrom cs ds m -> groupedFrom cs ds (addControlSystemDetection m c).
Proof.
  intros Hc Hm%(groupedFrom_ensure _ _ (detectionKey c)) k g Hin.
  apply elem_of_map_assign in Hin as [Hin|(-> & g0 & Hin & ->)]; [by apply Hm|].
  simpl. split.
  - by intros c' [= <-].
  - apply (Hm _ _ Hin).
Qed.

Lemma addDroneDetection_groupedFrom cs ds m d :
  d ∈ ds -> groupedFrom cs ds m -> groupedFrom cs ds (addDroneDetection m d).
Proof.
  intros Hd Hm%(groupedFrom_ensure _ _ (detectionKey d)) k g Hin.
  apply elem_of_map_assign in Hin as [Hin|(-> & g0 & Hin & ->)]; [by apply Hm|].
  simpl. split.
  - apply (Hm _ _ Hin).
  - by intros d' [= <-].
Qed.

Lemma groupDetections_groupedFrom leakageStatus :
  groupedFrom (controlSystemDetections leakageStatus) (droneDetections leakageStatus)
    (groupDetections leakageStatus).
Proof.
  unfold groupDetections.
  apply fold_left_invariant.
  - apply fold_left_invariant.
    + intros k g Hin. by apply elem_of_nil in Hin.
    + intros m c Hc Hm. by apply addControlSystemDetection_groupedFrom.
  - intros m d Hd Hm. by apply addDroneDetection_groupedFrom.
Qed.

(** A processed pair is the pair of a control system detection, and its key is
    the key of a detection of each subsystem. *)
Lemma agreed_sound leakageStatus p :
  agreed leakageStatus p ->
  p ∈ pairOfDetection <$> controlSystemDetections leakageStatus
  /\ pairKey p ∈ detectionKey <$> controlSystemDetections leakageStatus
  /\ pairKey p ∈ detectionKey <$> droneDetections leakageStatus.
Proof.
  intros (key & c & d & Hin & <-).
  change (pairKey (pairOfDetection c)) with (detectionKey c).
  destruct (groupDetections_groupedFrom leakageStatus _ _ Hin) as [Hc Hd].
  destruct (Hc c eq_refl) as [Hcin Hck]. destruct (Hd d eq_refl) as [Hdin Hdk].
  split; [by apply list_elem_of_fmap_2|].
  split.
  - by apply list_elem_of_fmap_2.
  - rewrite Hck, <- Hdk. by apply list_elem_of_fmap_2.
Qed.

Lemma map_get_ensure key k m :
  map_get k (if negb (map_has key m) then map_set_new key (Grouped.mk None None) m else m)
  = match map_get k m with
    | Some g => Some g
    | None => if String.eqb key k then Some (Grouped.mk None None) else None
    end.
Proof.
  rewrite map_has_get. case_bool_decide as Hsome; simpl.
  - destruct (map_get k m) eqn:Hk; [done|].
    destruct (String.eqb_spec key k) as [->|Hne]; [|done].
    rewrite Hk in Hsome. by destruct Hsome.
  - unfold map_set_new. rewrite map_get_app. simpl.
    by destruct (map_get k m).
Qed.

Lemma map_get_addControlSystemDetection m c k :
  map_get k (addControlSystemDetection m c)
  = if String.eqb (detectionKey c) k
    then Some (Grouped.mk (Some c) (map_get k m ≫= Grouped.drone))
    else map_get k m.
Proof.
  unfold addControlSystemDetection. rewrite map_get_assign, map_get_ensure.
  destruct (String.eqb (detectionKey c) k); by destruct (map_get k m).
Qed.

Lemma map_get_addDroneDetection m d k :
  map_get k (addDroneDetection m d)
  = if String.eqb (detectionKey d) k
    then Some (Grouped.mk (map_get k m ≫= Grouped.controlSystem) (Some d))
    else map_get k m.
Proof.
  unfold addDroneDetection. rewrite map_get_assign, map_get_ensure.
  destruct (String.eqb (detectionKey d) k); by destruct (map_get k m).
Qed.

(** When no control system detection of another pair shares the key of [p]
    (the template key is ambiguous around a hyphen), a pair detected by both
    subsystems is processed. *)
Lemma agreed_complete leakageStatus p :
  p ∈ pairOfDetection <$> controlSystemDetections leakageStatus ->
  pairKey p ∈ detectionKey <$> droneDetections leakageStatus ->
  (forall c, c ∈ controlSystemDetections leakageStatus ->
             detectionKey c = pairKey p -> pairOfDetection c = p) ->
  agreed leakageStatus p.
Proof.
  intros (c0 & -> & Hc0)%list_elem_of_fmap (d0 & Hd0k & Hd0)%list_elem_of_fmap Hinj.
  change (pairKey (pairOfDetection c0)) with (detectionKey c0) in *.
  set (k := detectionKey c0) in *.
  set (hasControl := fun m : LocationDefectMap =>
         exists g c, map_get k m = Some g /\ Grouped.controlSystem g = Some c).
  set (hasDrone := fun m : LocationDefectMap =>
         exists g d, map_get k m = Some g /\ Grouped.drone g = Some d).
  assert (Hc : hasControl (groupDetections leakageStatus)).
  { unfold groupDetections. apply fold_left_invariant.
    - apply (fold_left_establish hasControl _ _ _ c0 Hc0).
      + intros m. unfold hasControl. rewrite map_get_addControlSystemDetection.
        fold k. rewrite String.eqb_refl. by eexists _, _.
      + intros m c (g & c' & Hg & Hc'). unfold hasControl.
        rewrite map_get_addControlSystemDetection.
        destruct (String.eqb (detectionKey c) k); by eexists _, _.
    - intros m d _ (g & c' & Hg & Hc'). unfold hasControl.
      rewrite map_get_addDroneDetection.
      destruct (String.eqb (detectionKey d) k); [|by eexists _, _].
      rewrite Hg. simpl. rewrite Hc'. by eexists _, _. }
  assert (Hd : hasDrone (groupDetections leakageStatus)).
  { unfold groupDetections.
    apply (fold_left_establish hasDrone _ _ _ d0 Hd0).
    - intros m. unfold hasDrone. rewrite map_get_addDroneDetection.
      rewrite <- Hd0k, String.eqb_refl. by eexists _, _.
    - intros m d (g & d' & Hg & Hd'). unfold hasDrone.
      rewrite map_get_addDroneDetection.
      destruct (String.eqb (detectionKey d) k); by eexists _, _. }
  destruct Hc as (g & c & Hg & Hgc). destruct Hd as (g' & d & Hg' & Hgd).
  rewrite Hg in Hg'. injection Hg' as <-.
  apply map_get_elem_of in Hg. destruct g as [gc gd]. simpl in *. subst gc gd.
  destruct (groupDetections_groupedFrom leakageStatus _ _ Hg) as [Hcs _].
  destruct (Hcs c eq_refl) as [Hcin Hck].
  exists k, c, d. split; [done|]. by apply Hinj.
Qed.

(** ** One step of the reconciliation *)

Lemma matches_pairOf location defectType e :
  matches location defectType e <-> pairOf e = (location, defectType).
Proof.
  unfold matches, pairOf. split.
  - by intros [-> ->].
  - by intros [= -> ->].
Qed.

Lemma elem_of_list_insert_inv {A} (l : list A) i x y :
  y ∈ <[i:=x]> l -> y = x \/ y ∈ l.
Proof.
  intros [j Hj]%list_elem_of_lookup. rewrite list_lookup_insert in Hj.
  case_decide.
  - left. congruence.
  - right. by eapply list_elem_of_lookup_2.
Qed.

Lemma elem_of_list_insert_other {A} (l : list A) i x y z :
  y ∈ l -> l !! i = Some z -> y <> z -> y ∈ <[i:=x]> l.
Proof.
  intros [j Hj]%list_elem_of_lookup Hi Hne.
  apply list_elem_of_lookup. exists j.
  rewrite list_lookup_insert_ne; [done|]. intros ->. congruence.
Qed.

Section step.
Context (random : Random) (currentDate currentTimestamp : Z).

(** The three ways the callback can go on a value of the map. *)
Lemma processDetections_inv w g :
  ((Grouped.controlSystem g = None \/ Grouped.drone g = None)
   /\ processDetections random currentDate currentTimestamp w g = w)
  \/ (exists c d i existing,
        g = Grouped.mk (Some c) (Some d)
        /\ Working.updatedRegistry w !! i = Some existing
        /\ pairOf existing = pairOfDetection c
        /\ (forall j y, Working.updatedRegistry w !! j = Some y -> (j < i)%nat ->
                        pairOf y <> pairOfDetection c)
        /\ processDetections random currentDate currentTimestamp w g
           = Working.mk
               (<[ i := updatedDefect existing currentDate currentTimestamp
                          (getRiskLevel (DefectDetection.defectType c)) c d
                          (random (Working.drawn w)) ]> (Working.updatedRegistry w))
               (Working.defectIdCounter w) (S (Working.drawn w)))
  \/ (exists c d,
        g = Grouped.mk (Some c) (Some d)
        /\ (forall y, y ∈ Working.updatedRegistry w -> pairOf y <> pairOfDetection c)
        /\ processDetections random currentDate currentTimestamp w g
           = Working.mk
               (Working.updatedRegistry w ++
                  [ newDefect (fst (generateDefectId (Working.defectIdCounter w)))
                      (DefectDetection.defectType c) (DefectDetection.location c)
                      currentDate currentTimestamp
                      (getRiskLevel (DefectDetection.defectType c)) c d
                      (random (Working.drawn w)) ])
               (N.succ (Working.defectIdCounter w)) (S (Working.drawn w))).
Proof.
  unfold processDetections. destruct g as [[c|] [d|]]; simpl; try (left; split; [auto|done]).
  right.
  destruct (list_find _ _) as [[i existing]|] eqn:Hfind.
  - left. apply list_find_Some in Hfind as (Hi & Hm & Hfirst).
    exists c, d, i, existing. split; [done|]. split; [done|].
    split; [by apply matches_pairOf|]. split; [|done].
    intros j y Hj Hlt Hy. by apply (Hfirst j y Hj Hlt), matches_pairOf.
  - right. apply list_find_None in Hfind. rewrite Forall_forall in Hfind.
    exists c, d. split; [done|]. split; [|done].
    intros y Hy Hp. by apply (Hfind y Hy), matches_pairOf.
Qed.

(** Where an entry of the array comes from after one step. *)
Lemma processDetections_elem_of w g e' :
  e' ∈ Working.updatedRegistry (processDetections random currentDate currentTimestamp w g) ->
  e' ∈ Working.updatedRegistry w
  \/ (exists c d existing r,
        g = Grouped.mk (Some c) (Some d)
        /\ existing ∈ Working.updatedRegistry w
        /\ pairOf existing = pairOfDetection c
        /\ e' = updatedDefect existing currentDate currentTimestamp
                  (getRiskLevel (DefectDetection.defectType c)) c d r)
  \/ (exists c d r,
        g = Grouped.mk (Some c) (Some d)
        /\ e' = newDefect (fst (generateDefectId (Working.defectIdCounter w)))
                  (DefectDetection.defectType c) (DefectDetection.location c)
                  currentDate currentTimestamp
                  (getRiskLevel (DefectDetection.defectType c)) c d r).
Proof.
  destruct (processDetections_inv w g)
    as [[_ ->]|[(c & d & i & existing & -> & Hi & Hp & _ & ->)|(c & d & -> & _ & ->)]];
    simpl; [by left|..].
  - intros [->|Hin]%elem_of_list_insert_inv; [|by left].
    right; left. exists c, d, existing, (random (Working.drawn w)).
    repeat split; try done. by eapply list_elem_of_lookup_2.
  - intros [Hin|Hin]%elem_of_app; [by left|].
    apply list_elem_of_singleton in Hin as ->.
    right; right. by exists c, d, (random (Working.drawn w)).
Qed.

Lemma updatedDefect_written existing c d r :
  pairOf existing = pairOfDetection c ->
  written currentDate currentTimestamp
    (updatedDefect existing currentDate currentTimestamp
       (getRiskLevel (DefectDetection.defectType c)) c d r).
Proof.
  intros [= _ Ht]. unfold written; simpl. by rewrite Ht.
Qed.

Lemma newDefect_written id c d r :
  written currentDate currentTimestamp
    (newDefect id (DefectDetection.defectType c) (DefectDetection.location c)
       currentDate currentTimestamp (getRiskLevel (DefectDetection.defectType c)) c d r).
Proof. by unfold written. Qed.

(** The pairs of the registry stay distinct. *)
Lemma processDetections_NoDup w g :
  NoDup (pairOf <$> Working.updatedRegistry w) ->
  NoDup (pairOf <$> Working.updatedRegistry
           (processDetections random currentDate currentTimestamp w g)).
Proof.
  intros Hnd.
  destruct (processDetections_inv w g)
    as [[_ ->]|[(c & d & i & existing & -> & Hi & Hp & _ & ->)|(c & d & -> & Hnone & ->)]];
    simpl; [done|..].
  - rewrite list_fmap_insert. rewrite list_insert_id; [done|].
    rewrite list_lookup_fmap, Hi. done.
  - rewrite fmap_app. apply NoDup_app. split; [done|]. split; [|apply NoDup_singleton].
    intros p (y & -> & Hy)%list_elem_of_fmap Hin. simpl in Hin.
    apply list_elem_of_singleton in Hin. by apply (Hnone y Hy).
Qed.

(** An entry whose pair is not the one processed stays in the array. *)
Lemma processDetections_retains w g e :
  e ∈ Working.updatedRegistry w ->
  (forall c d, g = Grouped.mk (Some c) (Some d) -> pairOf e <> pairOfDetection c) ->
  e ∈ Working.updatedRegistry (processDetections random currentDate currentTimestamp w g).
Proof.
  intros He Hne.
  destruct (processDetections_inv w g)
    as [[_ ->]|[(c & d & i & existing & -> & Hi & Hp & _ & ->)|(c & d & -> & Hnone & ->)]];
    simpl; [done|..].
  - eapply elem_of_list_insert_other; [done..|].
    intros ->. by apply (Hne c d).
  - apply elem_of_app; by left.
Qed.

(** Once the entries of a pair are written they stay so. *)
Lemma processDetections_written_preserved w g p :
  (forall e, e ∈ Working.updatedRegistry w -> pairOf e = p ->
             written currentDate currentTimestamp e) ->
  forall e, e ∈ Working.updatedRegistry
                  (processDetections random currentDate currentTimestamp w g) ->
            pairOf e = p -> written currentDate currentTimestamp e.
Proof.
  intros Hw e
    [Hin|[(c & d & existing & r & -> & Hex & Hp & ->)|(c & d & r & -> & ->)]]%processDetections_elem_of
    Hpe.
  - by apply Hw.
  - by apply updatedDefect_written.
  - apply newDefect_written.
Qed.

(** Processing a pair writes the entry of that pair, when the pairs of the
    registry are distinct. *)
Lemma processDetections_written_established w c d :
  NoDup (pairOf <$> Working.updatedRegistry w) ->
  forall e, e ∈ Working.updatedRegistry
                  (processDetections random currentDate currentTimestamp w
                     (Grouped.mk (Some c) (Some d))) ->
            pairOf e = pairOfDetection c -> written currentDate currentTimestamp e.
Proof.
  intros Hnd e He Hpe.
  destruct (processDetections_inv w (Grouped.mk (Some c) (Some d)))
    as [[[?|?] _]|[(c' & d' & i & existing & [= <- <-] & Hi & Hp & _ & Heq)
                  |(c' & d' & [= <- <-] & Hnone & Heq)]]; [done..| |];
    rewrite Heq in He; simpl in He.
  - apply list_elem_of_lookup in He as [j Hj].
    destruct (decide (i = j)) as [<-|Hij].
    + rewrite list_lookup_insert_eq in Hj by (by eapply lookup_lt_Some).
      injection Hj as <-. by apply updatedDefect_written.
    + rewrite list_lookup_insert_ne in Hj by done.
      exfalso. apply Hij. eapply NoDup_lookup; [exact Hnd|..];
        rewrite list_lookup_fmap.
      * by rewrite Hi.
      * rewrite Hj. simpl. congruence.
  - apply elem_of_app in He as [He|He]; [by destruct (Hnone e He)|].
    apply list_elem_of_singleton in He as ->. apply newDefect_written.
Qed.
End step.

(** ** The whole reconciliation *)

Lemma fold_left_establish_inv {A B} (I P : A -> Prop) (f : A -> B -> A) l a b0 :
  b0 ∈ l -> I a ->
  (forall a b, I a -> I (f a b)) ->
  (forall a, I a -> P (f a b0)) ->
  (forall a b, P a -> P (f a b)) ->
  P (fold_left f l a).
Proof.
  intros Hin Ha HI Hest Hpres. revert a Ha.
  induction l as [|b l IH]; intros a Ha; simpl; [by apply elem_of_nil in Hin|].
  apply elem_of_cons in Hin as [->|Hin].
  - apply fold_left_invariant; [by apply Hest | intros; by apply Hpres].
  - apply IH; [done|]. by apply HI.
Qed.

Lemma sameIdentity_refl e : sameIdentity e e.
Proof. by repeat split. Qed.

Lemma sameIdentity_updatedDefect e existing currentDate currentTimestamp riskInfo c d r :
  sameIdentity e existing ->
  sameIdentity e (updatedDefect existing currentDate currentTimestamp riskInfo c d r).
Proof. intros H. exact H. Qed.

Section reconciliation.
Context (random : Random) (now now' : Z).
Context (currentRegistry : list DefectRegistryItem.t).
Context (leakageStatus : LeakageDetection.t).
Context (defectIdCounter : N) (drawn : nat).

Let w := reconciled random now now' currentRegistry leakageStatus defectIdCounter drawn.
Let returned := Working.updatedRegistry
  (updateDefectRegistryWithDetections random now now' currentRegistry leakageStatus
     defectIdCounter drawn).

Lemma agreed_of_grouped k c d :
  (k, Grouped.mk (Some c) (Some d)) ∈ groupDetections leakageStatus ->
  agreed leakageStatus (pairOfDetection c).
Proof. intros Hin. by exists k, c, d. Qed.

(** Every entry of the reconciled array has a provenance. *)
Lemma reconciled_provenance e' :
  e' ∈ Working.updatedRegistry w ->
  provenance currentRegistry leakageStatus (isoDay now') now defectIdCounter e'.
Proof.
  revert e'. unfold w, reconciled.
  cut ((defectIdCounter <= Working.defectIdCounter
          (fold_left (fun w kv => processDetections random (isoDay now') now w (snd kv))
             (groupDetections leakageStatus)
             (Working.mk currentRegistry defectIdCounter drawn)))%N
       /\ forall e', e' ∈ Working.updatedRegistry
            (fold_left (fun w kv => processDetections random (isoDay now') now w (snd kv))
               (groupDetections leakageStatus)
               (Working.mk currentRegistry defectIdCounter drawn)) ->
          provenance currentRegistry leakageStatus (isoDay now') now defectIdCounter e');
    [by intros [_ ?]|].
  apply (fold_left_invariant (fun w =>
    (defectIdCounter <= Working.defectIdCounter w)%N
    /\ forall e', e' ∈ Working.updatedRegistry w ->
         provenance currentRegistry leakageStatus (isoDay now') now defectIdCounter e')).
  - split; [simpl; lia|]. intros e' He'. by apply provenance_kept.
  - intros w0 [k g] Hkg [Hc Hprov]. simpl. split.
    { etrans; [exact Hc|]. apply processDetections_counter. }
    intros e'
      [Hin|[(c & d & existing & r & -> & Hex & Hp & ->)|(c & d & r & -> & ->)]]%processDetections_elem_of.
    + by apply Hprov.
    + assert (Hagreed : agreed leakageStatus
                (pairOf (updatedDefect existing (isoDay now') now
                   (getRiskLevel (DefectDetection.defectType c)) c d r))).
      { change (pairOf (updatedDefect _ _ _ _ _ _ _)) with (pairOf existing).
        rewrite Hp. by eapply agreed_of_grouped. }
      pose proof (updatedDefect_written (isoDay now') now existing c d r Hp) as Hwr.
      destruct (Hprov existing Hex) as [Hkept|e He Hsame _ _|c' Hc' Hid Hcl _ _].
      * eapply provenance_updated;
          [exact Hkept|apply sameIdentity_updatedDefect, sameIdentity_refl|done..].
      * eapply provenance_updated;
          [exact He|by apply sameIdentity_updatedDefect|done..].
      * eapply provenance_created; [exact Hc'|exact Hid|exact Hcl|done..].
    + eapply (provenance_created _ _ _ _ _ _ (Working.defectIdCounter w0)).
      * done.
      * done.
      * by repeat split.
      * by eapply agreed_of_grouped.
      * apply newDefect_written.
Qed.

Lemma reconciled_NoDup :
  NoDup (pairOf <$> currentRegistry) ->
  NoDup (pairOf <$> Working.updatedRegistry w).
Proof.
  intros Hnd. unfold w, reconciled.
  apply (fold_left_invariant (fun w : Working.t => NoDup (pairOf <$> Working.updatedRegistry w)));
    [done|].
  intros w0 kv _ Hw0. by apply processDetections_NoDup.
Qed.

(** An entry whose pair is not processed is still there, as it was. *)
Lemma reconciled_retains e :
  e ∈ currentRegistry -> ~ agreed leakageStatus (pairOf e) ->
  e ∈ Working.updatedRegistry w.
Proof.
  intros He Hna. unfold w, reconciled.
  apply (fold_left_invariant (fun w : Working.t => e ∈ Working.updatedRegistry w)); [done|].
  intros w0 [k g] Hkg Hw0. simpl. apply processDetections_retains; [done|].
  intros c d -> Hp. apply Hna. rewrite Hp. by eapply agreed_of_grouped.
Qed.

(** With distinct pairs in the registry, every entry of a processed pair has
    been written by this reconciliation. *)
Lemma reconciled_agreed_written e' :
  NoDup (pairOf <$> currentRegistry) ->
  e' ∈ Working.updatedRegistry w ->
  agreed leakageStatus (pairOf e') ->
  written (isoDay now') now e'.
Proof.
  intros Hnd He' (k & c & d & Hkg & Hp). revert e' He' Hp. unfold w, reconciled.
  apply (fold_left_establish_inv (A := Working.t)
           (fun w0 => NoDup (pairOf <$> Working.updatedRegistry w0))
           (fun w0 => forall e' : DefectRegistryItem.t,
                       e' ∈ Working.updatedRegistry w0 ->
                       pairOfDetection c = pairOf e' -> written (isoDay now') now e')
           _ _ _ _ Hkg); [exact Hnd|..].
  - intros w0 kv Hw0. by apply processDetections_NoDup.
  - intros w0 Hw0 e' He' Hp. simpl in He'.
    by eapply processDetections_written_established.
  - intros w0 kv Hw0 e' He' Hp.
    eapply processDetections_written_preserved; [|exact He'|done].
    intros e He Hpe. apply Hw0; [done|]. by rewrite Hpe.
Qed.

(** A processed pair has an entry in the reconciled array. *)
Lemma reconciled_agreed_present p :
  agreed leakageStatus p ->
  exists e', e' ∈ Working.updatedRegistry w /\ pairOf e' = p.
Proof.
  intros (k & c & d & Hkg & <-). unfold w, reconciled.
  apply (fold_left_establish
           (fun w : Working.t => exists e', e' ∈ Working.updatedRegistry w
                                /\ pairOf e' = pairOfDetection c) _ _ _ _ Hkg).
  - intros w0. simpl.
    destruct (processDetections_inv random (isoDay now') now w0
                (Grouped.mk (Some c) (Some d)))
      as [[[?|?] _]|[(c' & d' & i & existing & [= <- <-] & Hi & Hp & _ & ->)
                    |(c' & d' & [= <- <-] & _ & ->)]]; [done..| |]; simpl.
    + eexists. split; [apply list_elem_of_insert; by eapply lookup_lt_Some|done].
    + eexists. split; [apply elem_of_app; right; by apply list_elem_of_singleton|done].
  - intros w0 [k' g'] (e' & He' & Hp). simpl.
    destruct (processDetections_inv random (isoDay now') now w0 g')
      as [[_ ->]|[(c' & d' & i & existing & -> & Hi & Hpi & _ & ->)
                 |(c' & d' & -> & _ & ->)]]; simpl.
    + by exists e'.
    + destruct (decide (e' = existing)) as [->|Hne].
      * eexists. split; [apply list_elem_of_insert; by eapply lookup_lt_Some|done].
      * exists e'. split; [|done]. by eapply elem_of_list_insert_other.
    + exists e'. split; [|done]. apply elem_of_app; by left.
Qed.

(** The array returned holds entries of the reconciled array only, and all
    of them when these are at most 15. *)
Lemma returned_reconciled e' : e' ∈ returned -> e' ∈ Working.updatedRegistry w.
Proof.
  unfold returned. rewrite updateDefectRegistryWithDetections_take.
  intros He'%subseteq_take. by apply elem_of_sort in He'.
Qed.

Lemma reconciled_returned e' :
  (length (Working.updatedRegistry w) <= MAX_DEFECT_REGISTRY_SIZE)%nat ->
  e' ∈ Working.updatedRegistry w -> e' ∈ returned.
Proof.
  intros Hlen He'. unfold returned. rewrite updateDefectRegistryWithDetections_take.
  rewrite take_ge by (by rewrite length_sort). by apply elem_of_sort.
Qed.

Lemma returned_NoDup :
  NoDup (pairOf <$> currentRegistry) -> NoDup (pairOf <$> returned).
Proof.
  intros Hnd%reconciled_NoDup. unfold returned.
  rewrite updateDefectRegistryWithDetections_take, fmap_take.
  eapply sublist_NoDup; [|apply sublist_take].
  by rewrite sort_Permutation.
Qed.
End reconciliation.

(** ** The agreement gate *)

(** An entry returned whose pair is not processed is an entry of the registry
    passed in. *)
Lemma returned_not_agreed random now now' registry leakageStatus c drawn e' :
  e' ∈ Working.updatedRegistry
         (updateDefectRegistryWithDetections random now now' registry leakageStatus c drawn) ->
  ~ agreed leakageStatus (pairOf e') ->
  e' ∈ registry.
Proof.
  intros He'%returned_reconciled Hna.
  by destruct (reconciled_provenance _ _ _ _ _ _ _ _ He') as [Hkept|e _ _ Ha _|c' _ _ _ Ha _].
Qed.

(** A pair whose key is the key of no detection of one of the subsystems is
    not processed. *)
Lemma not_agreed_one_subsystem leakageStatus p :
  (pairKey p ∉ detectionKey <$> controlSystemDetections leakageStatus)
  \/ (pairKey p ∉ detectionKey <$> droneDetections leakageStatus) ->
  ~ agreed leakageStatus p.
Proof. intros [Hc|Hd] (_ & ? & ?)%agreed_sound; tauto. Qed.

(** C1, as the code has it: let the pair [p] appear in the detections of only
    one of the two subsystems, and let no detection of another pair have the
    key of [p] (the key joins location and defect type with a hyphen, which
    either may contain).  Then every entry with that pair in the array
    returned is an entry of the registry passed in, with every field as it
    was, so none is created or modified; every entry with that pair of the
    registry passed in is still in the array the reconciliation builds, as it
    was, and is returned unless the truncation to 15 entries drops it. *)
Theorem agreement_gate random now now' registry leakageStatus c drawn p :
  (p ∈ pairOfDetection <$> controlSystemDetections leakageStatus
   /\ (p ∉ pairOfDetection <$> droneDetections leakageStatus))
  \/ ((p ∉ pairOfDetection <$> controlSystemDetections leakageStatus)
      /\ p ∈ pairOfDetection <$> droneDetections leakageStatus) ->
  (forall d, d ∈ controlSystemDetections leakageStatus ++ droneDetections leakageStatus ->
             detectionKey d = pairKey p -> pairOfDetection d = p) ->
  let w := reconciled random now now' registry leakageStatus c drawn in
  let returned := Working.updatedRegistry
    (updateDefectRegistryWithDetections random now now' registry leakageStatus c drawn) in
  (forall e', e' ∈ returned -> pairOf e' = p -> e' ∈ registry)
  /\ (forall e, e ∈ registry -> pairOf e = p -> e ∈ Working.updatedRegistry w)
  /\ ((length (Working.updatedRegistry w) <= MAX_DEFECT_REGISTRY_SIZE)%nat ->
      forall e, e ∈ registry -> pairOf e = p -> e ∈ returned).
Proof.
  intros Hone Hkey w returned.
  assert (Hna : ~ agreed leakageStatus p).
  { apply not_agreed_one_subsystem.
    destruct Hone as [[_ Hd]|[Hc _]]; [right|left];
      intros (d & Hk & Hin)%list_elem_of_fmap.
    - apply Hd. apply list_elem_of_fmap. exists d. split; [|done].
      symmetry. apply Hkey; [apply elem_of_app; by right|done].
    - apply Hc. apply list_elem_of_fmap. exists d. split; [|done].
      symmetry. apply Hkey; [apply elem_of_app; by left|done]. }
  split; [|split].
  - intros e' He' Hp. eapply returned_not_agreed; [exact He'|]. by rewrite Hp.
  - intros e He Hp. apply reconciled_retains; [done|]. by rewrite Hp.
  - intros Hlen e He Hp. apply reconciled_returned; [done|].
    apply reconciled_retains; [done|]. by rewrite Hp.
Qed.

(** The proviso on keys is needed: two detections of different pairs, one of
    each subsystem, that share the key 'A-B-C' are grouped, and an entry is
    created for the pair of the control system's detection, which the drone
    did not report. *)
Example key_collision_registers_pair :
  let p := (Some "A", "B-C") in
  let returned := Working.updatedRegistry
    (updateDefectRegistryWithDetections alwaysHalf refreshInstant refreshInstant
       [] collidingSnapshot initialDefectIdCounter 0) in
  p ∈ pairOfDetection <$> controlSystemDetections collidingSnapshot
  /\ (p ∉ pairOfDetection <$> droneDetections collidingSnapshot)
  /\ pairKey p ∈ detectionKey <$> droneDetections collidingSnapshot
  /\ pairOf <$> returned = [p]
  /\ DefectRegistryItem.id <$> returned = ["DEF-101"].
Proof.
  intros p returned.
  split; [apply (bool_decide_unpack _); by vm_compute|].
  split; [apply (bool_decide_unpack _); by vm_compute|].
  split; [apply (bool_decide_unpack _); by vm_compute|].
  split; by vm_compute.
Qed.

(** Only the control system reports the leak of section A-B: the entry of the
    initial registry for it is returned as it was. *)
Lemma agreement_gate_witness :
  let p := (Some "Section A-B", "Major/Sudden Leak") in
  ((p ∈ pairOfDetection <$> controlSystemDetections controlOnlySnapshot
    /\ (p ∉ pairOfDetection <$> droneDetections controlOnlySnapshot))
   \/ ((p ∉ pairOfDetection <$> controlSystemDetections controlOnlySnapshot)
       /\ p ∈ pairOfDetection <$> droneDetections controlOnlySnapshot))
  /\ (forall d, d ∈ controlSystemDetections controlOnlySnapshot
                    ++ droneDetections controlOnlySnapshot ->
                detectionKey d = pairKey p -> pairOfDetection d = p)
  /\ let w := reconciled alwaysHalf refreshInstant refreshInstant
                getInitialDefectRegistry controlOnlySnapshot 100%N 0 in
     let returned := Working.updatedRegistry
       (updateDefectRegistryWithDetections alwaysHalf refreshInstant refreshInstant
          getInitialDefectRegistry controlOnlySnapshot 100%N 0) in
     (forall e', e' ∈ returned -> pairOf e' = p -> e' ∈ getInitialDefectRegistry)
     /\ (forall e, e ∈ getInitialDefectRegistry -> pairOf e = p ->
                   e ∈ Working.updatedRegistry w)
     /\ ((length (Working.updatedRegistry w) <= MAX_DEFECT_REGISTRY_SIZE)%nat ->
         forall e, e ∈ getInitialDefectRegistry -> pairOf e = p -> e ∈ returned).
Proof.
  intros p.
  assert (Hone : (p ∈ pairOfDetection <$> controlSystemDetections controlOnlySnapshot
                  /\ (p ∉ pairOfDetection <$> droneDetections controlOnlySnapshot))
                 \/ ((p ∉ pairOfDetection <$> controlSystemDetections controlOnlySnapshot)
                     /\ p ∈ pairOfDetection <$> droneDetections controlOnlySnapshot)).
  { left. split; [by apply list_elem_of_singleton | apply not_elem_of_nil]. }
  assert (Hkey : forall d, d ∈ controlSystemDetections controlOnlySnapshot
                               ++ droneDetections controlOnlySnapshot ->
                           detectionKey d = pairKey p -> pairOfDetection d = p).
  { intros d Hd _. apply list_elem_of_singleton in Hd. by subst d. }
  split; [exact Hone|]. split; [exact Hkey|].
  exact (agreement_gate alwaysHalf refreshInstant refreshInstant
           getInitialDefectRegistry controlOnlySnapshot 100%N 0%nat p Hone Hkey).
Defined.

(** C1 as stated fails where the registry is truncated.  The full registry
    (the initial one after three new defects) is reconciled with a snapshot in
    which the control system alone reports the pair of the oldest entry while
    both subsystems report a new defect: the pair appears in the detections of
    the control system only, no detection of the drone has its key, yet the
    entry of the registry for it is not in the array returned, which has no
    entry for the pair. *)
Lemma agreement_gate_truncation_drops_entry :
  let p := (Some "Branch Line", "Insulation/Coating Failure") in
  let returned := Working.updatedRegistry
    (updateDefectRegistryWithDetections alwaysHalf
       (refreshInstant + 15000) (refreshInstant + 15000)
       fullRegistry truncatingSnapshot
       (Working.defectIdCounter fullSession) (Working.drawn fullSession)) in
  p ∈ pairOfDetection <$> controlSystemDetections truncatingSnapshot
  /\ (p ∉ pairOfDetection <$> droneDetections truncatingSnapshot)
  /\ (pairKey p ∉ detectionKey <$> droneDetections truncatingSnapshot)
  /\ oldestDefect ∈ fullRegistry
  /\ pairOf oldestDefect = p
  /\ (oldestDefect ∉ returned)
  /\ (forall e', e' ∈ returned -> pairOf e' <> p)
  /\ length fullRegistry = 15%nat
  /\ DefectRegistryItem.id <$> returned
     = [ "DEF-104"; "DEF-101"; "DEF-102"; "DEF-103"; "DEF-001"; "DEF-002"; "DEF-003";
         "DEF-004"; "DEF-005"; "DEF-006"; "DEF-007"; "DEF-008"; "DEF-009"; "DEF-010";
         "DEF-011" ].
Proof.
  intros p returned.
  split; [apply (bool_decide_unpack _); by vm_compute|].
  split; [apply (bool_decide_unpack _); by vm_compute|].
  split; [apply (bool_decide_unpack _); by vm_compute|].
  split; [apply (bool_decide_unpack _); by vm_compute|].
  split; [done|].
  split; [apply (bool_decide_unpack _); by vm_compute|].
  split; [|split; by vm_compute].
  assert (Hall : Forall (fun e' => pairOf e' <> p) returned).
  { apply (bool_decide_unpack _). by vm_compute. }
  rewrite Forall_forall in Hall. exact Hall.
Qed.

(** ** Survival of the entries just detected *)

Lemma returned_notAfter random now now' registry leakageStatus c drawn :
  (forall e, e ∈ registry -> notAfter now e) ->
  forall e, e ∈ Working.updatedRegistry
                  (updateDefectRegistryWithDetections random now now' registry
                     leakageStatus c drawn) ->
            notAfter now e.
Proof.
  intros Hreg e He%returned_reconciled.
  destruct (reconciled_provenance _ _ _ _ _ _ _ _ He)
    as [Hkept|e0 _ _ _ (Hl & _)|c' _ _ _ _ (Hl & _)].
  - by apply Hreg.
  - intros t Ht. rewrite Hl in Ht. injection Ht as <-. lia.
  - intros t Ht. rewrite Hl in Ht. injection Ht as <-. lia.
Qed.

(** With a registry whose entries were all last detected before [now], the
    entries of the reconciled array last detected at [now] are those of the
    processed pairs. *)
Lemma reconciled_fresh_agreed random now now' registry leakageStatus c drawn e :
  (forall e0, e0 ∈ registry -> before now e0) ->
  e ∈ Working.updatedRegistry
        (reconciled random now now' registry leakageStatus c drawn) ->
  DefectRegistryItem.lastDetected e = Some now ->
  agreed leakageStatus (pairOf e).
Proof.
  intros Hreg He Hl.
  destruct (reconciled_provenance _ _ _ _ _ _ _ _ He)
    as [Hkept|e0 _ _ Ha _|c' _ _ _ Ha _]; [|done..].
  specialize (Hreg e Hkept now Hl). lia.
Qed.

(** The entries of processed pairs all survive the truncation, when the
    registry's entries were last detected before [now] and the control system
    reports at most 15 detections. *)
Lemma reconciled_agreed_returned random now now' registry leakageStatus c drawn e :
  NoDup (pairOf <$> registry) ->
  (forall e0, e0 ∈ registry -> before now e0) ->
  (length (controlSystemDetections leakageStatus) <= MAX_DEFECT_REGISTRY_SIZE)%nat ->
  e ∈ Working.updatedRegistry
        (reconciled random now now' registry leakageStatus c drawn) ->
  agreed leakageStatus (pairOf e) ->
  e ∈ Working.updatedRegistry
        (updateDefectRegistryWithDetections random now now' registry leakageStatus c drawn).
Proof.
  intros Hnd Hreg Hlen He Ha.
  rewrite updateDefectRegistryWithDetections_take.
  set (l := Working.updatedRegistry
              (reconciled random now now' registry leakageStatus c drawn)) in *.
  set (s := sort compareDefects l).
  assert (Hfresh : DefectRegistryItem.lastDetected e = Some now).
  { by destruct (reconciled_agreed_written _ _ _ _ _ _ _ _ Hnd He Ha) as (Hl & _). }
  assert (Hnot : forall x, x ∈ l -> notAfter now x).
  { intros x Hx. destruct (reconciled_provenance _ _ _ _ _ _ _ _ Hx)
      as [Hkept|e0 _ _ _ (Hl & _)|c' _ _ _ _ (Hl & _)].
    - intros t Ht. specialize (Hreg x Hkept t Ht). lia.
    - intros t Ht. rewrite Hl in Ht. injection Ht as <-. lia.
    - intros t Ht. rewrite Hl in Ht. injection Ht as <-. lia. }
  assert (Hs : e ∈ s) by (by apply elem_of_sort).
  apply list_elem_of_lookup in Hs as [i Hi].
  apply elem_of_take. exists i. split; [done|].
  (* the entries up to position [i] were all last detected at [now] *)
  assert (Hprefix : forall x, x ∈ take (S i) s ->
                              DefectRegistryItem.lastDetected x = Some now).
  { intros x (j & Hj & Hji)%elem_of_take.
    destruct (decide (j = i)) as [->|Hne]; [congruence|].
    assert (Hcmp : compareDefects x e <= 0).
    { eapply (StronglySorted_lookup (fun a b => compareDefects a b <= 0) s j i);
        [|lia|done..].
      apply sort_StronglySorted;
        [exact compareDefects_total | exact compareDefects_trans]. }
    assert (Hx : x ∈ l) by (apply (elem_of_sort compareDefects); by eapply list_elem_of_lookup_2).
    specialize (Hnot x Hx). unfold compareDefects in Hcmp. rewrite Hfresh in Hcmp.
    destruct (DefectRegistryItem.lastDetected x) as [tx|] eqn:Htx; [|lia].
    specialize (Hnot tx Htx). f_equal. lia. }
  (* they have distinct pairs, all among the control system's *)
  assert (Hnd' : NoDup (pairOf <$> take (S i) s)).
  { rewrite fmap_take. eapply sublist_NoDup; [|apply sublist_take].
    unfold s. rewrite sort_Permutation. by apply reconciled_NoDup. }
  assert (Hsub : forall p, p ∈ pairOf <$> take (S i) s ->
                           p ∈ pairOfDetection <$> controlSystemDetections leakageStatus).
  { intros p (x & -> & Hx)%list_elem_of_fmap.
    eapply agreed_sound, reconciled_fresh_agreed; [exact Hreg| |by apply Hprefix].
    apply subseteq_take in Hx. by apply elem_of_sort in Hx. }
  pose proof (submseteq_length _ _ (NoDup_submseteq _ _ Hnd' Hsub)) as Hle.
  rewrite !length_fmap, length_take in Hle.
  apply lookup_lt_Some in Hi. unfold MAX_DEFECT_REGISTRY_SIZE in *. lia.
Qed.

(** ** Identity of a re-detected entry *)

Lemma sameIdentity_trans e1 e2 e3 :
  sameIdentity e1 e2 -> sameIdentity e2 e3 -> sameIdentity e1 e3.
Proof.
  unfold sameIdentity. intros (? & ? & ? & ? & ? & ?) (? & ? & ? & ? & ? & ?).
  repeat split; congruence.
Qed.

Lemma sameIdentity_pairOf e e' : sameIdentity e e' -> pairOf e' = pairOf e.
Proof. intros (_ & Ht & Hl & _). unfold pairOf. by rewrite Ht, Hl. Qed.

(** After one step every entry is still there, itself or updated. *)
Lemma processDetections_successor random currentDate currentTimestamp w g e :
  e ∈ Working.updatedRegistry w ->
  exists e', e' ∈ Working.updatedRegistry
                    (processDetections random currentDate currentTimestamp w g)
             /\ sameIdentity e e'.
Proof.
  intros He.
  destruct (processDetections_inv random currentDate currentTimestamp w g)
    as [[_ ->]|[(c & d & i & existing & -> & Hi & Hp & _ & ->)|(c & d & -> & _ & ->)]];
    simpl.
  - exists e. split; [done | apply sameIdentity_refl].
  - destruct (decide (e = existing)) as [->|Hne].
    + eexists. split; [apply list_elem_of_insert; by eapply lookup_lt_Some|].
      apply sameIdentity_updatedDefect, sameIdentity_refl.
    + exists e. split; [by eapply elem_of_list_insert_other | apply sameIdentity_refl].
  - exists e. split; [apply elem_of_app; by left | apply sameIdentity_refl].
Qed.

Lemma reconciled_successor random now now' registry leakageStatus c drawn e :
  e ∈ registry ->
  exists e', e' ∈ Working.updatedRegistry
                    (reconciled random now now' registry leakageStatus c drawn)
             /\ sameIdentity e e'.
Proof.
  intros He. unfold reconciled.
  apply (fold_left_invariant (A := Working.t)
           (fun w0 => exists e' : DefectRegistryItem.t,
                        e' ∈ Working.updatedRegistry w0 /\ sameIdentity e e')).
  - exists e. split; [done | apply sameIdentity_refl].
  - intros w0 kv _ (e' & He' & Hsame).
    destruct (processDetections_successor random (isoDay now') now w0 (snd kv) e' He')
      as (e'' & He'' & Hsame').
    exists e''. split; [done|]. by eapply sameIdentity_trans.
Qed.

Lemma getInitialDefectRegistry_NoDup : NoDup (pairOf <$> getInitialDefectRegistry).
Proof. apply (bool_decide_unpack _). by vm_compute. Qed.

Lemma agreeingSnapshot_agreed :
  agreed agreeingSnapshot (Some "Section A-B", "Major/Sudden Leak").
Proof.
  exists "Section A-B-Major/Sudden Leak", leakSeenByControlSystem, leakSeenByDrone.
  split; [|done]. by apply list_elem_of_singleton.
Qed.

Lemma reconcileAll_counter random refreshes w :
  (Working.defectIdCounter w
   <= Working.defectIdCounter (reconcileAll random refreshes w))%N.
Proof.
  unfold reconcileAll. revert w.
  induction refreshes as [|r refreshes IH]; intros w; simpl; [lia|].
  etrans; [|apply IH]. simpl. apply reconciled_counter.
Qed.

(** C2, as the code has it.  Let the pairs of the registry be distinct and the
    pair of its entry [e] be processed (re-detected).  Then the array the
    reconciliation builds has an entry with the identifier, the location, the
    defect type and the risk properties of [e], whose [detectedDate] is the
    current day (not the day [e] had) and whose [lastDetected] is the current
    instant; it is returned unless the truncation drops it, which it does not
    when the registry's entries were last detected before the current instant
    and the control system reports at most 15 detections.  In general, an
    entry of the array returned is either created by this call, its identifier
    allocated from the counter, or it has the identity of an entry of the
    registry passed in and is that entry unchanged or carries the time stamps
    of this call.  Over any sequence of reconciliations an entry of the final
    registry has the identifier and the pair of an entry of the first
    registry, or an identifier allocated since. *)
Theorem redetection_keeps_id_not_date :
  (forall random now now' registry leakageStatus c drawn e,
      NoDup (pairOf <$> registry) ->
      e ∈ registry ->
      agreed leakageStatus (pairOf e) ->
      let w := reconciled random now now' registry leakageStatus c drawn in
      let returned := Working.updatedRegistry
        (updateDefectRegistryWithDetections random now now' registry
           leakageStatus c drawn) in
      exists e', e' ∈ Working.updatedRegistry w
        /\ DefectRegistryItem.id e' = DefectRegistryItem.id e
        /\ sameIdentity e e'
        /\ DefectRegistryItem.detectedDate e' = isoDay now'
        /\ DefectRegistryItem.lastDetected e' = Some now
        /\ ((length (Working.updatedRegistry w) <= MAX_DEFECT_REGISTRY_SIZE)%nat ->
            e' ∈ returned)
        /\ ((forall e0, e0 ∈ registry -> before now e0) ->
            (length (controlSystemDetections leakageStatus)
             <= MAX_DEFECT_REGISTRY_SIZE)%nat ->
            e' ∈ returned)
        /\ (forall e'', e'' ∈ returned -> pairOf e'' = pairOf e -> e'' = e'))
  /\ (forall random now now' registry leakageStatus c drawn e',
        e' ∈ Working.updatedRegistry
               (updateDefectRegistryWithDetections random now now' registry
                  leakageStatus c drawn) ->
        (exists e, e ∈ registry
           /\ DefectRegistryItem.id e' = DefectRegistryItem.id e
           /\ sameIdentity e e'
           /\ (e' = e
               \/ (agreed leakageStatus (pairOf e)
                   /\ DefectRegistryItem.detectedDate e' = isoDay now'
                   /\ DefectRegistryItem.lastDetected e' = Some now)))
        \/ (exists c', (c <= c')%N
              /\ DefectRegistryItem.id e' = fst (generateDefectId c')
              /\ agreed leakageStatus (pairOf e')
              /\ DefectRegistryItem.detectedDate e' = isoDay now'
              /\ DefectRegistryItem.lastDetected e' = Some now))
  /\ (forall random refreshes w e',
        e' ∈ Working.updatedRegistry (reconcileAll random refreshes w) ->
        (exists e, e ∈ Working.updatedRegistry w
           /\ DefectRegistryItem.id e' = DefectRegistryItem.id e
           /\ pairOf e' = pairOf e)
        \/ (exists c', (Working.defectIdCounter w <= c')%N
              /\ DefectRegistryItem.id e' = fst (generateDefectId c'))).
Proof.
  assert (Hone : forall random now now' registry leakageStatus c drawn e',
      e' ∈ Working.updatedRegistry
             (updateDefectRegistryWithDetections random now now' registry
                leakageStatus c drawn) ->
      (exists e, e ∈ registry
         /\ DefectRegistryItem.id e' = DefectRegistryItem.id e
         /\ sameIdentity e e'
         /\ (e' = e
             \/ (agreed leakageStatus (pairOf e)
                 /\ DefectRegistryItem.detectedDate e' = isoDay now'
                 /\ DefectRegistryItem.lastDetected e' = Some now)))
      \/ (exists c', (c <= c')%N
            /\ DefectRegistryItem.id e' = fst (generateDefectId c')
            /\ agreed leakageStatus (pairOf e')
            /\ DefectRegistryItem.detectedDate e' = isoDay now'
            /\ DefectRegistryItem.lastDetected e' = Some now)).
  { intros random now now' registry leakageStatus c drawn e' He'%returned_reconciled.
    destruct (reconciled_provenance _ _ _ _ _ _ _ _ He')
      as [Hkept|e He Hsame Ha (Hl & Hd & _)|c' Hc' Hid _ Ha (Hl & Hd & _)].
    - left. exists e'. split; [done|]. split; [done|].
      split; [apply sameIdentity_refl | by left].
    - left. exists e. split; [done|]. split; [apply Hsame|]. split; [done|].
      right. split; [|done]. by rewrite <- (sameIdentity_pairOf e e').
    - right. by exists c'. }
  split; [|split; [exact Hone|]].
  - intros random now now' registry leakageStatus c drawn e Hnd He Ha w returned.
    destruct (reconciled_successor random now now' registry leakageStatus c drawn e He)
      as (e' & He' & Hsame).
    pose proof (sameIdentity_pairOf _ _ Hsame) as Hp.
    assert (Ha' : agreed leakageStatus (pairOf e')) by (by rewrite Hp).
    destruct (reconciled_agreed_written _ _ _ _ _ _ _ _ Hnd He' Ha') as (Hl & Hd & _).
    exists e'. split; [done|]. split; [apply Hsame|]. split; [done|].
    split; [done|]. split; [done|]. split; [|split].
    + intros Hlen. by apply reconciled_returned.
    + intros Hold Hlen. by apply reconciled_agreed_returned.
    + intros e'' He''%returned_reconciled Hp''.
      pose proof (reconciled_NoDup random now now' registry leakageStatus c drawn Hnd)
        as Hnd'.
      apply list_elem_of_lookup in He'' as [i Hi]. apply list_elem_of_lookup in He' as [j Hj].
      assert (i = j) as ->.
      { eapply NoDup_lookup; [exact Hnd'|..]; rewrite list_lookup_fmap.
        - by rewrite Hi.
        - rewrite Hj. simpl. congruence. }
      congruence.
  - intros random refreshes. unfold reconcileAll.
    induction refreshes as [|r refreshes IH]; intros w e'; simpl.
    + intros He'. left. by exists e'.
    + intros He'. apply IH in He' as [(e1 & He1 & Hid & Hp)|(c' & Hc' & Hid)].
      * apply Hone in He1
          as [(e & He & Hid1 & Hsame & _)|(c' & Hc' & Hid1 & _)].
        -- left. exists e. split; [done|]. split; [congruence|].
           rewrite Hp. by apply sameIdentity_pairOf.
        -- right. exists c'. split; [exact Hc'|]. etrans; [exact Hid | exact Hid1].
      * right. exists c'. split; [|done].
        etrans; [|exact Hc']. simpl. apply reconciled_counter.
Qed.

(** The initial registry and its entry for the leak of section A-B, reported
    by both subsystems. *)
Lemma redetection_keeps_id_not_date_witness :
  let registry := getInitialDefectRegistry in
  let e := staticDefect "DEF-001" "Major/Sudden Leak" "Section A-B"
             critical "Critical" "游댮" (isoDate 2024 11 15)
             "High pressure drop" "PT"
             "Direct visual sighting of spill" "Visible spectrum camera" 92 in
  NoDup (pairOf <$> registry)
  /\ e ∈ registry
  /\ agreed agreeingSnapshot (pairOf e)
  /\ let w := reconciled alwaysHalf refreshInstant refreshInstant registry
                agreeingSnapshot 100%N 0 in
     let returned := Working.updatedRegistry
       (updateDefectRegistryWithDetections alwaysHalf refreshInstant refreshInstant
          registry agreeingSnapshot 100%N 0) in
     exists e', e' ∈ Working.updatedRegistry w
       /\ DefectRegistryItem.id e' = DefectRegistryItem.id e
       /\ sameIdentity e e'
       /\ DefectRegistryItem.detectedDate e' = isoDay refreshInstant
       /\ DefectRegistryItem.lastDetected e' = Some refreshInstant
       /\ ((length (Working.updatedRegistry w) <= MAX_DEFECT_REGISTRY_SIZE)%nat ->
           e' ∈ returned)
       /\ ((forall e0, e0 ∈ registry -> before refreshInstant e0) ->
           (length (controlSystemDetections agreeingSnapshot)
            <= MAX_DEFECT_REGISTRY_SIZE)%nat ->
           e' ∈ returned)
       /\ (forall e'', e'' ∈ returned -> pairOf e'' = pairOf e -> e'' = e').
Proof.
  intros registry e.
  assert (He : e ∈ registry) by (apply (bool_decide_unpack _); by vm_compute).
  split; [exact getInitialDefectRegistry_NoDup|]. split; [exact He|].
  split; [exact agreeingSnapshot_agreed|].
  exact (proj1 redetection_keeps_id_not_date alwaysHalf refreshInstant refreshInstant
           registry agreeingSnapshot 100%N 0%nat e
           getInitialDefectRegistry_NoDup He agreeingSnapshot_agreed).
Defined.

(** C2 as stated fails for [detectedDate]: the initial registry's entry for the
    leak of section A-B, first detected on 15 November 2024, is re-detected by
    both subsystems on 10 January 2025; the entry returned for it has the same
    identifier, and 10 January 2025 as its [detectedDate]. *)
Lemma redetection_changes_detectedDate :
  let returned := Working.updatedRegistry
    (updateDefectRegistryWithDetections alwaysHalf refreshInstant refreshInstant
       getInitialDefectRegistry agreeingSnapshot 100%N 0) in
  exists e e',
    getInitialDefectRegistry !! 0%nat = Some e
    /\ returned !! 0%nat = Some e'
    /\ agreed agreeingSnapshot (pairOf e)
    /\ pairOf e' = pairOf e
    /\ DefectRegistryItem.id e = "DEF-001"
    /\ DefectRegistryItem.id e' = "DEF-001"
    /\ DefectRegistryItem.detectedDate e = isoDate 2024 11 15
    /\ DefectRegistryItem.detectedDate e' = isoDate 2025 1 10
    /\ DefectRegistryItem.detectedDate e' <> DefectRegistryItem.detectedDate e.
Proof.
  intros returned. eexists _, _.
  split; [reflexivity|]. split; [by vm_compute|].
  split; [exact agreeingSnapshot_agreed|].
  repeat split; by vm_compute.
Qed.

(** ** Uniqueness of the identity key *)

(** C5: when the pairs (location, defect type) of the registry passed in are
    distinct, so are those of the array returned.  Reconciling the same
    snapshot a second time, at [now2], on what the first reconciliation
    returned, gives again distinct pairs, and an entry whose pair both
    subsystems report has [now2] as its [lastDetected] (the control system
    reporting no other pair under the same key).  When [now2] is later than
    the instant [now1] of the first reconciliation, the registry held no time
    stamp later than [now1] and the control system reports at most 15
    detections, every such pair has exactly one entry after the second
    reconciliation, last detected at [now2]. *)
Theorem pairs_stay_distinct random now1 now1' now2 now2' registry leakageStatus c drawn :
  NoDup (pairOf <$> registry) ->
  let first := updateDefectRegistryWithDetections random now1 now1' registry
                 leakageStatus c drawn in
  let second := updateDefectRegistryWithDetections random now2 now2'
                  (Working.updatedRegistry first) leakageStatus
                  (Working.defectIdCounter first) (Working.drawn first) in
  let reportedByBothSubsystems p :=
    p ∈ pairOfDetection <$> controlSystemDetections leakageStatus
    /\ p ∈ pairOfDetection <$> droneDetections leakageStatus
    /\ (forall d, d ∈ controlSystemDetections leakageStatus ->
                  detectionKey d = pairKey p -> pairOfDetection d = p) in
  NoDup (pairOf <$> Working.updatedRegistry first)
  /\ NoDup (pairOf <$> Working.updatedRegistry second)
  /\ (forall e, e ∈ Working.updatedRegistry second ->
                reportedByBothSubsystems (pairOf e) ->
                DefectRegistryItem.lastDetected e = Some now2)
  /\ (now1 < now2 ->
      (forall e, e ∈ registry -> notAfter now1 e) ->
      (length (controlSystemDetections leakageStatus) <= MAX_DEFECT_REGISTRY_SIZE)%nat ->
      forall p, reportedByBothSubsystems p ->
        exists e, e ∈ Working.updatedRegistry second
                  /\ pairOf e = p
                  /\ DefectRegistryItem.lastDetected e = Some now2
                  /\ (forall e', e' ∈ Working.updatedRegistry second ->
                                 pairOf e' = p -> e' = e)).
Proof.
  intros Hnd first second reportedByBothSubsystems.
  assert (Hagreed : forall p, reportedByBothSubsystems p -> agreed leakageStatus p).
  { intros p (Hc & Hd & Hkey). apply agreed_complete; [done| |done].
    apply list_elem_of_fmap in Hd as (d & -> & Hd).
    change (pairKey (pairOfDetection d)) with (detectionKey d).
    by apply list_elem_of_fmap_2. }
  assert (Hnd1 : NoDup (pairOf <$> Working.updatedRegistry first))
    by (by apply returned_NoDup).
  assert (Hnd2 : NoDup (pairOf <$> Working.updatedRegistry second))
    by (by apply returned_NoDup).
  assert (Hlast : forall e, e ∈ Working.updatedRegistry second ->
                            agreed leakageStatus (pairOf e) ->
                            DefectRegistryItem.lastDetected e = Some now2).
  { intros e He%returned_reconciled Ha.
    by destruct (reconciled_agreed_written _ _ _ _ _ _ _ _ Hnd1 He Ha) as (Hl & _). }
  split; [exact Hnd1|]. split; [exact Hnd2|].
  split; [intros e He Hboth; apply Hlast; [done | by apply Hagreed]|].
  intros Hlater Hold Hlen p Ha%Hagreed.
  assert (Hbefore : forall e0, e0 ∈ Working.updatedRegistry first -> before now2 e0).
  { intros e0 He0 t Ht.
    pose proof (returned_notAfter _ _ _ _ _ _ _ Hold e0 He0 t Ht). lia. }
  destruct (reconciled_agreed_present random now2 now2' (Working.updatedRegistry first)
              leakageStatus (Working.defectIdCounter first) (Working.drawn first) p Ha)
    as (e & He & Hp).
  assert (He2 : e ∈ Working.updatedRegistry second).
  { apply reconciled_agreed_returned; [done..|]. by rewrite Hp. }
  exists e. split; [done|]. split; [done|]. split.
  - apply Hlast; [done|]. by rewrite Hp.
  - intros e' [i Hi]%list_elem_of_lookup Hp'. apply list_elem_of_lookup in He2 as [j Hj].
    assert (i = j) as ->; [|congruence].
    eapply NoDup_lookup; [exact Hnd2|..]; rewrite list_lookup_fmap.
    + by rewrite Hi.
    + rewrite Hj. simpl. congruence.
Qed.

(** The initial registry, and the leak of section A-B reported by both
    subsystems twice, 15 seconds apart: the entry DEF-001 of that section and
    type is last detected at the second instant, and is the only one of its
    pair. *)
Lemma pairs_stay_distinct_witness :
  let first := updateDefectRegistryWithDetections alwaysHalf
                 refreshInstant refreshInstant getInitialDefectRegistry
                 agreeingSnapshot 100%N 0 in
  let second := updateDefectRegistryWithDetections alwaysHalf
                  (refreshInstant + 15000) (refreshInstant + 15000)
                  (Working.updatedRegistry first) agreeingSnapshot
                  (Working.defectIdCounter first) (Working.drawn first) in
  let p := (Some "Section A-B", "Major/Sudden Leak") in
  NoDup (pairOf <$> getInitialDefectRegistry)
  /\ (p ∈ pairOfDetection <$> controlSystemDetections agreeingSnapshot
      /\ p ∈ pairOfDetection <$> droneDetections agreeingSnapshot
      /\ (forall d, d ∈ controlSystemDetections agreeingSnapshot ->
                    detectionKey d = pairKey p -> pairOfDetection d = p))
  /\ refreshInstant < refreshInstant + 15000
  /\ (forall e, e ∈ getInitialDefectRegistry -> notAfter refreshInstant e)
  /\ (length (controlSystemDetections agreeingSnapshot) <= MAX_DEFECT_REGISTRY_SIZE)%nat
  /\ NoDup (pairOf <$> Working.updatedRegistry first)
  /\ NoDup (pairOf <$> Working.updatedRegistry second)
  /\ exists e, e ∈ Working.updatedRegistry second
               /\ pairOf e = p
               /\ DefectRegistryItem.id e = "DEF-001"
               /\ DefectRegistryItem.lastDetected e = Some (refreshInstant + 15000)
               /\ (forall e', e' ∈ Working.updatedRegistry second ->
                              pairOf e' = p -> e' = e).
Proof.
  intros first second p.
  assert (Hboth : p ∈ pairOfDetection <$> controlSystemDetections agreeingSnapshot
            /\ p ∈ pairOfDetection <$> droneDetections agreeingSnapshot
            /\ (forall d, d ∈ controlSystemDetections agreeingSnapshot ->
                          detectionKey d = pairKey p -> pairOfDetection d = p)).
  { split; [by left|]. split; [by left|].
    intros d Hd _. apply list_elem_of_singleton in Hd. by subst d. }
  assert (Hlater : refreshInstant < refreshInstant + 15000) by lia.
  assert (Hold : forall e, e ∈ getInitialDefectRegistry -> notAfter refreshInstant e).
  { assert (Hall : Forall (notAfter refreshInstant) getInitialDefectRegistry)
      by (repeat constructor; intros t Ht; discriminate Ht).
    rewrite Forall_forall in Hall. exact Hall. }
  assert (Hlen : (length (controlSystemDetections agreeingSnapshot)
                  <= MAX_DEFECT_REGISTRY_SIZE)%nat) by (vm_compute; lia).
  destruct (pairs_stay_distinct alwaysHalf refreshInstant refreshInstant
              (refreshInstant + 15000) (refreshInstant + 15000)
              getInitialDefectRegistry agreeingSnapshot 100%N 0%nat
              getInitialDefectRegistry_NoDup)
    as (Hnd1 & Hnd2 & _ & Hpresent).
  destruct (Hpresent Hlater Hold Hlen p Hboth) as (e & He & Hp & Hl & Huniq).
  split; [exact getInitialDefectRegistry_NoDup|]. split; [exact Hboth|].
  split; [exact Hlater|]. split; [exact Hold|]. split; [exact Hlen|].
  split; [exact Hnd1|]. split; [exact Hnd2|].
  exists e. split; [exact He|]. split; [exact Hp|]. split; [|split; [exact Hl | exact Huniq]].
  assert (Hsecond : Forall (fun e' => pairOf e' = p -> DefectRegistryItem.id e' = "DEF-001")
                      (Working.updatedRegistry second)).
  { apply (bool_decide_unpack _). by vm_compute. }
  rewrite Forall_forall in Hsecond. by apply Hsecond.
Defined.

(** Scenario D of the specification: the leak of section A-B reported by both
    subsystems twice, 15 seconds apart, from the empty registry: one entry
    after both reconciliations, last detected at the second instant. *)
Example redetection_scenario :
  let first := updateDefectRegistryWithDetections alwaysHalf refreshInstant refreshInstant
                 [] agreeingSnapshot initialDefectIdCounter 0 in
  let second := updateDefectRegistryWithDetections alwaysHalf
                  (refreshInstant + 15000) (refreshInstant + 15000)
                  (Working.updatedRegistry first) agreeingSnapshot
                  (Working.defectIdCounter first) (Working.drawn first) in
  DefectRegistryItem.id <$> Working.updatedRegistry first = ["DEF-101"]
  /\ DefectRegistryItem.id <$> Working.updatedRegistry second = ["DEF-101"]
  /\ DefectRegistryItem.lastDetected <$> Working.updatedRegistry second
     = [Some (refreshInstant + 15000)]
  /\ DefectRegistryItem.status <$> Working.updatedRegistry second = [pending]
  /\ DefectRegistryItem.riskLevel <$> Working.updatedRegistry second = [Some critical].
Proof. repeat split; by vm_compute. Qed.

(** Scenario A of the specification: the leak reported by the control system
    only, from the empty registry: nothing is registered. *)
Example control_only_scenario :
  Working.updatedRegistry
    (updateDefectRegistryWithDetections alwaysHalf refreshInstant refreshInstant
       [] controlOnlySnapshot initialDefectIdCounter 0) = [].
Proof. by vm_compute. Qed.

(** ** Status assignment *)

Lemma statusForLevel_table :
  statusForLevel (Some critical) = pending
  /\ statusForLevel (Some warning) = progress
  /\ statusForLevel (Some low) = pending
  /\ statusForLevel None = pending.
Proof. by repeat split. Qed.

Lemma statusForLevel_not_resolved level : statusForLevel level <> resolved.
Proof. unfold statusForLevel. by repeat case_decide. Qed.

Lemma processDetections_classified random currentDate currentTimestamp w g :
  (forall e, e ∈ Working.updatedRegistry w -> classified e) ->
  forall e, e ∈ Working.updatedRegistry
                  (processDetections random currentDate currentTimestamp w g) ->
            classified e.
Proof.
  intros Hw e
    [Hin|[(c & d & existing & r & -> & Hex & Hp & ->)|(c & d & r & -> & ->)]]%processDetections_elem_of.
  - by apply Hw.
  - exact (Hw existing Hex).
  - by repeat split.
Qed.

Lemma returned_classified random now now' registry leakageStatus c drawn :
  (forall e, e ∈ registry -> classified e) ->
  forall e, e ∈ Working.updatedRegistry
                  (updateDefectRegistryWithDetections random now now' registry
                     leakageStatus c drawn) ->
            classified e.
Proof.
  intros Hreg e He%returned_reconciled. revert e He. unfold reconciled.
  apply (fold_left_invariant (A := Working.t)
           (fun w0 => forall e : DefectRegistryItem.t,
                        e ∈ Working.updatedRegistry w0 -> classified e)); [done|].
  intros w0 kv _ Hw0. by apply processDetections_classified.
Qed.

(** C6: the levels critical, warning and low give the statuses pending,
    progress and pending.  An entry of the array returned is an entry of the
    registry passed in, unchanged (status included), or it was created or
    updated for a processed pair and its status is the one the classifier's
    level of its defect type gives.  An entry whose pair is not processed is
    unchanged; an entry with status resolved is an unchanged entry of the
    registry passed in.  When the pairs of the registry are distinct, every
    returned entry of a processed pair has the status its level gives; when
    the risk level of every entry of the registry is the classifier's, so is
    that of every entry returned, and the status of a created or updated
    entry is the one its own [riskLevel] gives. *)
Theorem status_follows_risk_level random now now' registry leakageStatus c drawn e' :
  e' ∈ Working.updatedRegistry
         (updateDefectRegistryWithDetections random now now' registry
            leakageStatus c drawn) ->
  (statusForLevel (Some critical) = pending
   /\ statusForLevel (Some warning) = progress
   /\ statusForLevel (Some low) = pending)
  /\ (e' ∈ registry
      \/ (agreed leakageStatus (pairOf e')
          /\ DefectRegistryItem.status e'
             = statusForLevel
                 (riskInfo_level (getRiskLevel (DefectRegistryItem.defectType e')))))
  /\ (~ agreed leakageStatus (pairOf e') -> e' ∈ registry)
  /\ (DefectRegistryItem.status e' = resolved -> e' ∈ registry)
  /\ (NoDup (pairOf <$> registry) -> agreed leakageStatus (pairOf e') ->
      DefectRegistryItem.status e'
      = statusForLevel
          (riskInfo_level (getRiskLevel (DefectRegistryItem.defectType e'))))
  /\ ((forall e, e ∈ registry -> classified e) ->
      classified e'
      /\ (e' ∈ registry
          \/ DefectRegistryItem.status e'
             = statusForLevel (DefectRegistryItem.riskLevel e'))).
Proof.
  intros He'. split; [by repeat split|].
  assert (Hcases : e' ∈ registry
        \/ (agreed leakageStatus (pairOf e')
            /\ DefectRegistryItem.status e'
               = statusForLevel
                   (riskInfo_level (getRiskLevel (DefectRegistryItem.defectType e'))))).
  { pose proof (returned_reconciled _ _ _ _ _ _ _ _ He') as Hrec.
    destruct (reconciled_provenance _ _ _ _ _ _ _ _ Hrec)
      as [Hkept|e _ _ Ha (_ & _ & Hs)|c' _ _ _ Ha (_ & _ & Hs)]; [by left|by right..]. }
  split; [exact Hcases|]. split; [|split; [|split]].
  - intros Hna. by eapply returned_not_agreed.
  - intros Hres. destruct Hcases as [?|[_ Hs]]; [done|].
    rewrite Hs in Hres. by apply statusForLevel_not_resolved in Hres.
  - intros Hnd Ha. apply returned_reconciled in He'.
    by destruct (reconciled_agreed_written _ _ _ _ _ _ _ _ Hnd He' Ha) as (_ & _ & Hs).
  - intros Hreg.
    pose proof (returned_classified _ _ _ _ _ _ _ Hreg e' He') as Hcl.
    split; [exact Hcl|].
    destruct Hcases as [?|[_ Hs]]; [by left|right].
    destruct Hcl as [-> _]. exact Hs.
Qed.

(** The entry of the initial registry for the leak of section A-B, resolved,
    re-detected by both subsystems: it is returned with status pending. *)
Lemma status_follows_risk_level_witness :
  let registry := getInitialDefectRegistry in
  let e' := DefectRegistryItem.mk "DEF-001" "Major/Sudden Leak" (Some "Section A-B")
              (Some critical) (Some "Critical") (Some "游댮")
              (isoDate 2025 1 10) (Some refreshInstant) pending
              "High pressure drop" "PT" "Detection of gas cloud" "Spectroscopic sensor"
              90 in
  e' ∈ Working.updatedRegistry
         (updateDefectRegistryWithDetections alwaysHalf refreshInstant refreshInstant
            registry agreeingSnapshot 100%N 0)
  /\ (statusForLevel (Some critical) = pending
      /\ statusForLevel (Some warning) = progress
      /\ statusForLevel (Some low) = pending)
  /\ (e' ∈ registry
      \/ (agreed agreeingSnapshot (pairOf e')
          /\ DefectRegistryItem.status e'
             = statusForLevel
                 (riskInfo_level (getRiskLevel (DefectRegistryItem.defectType e')))))
  /\ (~ agreed agreeingSnapshot (pairOf e') -> e' ∈ registry)
  /\ (DefectRegistryItem.status e' = resolved -> e' ∈ registry)
  /\ (NoDup (pairOf <$> registry) -> agreed agreeingSnapshot (pairOf e') ->
      DefectRegistryItem.status e'
      = statusForLevel
          (riskInfo_level (getRiskLevel (DefectRegistryItem.defectType e'))))
  /\ ((forall e, e ∈ registry -> classified e) ->
      classified e'
      /\ (e' ∈ registry
          \/ DefectRegistryItem.status e'
             = statusForLevel (DefectRegistryItem.riskLevel e'))).
Proof.
  intros registry e'.
  assert (He' : e' ∈ Working.updatedRegistry
                  (updateDefectRegistryWithDetections alwaysHalf refreshInstant
                     refreshInstant registry agreeingSnapshot 100%N 0)).
  { apply (bool_decide_unpack _). by vm_compute. }
  split; [exact He'|].
  exact (status_follows_risk_level alwaysHalf refreshInstant refreshInstant
           registry agreeingSnapshot 100%N 0%nat e' He').
Defined.

(** * Further properties *)

(** ** Confidence of the entries a reconciliation writes *)

Lemma confidenceOf_range r :
  (0 <= r)%Q -> (r < 1)%Q -> 85 <= confidenceOf r <= 94.
Proof.
  intros H0 H1. unfold confidenceOf.
  pose proof (floorTimes_lt r 10 H0 H1). lia.
Qed.

Lemma processDetections_elem_of_draw random currentDate currentTimestamp w g e' :
  e' ∈ Working.updatedRegistry (processDetections random currentDate currentTimestamp w g) ->
  e' ∈ Working.updatedRegistry w
  \/ DefectRegistryItem.aiConfidence e' = confidenceOf (random (Working.drawn w)).
Proof.
  destruct (processDetections_inv random currentDate currentTimestamp w g)
    as [[_ ->]|[(c & d & i & existing & -> & Hi & Hp & _ & ->)|(c & d & -> & _ & ->)]];
    simpl; [by left|..].
  - intros [->|Hin]%elem_of_list_insert_inv; [by right|by left].
  - intros [Hin|Hin]%elem_of_app; [by left|].
    apply list_elem_of_singleton in Hin as ->. by right.
Qed.

(** X1: whatever [Math.random()] draws, an entry of the array returned that is
    not an unchanged entry of the registry passed in has an [aiConfidence]
    between 85 and 94: the cap [Math.min(99, ...)] is never reached. *)
Theorem written_confidence_range random now now' registry leakageStatus c drawn e' :
  unitInterval random ->
  e' ∈ Working.updatedRegistry
         (updateDefectRegistryWithDetections random now now' registry leakageStatus c drawn) ->
  e' ∈ registry \/ 85 <= DefectRegistryItem.aiConfidence e' <= 94.
Proof.
  intros Hunit He'%returned_reconciled. revert e' He'. unfold reconciled.
  apply (fold_left_invariant (A := Working.t)
           (fun w0 => forall e' : DefectRegistryItem.t,
                        e' ∈ Working.updatedRegistry w0 ->
                        e' ∈ registry \/ 85 <= DefectRegistryItem.aiConfidence e' <= 94));
    [by left|].
  intros w0 kv _ Hw0 e' [Hin|Hconf]%processDetections_elem_of_draw; [by apply Hw0|].
  right. rewrite Hconf. apply confidenceOf_range; apply Hunit.
Qed.

Lemma written_confidence_range_witness :
  let e' := DefectRegistryItem.mk "DEF-001" "Major/Sudden Leak" (Some "Section A-B")
              (Some critical) (Some "Critical") (Some "游댮")
              (isoDate 2025 1 10) (Some refreshInstant) pending
              "High pressure drop" "PT" "Detection of gas cloud" "Spectroscopic sensor"
              90 in
  unitInterval alwaysHalf
  /\ e' ∈ Working.updatedRegistry
           (updateDefectRegistryWithDetections alwaysHalf refreshInstant refreshInstant
              getInitialDefectRegistry agreeingSnapshot 100%N 0)
  /\ (e' ∈ getInitialDefectRegistry \/ 85 <= DefectRegistryItem.aiConfidence e' <= 94).
Proof.
  intros e'.
  assert (He' : e' ∈ Working.updatedRegistry
                  (updateDefectRegistryWithDetections alwaysHalf refreshInstant
                     refreshInstant getInitialDefectRegistry agreeingSnapshot 100%N 0)).
  { apply (bool_decide_unpack _). by vm_compute. }
  split; [exact alwaysHalf_unitInterval|]. split; [exact He'|].
  exact (written_confidence_range alwaysHalf refreshInstant refreshInstant
           getInitialDefectRegistry agreeingSnapshot 100%N 0%nat e'
           alwaysHalf_unitInterval He').
Defined.

(** ** A snapshot the subsystems do not agree on *)

Lemma fold_left_id {A B} (f : A -> B -> A) l a :
  (forall b, b ∈ l -> forall a, f a b = a) -> fold_left f l a = a.
Proof.
  revert a. induction l as [|b l IH]; intros a Hf; simpl; [done|].
  rewrite Hf by (apply elem_of_cons; by left).
  apply IH. intros b' Hb'. apply Hf. apply elem_of_cons; by right.
Qed.

Lemma disjoint_keys_not_agreed leakageStatus :
  (forall c d, c ∈ controlSystemDetections leakageStatus ->
               d ∈ droneDetections leakageStatus ->
               detectionKey c <> detectionKey d) ->
  forall p, ~ agreed leakageStatus p.
Proof.
  intros Hdisj p (_ & (c & Hc & Hcin)%list_elem_of_fmap & (d & Hd & Hdin)%list_elem_of_fmap)%agreed_sound.
  apply (Hdisj c d Hcin Hdin). congruence.
Qed.

Lemma reconciled_nothing_agreed random now now' registry leakageStatus c drawn :
  (forall p, ~ agreed leakageStatus p) ->
  reconciled random now now' registry leakageStatus c drawn = Working.mk registry c drawn.
Proof.
  intros Hna. unfold reconciled. apply fold_left_id.
  intros [k [[cd|] [dd|]]] Hin w; try done.
  exfalso. apply (Hna (pairOfDetection cd)). by exists k, cd, dd.
Qed.

(** X2: when no detection of the control system has the key of a detection of
    the drone (in particular when either list is empty), the reconciliation
    only sorts and cuts: it returns the registry passed in, sorted and cut to
    15 entries, allocates no identifier and draws no random number. *)
Theorem disagreement_only_sorts random now now' registry leakageStatus c drawn :
  (forall cd dd, cd ∈ controlSystemDetections leakageStatus ->
                 dd ∈ droneDetections leakageStatus ->
                 detectionKey cd <> detectionKey dd) ->
  updateDefectRegistryWithDetections random now now' registry leakageStatus c drawn
  = Working.mk (take MAX_DEFECT_REGISTRY_SIZE (sort compareDefects registry)) c drawn.
Proof.
  intros Hdisj. pose proof (disjoint_keys_not_agreed _ Hdisj) as Hna.
  pose proof (updateDefectRegistryWithDetections_take random now now' registry
                leakageStatus c drawn) as Htake.
  pose proof (reconciled_nothing_agreed random now now' registry leakageStatus c drawn Hna)
    as Hrec.
  rewrite Hrec in Htake. simpl in Htake.
  unfold updateDefectRegistryWithDetections in *. rewrite Hrec in *. simpl in *.
  by rewrite Htake.
Qed.

Lemma disagreement_only_sorts_witness :
  (forall cd dd, cd ∈ controlSystemDetections controlOnlySnapshot ->
                 dd ∈ droneDetections controlOnlySnapshot ->
                 detectionKey cd <> detectionKey dd)
  /\ updateDefectRegistryWithDetections alwaysHalf refreshInstant refreshInstant
       getInitialDefectRegistry controlOnlySnapshot 100%N 0
     = Working.mk (take MAX_DEFECT_REGISTRY_SIZE
                     (sort compareDefects getInitialDefectRegistry)) 100%N 0%nat.
Proof.
  assert (H : forall cd dd, cd ∈ controlSystemDetections controlOnlySnapshot ->
                 dd ∈ droneDetections controlOnlySnapshot ->
                 detectionKey cd <> detectionKey dd).
  { intros cd dd _ Hdd. by apply elem_of_nil in Hdd. }
  split; [exact H|].
  exact (disagreement_only_sorts alwaysHalf refreshInstant refreshInstant
           getInitialDefectRegistry controlOnlySnapshot 100%N 0%nat H).
Defined.

(** ** Reconciling what a reconciliation returned *)

Lemma sort_sorted {A} (compareFn : A -> A -> Z) l :
  StronglySorted (fun a b => compareFn a b <= 0) l -> sort compareFn l = l.
Proof.
  induction 1 as [|a l Hl IH Ha]; simpl; [done|].
  rewrite IH. destruct l as [|b l]; simpl; [done|].
  apply Forall_cons in Ha as [Hab _].
  by rewrite (proj2 (Z.leb_le _ _) Hab).
Qed.

Lemma returned_sorted random now now' registry leakageStatus c drawn :
  StronglySorted (fun a b => compareDefects a b <= 0)
    (Working.updatedRegistry
       (updateDefectRegistryWithDetections random now now' registry leakageStatus c drawn)).
Proof.
  rewrite updateDefectRegistryWithDetections_take.
  apply StronglySorted_take, sort_StronglySorted;
    [exact compareDefects_total | exact compareDefects_trans].
Qed.

(** X3: a registry that [updateDefectRegistryWithDetections] returned comes
    back exactly as it is, entry for entry and in the same order, from a
    reconciliation with a snapshot the subsystems do not agree on, whatever
    the time of that reconciliation. *)
Theorem returned_registry_is_stable
    random now1 now1' now2 now2' registry first second c drawn :
  (forall cd dd, cd ∈ controlSystemDetections second ->
                 dd ∈ droneDetections second ->
                 detectionKey cd <> detectionKey dd) ->
  let w := updateDefectRegistryWithDetections random now1 now1' registry first c drawn in
  updateDefectRegistryWithDetections random now2 now2' (Working.updatedRegistry w) second
    (Working.defectIdCounter w) (Working.drawn w)
  = w.
Proof.
  intros Hdisj w. rewrite disagreement_only_sorts by done.
  rewrite sort_sorted by apply returned_sorted.
  rewrite take_ge; [by destruct w|].
  unfold w. rewrite updateDefectRegistryWithDetections_take, length_take. lia.
Qed.

Lemma returned_registry_is_stable_witness :
  (forall cd dd, cd ∈ controlSystemDetections controlOnlySnapshot ->
                 dd ∈ droneDetections controlOnlySnapshot ->
                 detectionKey cd <> detectionKey dd)
  /\ let w := updateDefectRegistryWithDetections alwaysHalf refreshInstant refreshInstant
                getInitialDefectRegistry agreeingSnapshot 100%N 0 in
     updateDefectRegistryWithDetections alwaysHalf
       (refreshInstant + 15000) (refreshInstant + 15000)
       (Working.updatedRegistry w) controlOnlySnapshot
       (Working.defectIdCounter w) (Working.drawn w)
     = w.
Proof.
  assert (H : forall cd dd, cd ∈ controlSystemDetections controlOnlySnapshot ->
                 dd ∈ droneDetections controlOnlySnapshot ->
                 detectionKey cd <> detectionKey dd).
  { intros cd dd _ Hdd. by apply elem_of_nil in Hdd. }
  split; [exact H|].
  exact (returned_registry_is_stable alwaysHalf refreshInstant refreshInstant
           (refreshInstant + 15000) (refreshInstant + 15000)
           getInitialDefectRegistry agreeingSnapshot controlOnlySnapshot 100%N 0%nat H).
Defined.

(** ** What the truncation drops *)

(** X4: the array returned is the beginning of the sorted array, and what the
    truncation drops is the rest of it: together they hold exactly the entries
    of the reconciled array, and every entry returned is in registry order
    before every entry dropped (nothing newer is dropped for something
    older). *)
Theorem truncation_drops_the_last random now now' registry leakageStatus c drawn :
  let w := reconciled random now now' registry leakageStatus c drawn in
  let sorted := sort compareDefects (Working.updatedRegistry w) in
  let returned := Working.updatedRegistry
    (updateDefectRegistryWithDetections random now now' registry leakageStatus c drawn) in
  let dropped := drop MAX_DEFECT_REGISTRY_SIZE sorted in
  returned ++ dropped = sorted
  /\ returned ++ dropped ≡ₚ Working.updatedRegistry w
  /\ length returned = Nat.min MAX_DEFECT_REGISTRY_SIZE (length (Working.updatedRegistry w))
  /\ (forall r d, r ∈ returned -> d ∈ dropped -> inRegistryOrder r d).
Proof.
  intros w sorted returned dropped.
  assert (Hret : returned = take MAX_DEFECT_REGISTRY_SIZE sorted).
  { unfold returned. by rewrite updateDefectRegistryWithDetections_take. }
  assert (Happ : returned ++ dropped = sorted).
  { rewrite Hret. apply take_drop. }
  split; [exact Happ|]. split; [|split].
  - rewrite Happ. apply sort_Permutation.
  - rewrite Hret, length_take. unfold sorted. by rewrite length_sort.
  - intros r d Hr Hd.
    eapply (StronglySorted_app_1_elem_of inRegistryOrder returned dropped); [|done..].
    rewrite Happ. apply sort_compareDefects_ordered.
Qed.

(** ** Identifiers and draws a reconciliation uses *)

Lemma map_assign_keys f key m : (map_assign f key m).*1 = m.*1.
Proof.
  induction m as [|[k v] m IH]; simpl; [done|].
  destruct (String.eqb k key); simpl; [done|]. f_equal. exact IH.
Qed.

Lemma map_has_elem_of key (m : LocationDefectMap) : map_has key m = true <-> key ∈ m.*1.
Proof.
  induction m as [|[k v] m IH]; simpl.
  - split; [done|]. intros H. by apply elem_of_nil in H.
  - rewrite elem_of_cons. destruct (String.eqb_spec k key) as [->|Hne]; simpl.
    + split; [by left|done].
    + rewrite IH. split; [by right|]. intros [Heq|?]; [|done].
      simpl in Heq. by subst.
Qed.

Lemma ensure_keys_NoDup key (m : LocationDefectMap) :
  NoDup m.*1 ->
  NoDup (if negb (map_has key m) then map_set_new key (Grouped.mk None None) m else m).*1.
Proof.
  intros Hnd. destruct (map_has key m) eqn:Hhas; simpl; [done|].
  unfold map_set_new. rewrite fmap_app. apply NoDup_app. split; [done|].
  split; [|apply NoDup_singleton].
  intros k Hk Hk'. apply list_elem_of_singleton in Hk'. simpl in Hk'. subst k.
  apply map_has_elem_of in Hk. congruence.
Qed.

Lemma groupDetections_keys_NoDup leakageStatus : NoDup (groupDetections leakageStatus).*1.
Proof.
  unfold groupDetections.
  apply (fold_left_invariant (fun m : LocationDefectMap => NoDup m.*1)).
  - apply (fold_left_invariant (fun m : LocationDefectMap => NoDup m.*1));
      [constructor|].
    intros m d _ Hm. unfold addControlSystemDetection.
    rewrite map_assign_keys. by apply ensure_keys_NoDup.
  - intros m d _ Hm. unfold addDroneDetection.
    rewrite map_assign_keys. by apply ensure_keys_NoDup.
Qed.

Lemma processedCount_le leakageStatus :
  (processedCount leakageStatus
   <= Nat.min (length (controlSystemDetections leakageStatus))
              (length (droneDetections leakageStatus)))%nat.
Proof.
  unfold processedCount.
  set (both := filter (fun kv : string * Grouped.t => bothPresent (snd kv) = true)
                 (groupDetections leakageStatus)).
  assert (Hnd : NoDup both.*1).
  { eapply sublist_NoDup; [apply groupDetections_keys_NoDup|].
    apply fmap_sublist, sublist_filter. }
  assert (Hin : forall k, k ∈ both.*1 ->
            k ∈ detectionKey <$> controlSystemDetections leakageStatus
            /\ k ∈ detectionKey <$> droneDetections leakageStatus).
  { intros k ([k' g] & -> & Hkg)%list_elem_of_fmap.
    apply list_elem_of_filter in Hkg as [Hboth Hkg]. simpl in *.
    destruct (groupDetections_groupedFrom leakageStatus _ _ Hkg) as [Hc Hd].
    unfold bothPresent in Hboth.
    destruct (Grouped.controlSystem g) as [cd|] eqn:Hcd; [|done].
    destruct (Grouped.drone g) as [dd|] eqn:Hdd; [|done].
    destruct (Hc cd eq_refl) as [? <-]. destruct (Hd dd eq_refl) as [? Hk].
    split; [by apply list_elem_of_fmap_2|]. rewrite <- Hk at 1.
    rewrite Hk, <- Hk. by apply list_elem_of_fmap_2. }
  assert (Hc : (length both.*1 <= length (detectionKey <$> controlSystemDetections leakageStatus))%nat).
  { apply submseteq_length, NoDup_submseteq; [done|]. intros k Hk. by apply Hin. }
  assert (Hd : (length both.*1 <= length (detectionKey <$> droneDetections leakageStatus))%nat).
  { apply submseteq_length, NoDup_submseteq; [done|]. intros k Hk. by apply Hin. }
  rewrite !length_fmap in *. lia.
Qed.

Lemma processDetections_accounting random currentDate currentTimestamp w g :
  let w' := processDetections random currentDate currentTimestamp w g in
  Working.drawn w' = (Working.drawn w + if bothPresent g then 1 else 0)%nat
  /\ (length (Working.updatedRegistry w') + N.to_nat (Working.defectIdCounter w)
      = length (Working.updatedRegistry w) + N.to_nat (Working.defectIdCounter w'))%nat
  /\ (length (Working.updatedRegistry w) <= length (Working.updatedRegistry w')
      <= length (Working.updatedRegistry w) + if bothPresent g then 1 else 0)%nat.
Proof.
  intros w'. unfold w'.
  destruct (processDetections_inv random currentDate currentTimestamp w g)
    as [[Hnone ->]|[(c & d & i & existing & -> & Hi & Hp & _ & ->)|(c & d & -> & _ & ->)]];
    simpl.
  - unfold bothPresent. destruct Hnone as [->| ->];
      [|destruct (Grouped.controlSystem g)]; lia.
  - rewrite length_insert. lia.
  - rewrite length_app. simpl. lia.
Qed.

(** X5: a reconciliation draws one random number for each value of the map it
    processes and none else; these are at most as many as the detections of
    either subsystem.  It allocates one identifier for each entry by which the
    array grows, so the array grows by at most the number of processed values,
    and the counter advances by exactly the growth. *)
Theorem reconciliation_accounting random now now' registry leakageStatus c drawn :
  let w := reconciled random now now' registry leakageStatus c drawn in
  let result := updateDefectRegistryWithDetections random now now' registry
                  leakageStatus c drawn in
  Working.drawn result = (drawn + processedCount leakageStatus)%nat
  /\ (processedCount leakageStatus
      <= Nat.min (length (controlSystemDetections leakageStatus))
                 (length (droneDetections leakageStatus)))%nat
  /\ (length registry <= length (Working.updatedRegistry w)
      <= length registry + processedCount leakageStatus)%nat
  /\ Working.defectIdCounter result
     = (c + N.of_nat (length (Working.updatedRegistry w) - length registry))%N.
Proof.
  intros w result.
  assert (Hfold : forall m w0,
    let w1 := fold_left
                (fun w kv => processDetections random (isoDay now') now w (snd kv)) m w0 in
    let n := length (filter (fun kv : string * Grouped.t => bothPresent (snd kv) = true) m) in
    Working.drawn w1 = (Working.drawn w0 + n)%nat
    /\ (length (Working.updatedRegistry w1) + N.to_nat (Working.defectIdCounter w0)
        = length (Working.updatedRegistry w0) + N.to_nat (Working.defectIdCounter w1))%nat
    /\ (length (Working.updatedRegistry w0) <= length (Working.updatedRegistry w1)
        <= length (Working.updatedRegistry w0) + n)%nat).
  { induction m as [|[k g] m IH]; intros w0; simpl; [lia|].
    specialize (IH (processDetections random (isoDay now') now w0 g)).
    pose proof (processDetections_accounting random (isoDay now') now w0 g) as Hstep.
    simpl in *. rewrite filter_cons. simpl.
    destruct (decide (bothPresent g = true)) as [Hb|Hb].
    - rewrite Hb in Hstep. simpl. lia.
    - apply not_true_is_false in Hb. rewrite Hb in Hstep. lia. }
  specialize (Hfold (groupDetections leakageStatus) (Working.mk registry c drawn)).
  simpl in Hfold. fold (processedCount leakageStatus) in Hfold.
  change (fold_left _ _ _) with w in Hfold.
  destruct Hfold as (Hd & Hc & Hl).
  split; [exact Hd|]. split; [apply processedCount_le|]. split; [exact Hl|].
  change (Working.defectIdCounter result) with (Working.defectIdCounter w). lia.
Qed.

(** ** Distinct identifiers *)

Lemma processDetections_idsAllocated random currentDate currentTimestamp w g :
  idsAllocated (Working.defectIdCounter w) (Working.updatedRegistry w) ->
  let w' := processDetections random currentDate currentTimestamp w g in
  idsAllocated (Working.defectIdCounter w') (Working.updatedRegistry w').
Proof.
  intros [Hnd Hnum] w'. unfold w'.
  destruct (processDetections_inv random currentDate currentTimestamp w g)
    as [[_ ->]|[(c & d & i & existing & -> & Hi & Hp & _ & ->)|(c & d & -> & _ & ->)]];
    simpl; [done|..].
  - split.
    + rewrite list_fmap_insert. rewrite list_insert_id; [done|].
      by rewrite list_lookup_fmap, Hi.
    + intros e [->|He]%elem_of_list_insert_inv; [|by apply Hnum].
      apply (Hnum existing). by eapply list_elem_of_lookup_2.
  - split.
    + rewrite fmap_app. apply NoDup_app. split; [done|].
      split; [|apply NoDup_singleton].
      intros id (e & -> & He)%list_elem_of_fmap Hid. simpl in Hid.
      apply list_elem_of_singleton in Hid.
      destruct (Hnum e He) as (n & Hn & Hle).
      rewrite Hid in Hn.
      change (idNumber (fst (generateDefectId (Working.defectIdCounter w))) = Some n) in Hn.
      rewrite idNumber_generateDefectId in Hn. injection Hn as <-. lia.
    + intros e [He|He]%elem_of_app.
      * destruct (Hnum e He) as (n & Hn & Hle). exists n. split; [done|lia].
      * apply list_elem_of_singleton in He as ->. simpl.
        exists (N.succ (Working.defectIdCounter w)). split; [|lia].
        apply (idNumber_generateDefectId (Working.defectIdCounter w)).
Qed.

Lemma returned_idsAllocated random now now' registry leakageStatus c drawn :
  idsAllocated c registry ->
  let w := updateDefectRegistryWithDetections random now now' registry leakageStatus c drawn in
  idsAllocated (Working.defectIdCounter w) (Working.updatedRegistry w).
Proof.
  intros Hreg w.
  assert (Hrec : idsAllocated
            (Working.defectIdCounter (reconciled random now now' registry leakageStatus c drawn))
            (Working.updatedRegistry (reconciled random now now' registry leakageStatus c drawn))).
  { unfold reconciled.
    apply (fold_left_invariant (A := Working.t)
             (fun w0 => idsAllocated (Working.defectIdCounter w0) (Working.updatedRegistry w0)));
      [done|].
    intros w0 kv _ Hw0. by apply processDetections_idsAllocated. }
  destruct Hrec as [Hnd Hnum]. split.
  - unfold w. rewrite updateDefectRegistryWithDetections_take, fmap_take.
    eapply sublist_NoDup; [|apply sublist_take]. by rewrite sort_Permutation.
  - intros e He%returned_reconciled. by apply Hnum.
Qed.

Lemma getInitialDefectRegistry_idsAllocated :
  idsAllocated initialDefectIdCounter getInitialDefectRegistry.
Proof.
  split; [apply (bool_decide_unpack _); by vm_compute|].
  assert (Hall : Forall (fun e => exists n, idNumber (DefectRegistryItem.id e) = Some n
                                            /\ (n <= initialDefectIdCounter)%N)
                   getInitialDefectRegistry).
  { repeat constructor; eexists; (split; [reflexivity | done]). }
  rewrite Forall_forall in Hall. exact Hall.
Qed.

(** X6: when the identifiers of the registry are distinct and each is [DEF-]
    followed by a number the counter has reached, the same holds after any
    sequence of reconciliations: no two entries of the registry ever have the
    same identifier, whatever was created, updated or dropped in between. *)
Theorem identifiers_stay_distinct random refreshes w :
  idsAllocated (Working.defectIdCounter w) (Working.updatedRegistry w) ->
  let w' := reconcileAll random refreshes w in
  idsAllocated (Working.defectIdCounter w') (Working.updatedRegistry w')
  /\ NoDup (DefectRegistryItem.id <$> Working.updatedRegistry w').
Proof.
  intros Hw w'.
  cut (idsAllocated (Working.defectIdCounter w') (Working.updatedRegistry w'));
    [intros H; split; [exact H | apply H]|].
  unfold w', reconcileAll. clear w'. revert w Hw.
  induction refreshes as [|r refreshes IH]; intros w Hw; simpl; [done|].
  apply IH. by apply returned_idsAllocated.
Qed.

Lemma identifiers_stay_distinct_witness :
  let w := Working.mk getInitialDefectRegistry initialDefectIdCounter 0 in
  let refreshes := [ Refresh.mk refreshInstant refreshInstant threeNewDefectsSnapshot;
                     Refresh.mk (refreshInstant + 15000) (refreshInstant + 15000)
                       truncatingSnapshot ] in
  idsAllocated (Working.defectIdCounter w) (Working.updatedRegistry w)
  /\ let w' := reconcileAll alwaysHalf refreshes w in
     idsAllocated (Working.defectIdCounter w') (Working.updatedRegistry w')
     /\ NoDup (DefectRegistryItem.id <$> Working.updatedRegistry w').
Proof.
  intros w refreshes. split; [exact getInitialDefectRegistry_idsAllocated|].
  exact (identifiers_stay_distinct alwaysHalf refreshes w
           getInitialDefectRegistry_idsAllocated).
Defined.

(** ** The generator's detections *)

Lemma generateLeakage_fromScenario random pos :
  unitInterval random ->
  exists c d, generateLeakage random pos = Some (c, d) /\ fromScenario c d.
Proof.
  intros Hunit. unfold generateLeakage.
  destruct (lookup_lt_is_Some_2 defectsWithBothSystems
              (floorTimes (random pos) (length defectsWithBothSystems))) as [sc Hsc].
  { apply floorTimes_lt; [apply Hunit..|]. vm_compute. lia. }
  rewrite Hsc. simpl.
  assert (Hin : sc ∈ defectsWithBothSystems) by (eapply list_elem_of_lookup_2; done).
  destruct (defectsWithBothSystems_spec sc Hin) as (_ & Hcs & Hdr & _).
  destruct (lookup_lt_is_Some_2 locations
              (floorTimes (random (pos + 1)%nat) (length locations))) as [l Hl].
  { apply floorTimes_lt; [apply Hunit..|]. vm_compute. lia. }
  destruct (lookup_lt_is_Some_2 (Scenario.controlSystem sc)
              (floorTimes (random (pos + 2)%nat) (length (Scenario.controlSystem sc))))
    as [cs Hcsl].
  { apply floorTimes_lt; [apply Hunit..|].
    destruct (Scenario.controlSystem sc); [done | simpl; lia]. }
  destruct (lookup_lt_is_Some_2 (Scenario.drone sc)
              (floorTimes (random (pos + 3)%nat) (length (Scenario.drone sc))))
    as [dr Hdrl].
  { apply floorTimes_lt; [apply Hunit..|].
    destruct (Scenario.drone sc); [done | simpl; lia]. }
  simpl in Hl. rewrite Hcsl, Hdrl, Hl. simpl.
  eexists _, _. split; [reflexivity|].
  exists sc, cs, dr, l.
  repeat split; try done; by eapply list_elem_of_lookup_2.
Qed.

Lemma generateLeakages_fromScenario random n pos cs0 ds0 :
  unitInterval random ->
  exists cs ds,
    generateLeakages random n pos cs0 ds0 = Some (cs0 ++ cs, ds0 ++ ds, (pos + 4 * n)%nat)
    /\ length cs = n /\ Forall2 fromScenario cs ds.
Proof.
  intros Hunit. revert pos cs0 ds0.
  induction n as [|n IH]; intros pos cs0 ds0; simpl.
  - exists [], []. rewrite !app_nil_r. replace (pos + 0)%nat with pos by lia.
    repeat split; constructor.
  - destruct (generateLeakage_fromScenario random pos Hunit) as (c & d & -> & Hcd).
    simpl.
    destruct (IH (pos + 4)%nat (cs0 ++ [c]) (ds0 ++ [d])) as (cs & ds & -> & Hlc & Hall).
    exists (c :: cs), (d :: ds). rewrite <- !app_assoc. simpl.
    split; [do 2 f_equal; lia|]. split; [lia | by constructor].
Qed.

Lemma generateLeakageStatus_fromScenario random pos :
  unitInterval random ->
  exists snapshot pos',
    generateLeakageStatus random pos = Some (snapshot, pos')
    /\ Forall2 fromScenario (controlSystemDetections snapshot) (droneDetections snapshot)
    /\ (length (controlSystemDetections snapshot) <= 3)%nat
    /\ pos' = if Qle_bool (random pos) double_0_2 then S pos
              else (pos + 2 + 4 * length (controlSystemDetections snapshot))%nat.
Proof.
  intros Hunit. unfold generateLeakageStatus.
  destruct (Qle_bool (random pos) double_0_2) eqn:Hdraw; simpl.
  - eexists _, _. split; [reflexivity|]. simpl.
    repeat split; [constructor | unfold controlSystemDetections; simpl; lia].
  - set (numLeakages := (floorTimes (random (S pos)) 3 + 1)%nat).
    assert (Hnum : (1 <= numLeakages <= 3)%nat).
    { pose proof (floorTimes_lt (random (S pos)) 3) as Hlt.
      destruct (Hunit (S pos)) as [H0 H1]. specialize (Hlt H0 H1).
      unfold numLeakages. lia. }
    destruct (generateLeakages_fromScenario random numLeakages (S (S pos)) [] [] Hunit)
      as (cs & ds & -> & Hlc & Hall).
    simpl. eexists _, _. split; [reflexivity|].
    unfold controlSystemDetections, droneDetections. simpl.
    repeat split; [done | lia | rewrite Hlc; lia].
Qed.

(** At the double 0.2 itself the comparison [Math.random() > 0.2] is false:
    one draw is read and the snapshot is empty; at the next double up it is
    true. *)
Example generateLeakageStatus_at_double_0_2 pos :
  generateLeakageStatus (fun _ => double_0_2) pos
  = Some (LeakageDetection.mk (Subsystem.mk ok []) (Subsystem.mk ok []) 0, S pos)
  /\ (1 # 5 < double_0_2)%Q
  /\ exists snapshot,
       generateLeakageStatus (fun _ => 3602879701896398 # 18014398509481984) pos
       = Some (snapshot, (pos + 6)%nat)
       /\ length (controlSystemDetections snapshot) = 1%nat.
Proof.
  split; [reflexivity|]. split; [reflexivity|].
  eexists. split.
  - unfold generateLeakageStatus. simpl.
    replace (S (S (pos + 4))) with (pos + 6)%nat by lia. reflexivity.
  - reflexivity.
Qed.

(** X7: whatever [Math.random()] draws, the detections [generateLeakageStatus]
    returns are, position by position, built from one scenario with signatures
    of both subsystems: the control system detection has the sign and source
    of one of the scenario's control system signatures, the drone detection
    those of one of its drone signatures, and both have the same location, one
    of the seven of the list (never [undefined]).  The call reads one draw
    when the first is at most the double 0.2, and two and four for each pair of
    detections otherwise. *)
Theorem generated_detections_from_scenarios random pos :
  unitInterval random ->
  exists snapshot pos',
    generateLeakageStatus random pos = Some (snapshot, pos')
    /\ Forall2 fromScenario (controlSystemDetections snapshot) (droneDetections snapshot)
    /\ pos' = if Qle_bool (random pos) double_0_2 then S pos
              else (pos + 2 + 4 * length (controlSystemDetections snapshot))%nat.
Proof.
  intros Hunit.
  destruct (generateLeakageStatus_fromScenario random pos Hunit)
    as (snapshot & pos' & Hgen & Hall & _ & Hpos).
  by exists snapshot, pos'.
Qed.

Lemma generated_detections_from_scenarios_witness :
  unitInterval alwaysHalf
  /\ exists snapshot pos',
       generateLeakageStatus alwaysHalf 0 = Some (snapshot, pos')
       /\ Forall2 fromScenario (controlSystemDetections snapshot) (droneDetections snapshot)
       /\ pos' = if Qle_bool (alwaysHalf 0%nat) double_0_2 then 1%nat
                 else (0 + 2 + 4 * length (controlSystemDetections snapshot))%nat.
Proof.
  split; [exact alwaysHalf_unitInterval|].
  exact (generated_detections_from_scenarios alwaysHalf 0 alwaysHalf_unitInterval).
Defined.

(** ** A generated snapshot, reconciled *)

Lemma fromScenario_generatedPairs c d :
  fromScenario c d ->
  pairOfDetection c ∈ generatedPairs /\ pairOfDetection d = pairOfDetection c.
Proof.
  intros (sc & cs & ds & l & Hsc & _ & _ & Hl & -> & ->). split; [|done].
  unfold generatedPairs, pairOfDetection.
  cbn [DefectDetection.location DefectDetection.defectType].
  apply list_elem_of_bind. exists l. split; [|done].
  apply list_elem_of_bind. exists sc. split; [|done].
  by apply list_elem_of_singleton.
Qed.

Lemma pairKey_generatedPairs_inj p q :
  p ∈ generatedPairs -> q ∈ generatedPairs -> pairKey p = pairKey q -> p = q.
Proof.
  assert (Hall : Forall (fun p => Forall (fun q => pairKey p = pairKey q -> p = q)
                                    generatedPairs) generatedPairs).
  { apply (bool_decide_unpack _). by vm_compute. }
  rewrite Forall_forall in Hall. intros Hp Hq.
  specialize (Hall p Hp). rewrite Forall_forall in Hall. by apply Hall.
Qed.

Lemma generated_agreed snapshot :
  Forall2 fromScenario (controlSystemDetections snapshot) (droneDetections snapshot) ->
  forall cd, cd ∈ controlSystemDetections snapshot \/ cd ∈ droneDetections snapshot ->
    agreed snapshot (pairOfDetection cd).
Proof.
  intros Hall.
  assert (Hcs : forall c, c ∈ controlSystemDetections snapshot ->
            pairOfDetection c ∈ generatedPairs
            /\ detectionKey c ∈ detectionKey <$> droneDetections snapshot).
  { intros c Hc. apply list_elem_of_lookup_1 in Hc as [i Hi].
    destruct (Forall2_lookup_l _ _ _ _ _ Hall Hi) as (d & Hd & Hcd).
    apply fromScenario_generatedPairs in Hcd as [Hp Heq]. split; [done|].
    change (detectionKey c) with (pairKey (pairOfDetection c)). rewrite <- Heq.
    change (pairKey (pairOfDetection d)) with (detectionKey d).
    apply list_elem_of_fmap_2. by eapply list_elem_of_lookup_2. }
  assert (Hagree : forall c, c ∈ controlSystemDetections snapshot ->
            agreed snapshot (pairOfDetection c)).
  { intros c Hc. destruct (Hcs c Hc) as [Hp Hk].
    apply agreed_complete; [by apply list_elem_of_fmap_2 | exact Hk |].
    intros c' Hc' Hkey. destruct (Hcs c' Hc') as [Hp' _].
    by apply pairKey_generatedPairs_inj. }
  intros cd [Hc|Hd]; [by apply Hagree|].
  apply list_elem_of_lookup_1 in Hd as [i Hi].
  destruct (Forall2_lookup_r _ _ _ _ _ Hall Hi) as (c & Hc & Hcd).
  apply fromScenario_generatedPairs in Hcd as [_ ->].
  apply Hagree. by eapply list_elem_of_lookup_2.
Qed.

(** X8: a snapshot [generateLeakageStatus] returns, reconciled with a registry
    whose pairs of location and defect type are distinct and whose last
    detections are before the instant of the call, leaves no detection out:
    for each detection of either subsystem the returned registry has an entry
    with its location and defect type, whose last detection is the instant of
    the call, whose detected date is its day and whose status is the one of
    the risk level of its type.  (No two pairs the generator can report have
    the same key, and three new entries are never truncated.) *)
Theorem generated_snapshot_reaches_registry random pos now now' registry c drawn :
  unitInterval random ->
  NoDup (pairOf <$> registry) ->
  (forall e, e ∈ registry -> before now e) ->
  exists snapshot pos',
    generateLeakageStatus random pos = Some (snapshot, pos')
    /\ forall cd,
         cd ∈ controlSystemDetections snapshot \/ cd ∈ droneDetections snapshot ->
         exists e',
           e' ∈ Working.updatedRegistry
                  (updateDefectRegistryWithDetections random now now' registry
                     snapshot c drawn)
           /\ pairOf e' = pairOfDetection cd
           /\ written (isoDay now') now e'.
Proof.
  intros Hunit Hnd Hbefore.
  destruct (generateLeakageStatus_fromScenario random pos Hunit)
    as (snapshot & pos' & Hgen & Hall & Hlen & _).
  exists snapshot, pos'. split; [exact Hgen|].
  intros cd Hcd. pose proof (generated_agreed snapshot Hall cd Hcd) as Hagreed.
  destruct (reconciled_agreed_present random now now' registry snapshot c drawn _ Hagreed)
    as (e' & He' & Hpair).
  exists e'. rewrite <- Hpair in Hagreed. split; [|split; [done|]].
  - apply reconciled_agreed_returned; try done.
    unfold MAX_DEFECT_REGISTRY_SIZE. lia.
  - by eapply reconciled_agreed_written.
Qed.

Lemma generated_snapshot_reaches_registry_witness :
  unitInterval alwaysHalf
  /\ NoDup (pairOf <$> getInitialDefectRegistry)
  /\ (forall e, e ∈ getInitialDefectRegistry -> before refreshInstant e)
  /\ exists snapshot pos',
       generateLeakageStatus alwaysHalf 0 = Some (snapshot, pos')
       /\ forall cd,
            cd ∈ controlSystemDetections snapshot \/ cd ∈ droneDetections snapshot ->
            exists e',
              e' ∈ Working.updatedRegistry
                     (updateDefectRegistryWithDetections alwaysHalf refreshInstant
                        refreshInstant getInitialDefectRegistry snapshot
                        initialDefectIdCounter 0)
              /\ pairOf e' = pairOfDetection cd
              /\ written (isoDay refreshInstant) refreshInstant e'.
Proof.
  assert (Hnd : NoDup (pairOf <$> getInitialDefectRegistry)).
  { apply (bool_decide_unpack _). by vm_compute. }
  assert (Hbefore : forall e, e ∈ getInitialDefectRegistry -> before refreshInstant e).
  { assert (Hall : Forall (before refreshInstant) getInitialDefectRegistry).
    { repeat constructor; intros t' Ht'; simpl in Ht'; try done;
        injection Ht' as <-; by vm_compute. }
    rewrite Forall_forall in Hall. exact Hall. }
  split; [exact alwaysHalf_unitInterval|]. split; [exact Hnd|]. split; [exact Hbefore|].
  exact (generated_snapshot_reaches_registry alwaysHalf 0 refreshInstant refreshInstant
           getInitialDefectRegistry initialDefectIdCounter 0
           alwaysHalf_unitInterval Hnd Hbefore).
Defined.

(** ** The report page: sorting *)

Section sorting_on.
Context {A : Type} (compareFn : A -> A -> Z) (P : A -> Prop).
Hypothesis compareFn_total :
  forall a b, P a -> P b -> 0 < compareFn a b -> compareFn b a <= 0.
Hypothesis compareFn_trans :
  forall a b c, P a -> P b -> P c ->
    compareFn a b <= 0 -> compareFn b c <= 0 -> compareFn a c <= 0.

Lemma insertSorted_StronglySorted_on a l :
  P a -> Forall P l ->
  StronglySorted (fun a b => compareFn a b <= 0) l ->
  StronglySorted (fun a b => compareFn a b <= 0) (insertSorted compareFn a l).
Proof.
  intros Ha. induction l as [|b l IH]; simpl; intros HP Hl.
  - repeat constructor.
  - apply Forall_cons in HP as [HPb HP].
    apply StronglySorted_inv in Hl as [Hl Hb].
    destruct (Z.leb_spec (compareFn a b) 0) as [Hab|Hab].
    + constructor; [by constructor|].
      constructor; [done|].
      rewrite Forall_forall in Hb, HP. apply Forall_forall. intros c Hc.
      eapply (compareFn_trans a b c); auto.
    + constructor; [by apply IH|].
      rewrite insertSorted_Permutation. constructor; [|done].
      by apply compareFn_total.
Qed.

Lemma sort_StronglySorted_on l :
  Forall P l -> StronglySorted (fun a b => compareFn a b <= 0) (sort compareFn l).
Proof.
  induction l as [|a l IH]; simpl; [constructor|].
  intros [Ha Hl]%Forall_cons. apply insertSorted_StronglySorted_on; [done| |by apply IH].
  by rewrite sort_Permutation.
Qed.
End sorting_on.

Lemma StronglySorted_impl_on {A} (R1 R2 : relation A) (P : A -> Prop) l :
  (forall a b, P a -> P b -> R1 a b -> R2 a b) ->
  Forall P l -> StronglySorted R1 l -> StronglySorted R2 l.
Proof.
  intros Himpl. induction l as [|a l IH]; intros HP Hl; [constructor|].
  apply Forall_cons in HP as [Ha HP]. apply StronglySorted_inv in Hl as [Hl Hal].
  constructor; [by apply IH|].
  rewrite Forall_forall in Hal, HP. apply Forall_forall. intros b Hb. auto.
Qed.

Lemma sort_shown compareFn (R : relation DefectRegistryItem.t) (P : DefectRegistryItem.t -> Prop) l :
  (forall a b, P a -> P b -> 0 < compareFn a b -> compareFn b a <= 0) ->
  (forall a b c, P a -> P b -> P c ->
     compareFn a b <= 0 -> compareFn b c <= 0 -> compareFn a c <= 0) ->
  (forall a b, P a -> P b -> compareFn a b <= 0 -> R a b) ->
  Forall P l -> StronglySorted R (sort compareFn l).
Proof.
  intros Htotal Htrans Himpl HP.
  apply (StronglySorted_impl_on (fun a b => compareFn a b <= 0) R P); [done|..].
  - by rewrite sort_Permutation.
  - by apply (sort_StronglySorted_on compareFn P).
Qed.

Lemma riskOrderDesc_moreSevere la lb :
  ReportPage.riskOrderDesc la < ReportPage.riskOrderDesc lb <-> moreSevere la lb.
Proof. destruct la, lb; simpl; split; (done || lia). Qed.

Lemma riskOrderAsc_moreSevere la lb :
  ReportPage.riskOrderAsc la < ReportPage.riskOrderAsc lb <-> moreSevere lb la.
Proof. destruct la, lb; simpl; split; (done || lia). Qed.

Lemma riskOrderDesc_inj la lb :
  ReportPage.riskOrderDesc la = ReportPage.riskOrderDesc lb -> la = lb.
Proof. by destruct la, lb. Qed.

Lemma riskOrderAsc_inj la lb :
  ReportPage.riskOrderAsc la = ReportPage.riskOrderAsc lb -> la = lb.
Proof. by destruct la, lb. Qed.

Ltac unfold_comparators :=
  unfold ReportPage.compareSeverity, ReportPage.compareDateAsc,
    ReportPage.compareConfidenceDesc, ReportPage.compareConfidenceAsc, newerFirst in *.

Ltac split_diff :=
  repeat match goal with
  | |- context [negb (?d =? 0)] => destruct (Z.eqb_spec d 0); simpl
  | H : context [negb (?d =? 0)] |- _ => destruct (Z.eqb_spec d 0); simpl in H
  end.

Lemma compareSeverity_shown riskOrder (R : RiskLevel -> RiskLevel -> Prop) l :
  (forall la lb, riskOrder la < riskOrder lb <-> R la lb) ->
  (forall la lb, riskOrder la = riskOrder lb -> la = lb) ->
  Forall hasRiskLevel l ->
  StronglySorted
    (fun a b => exists la lb, DefectRegistryItem.riskLevel a = Some la
       /\ DefectRegistryItem.riskLevel b = Some lb
       /\ (R la lb \/ (la = lb /\ newerFirst a b)))
    (sort (ReportPage.compareSeverity riskOrder) l).
Proof.
  intros HR Hinj. apply sort_shown; unfold hasRiskLevel.
  - intros a b Ha Hb. unfold_comparators.
    destruct (DefectRegistryItem.riskLevel a) as [la|]; [|done].
    destruct (DefectRegistryItem.riskLevel b) as [lb|]; [|done].
    split_diff; lia.
  - intros a b c Ha Hb Hc. unfold_comparators.
    destruct (DefectRegistryItem.riskLevel a) as [la|]; [|done].
    destruct (DefectRegistryItem.riskLevel b) as [lb|]; [|done].
    destruct (DefectRegistryItem.riskLevel c) as [lc|]; [|done].
    split_diff; lia.
  - intros a b Ha Hb. unfold_comparators.
    destruct (DefectRegistryItem.riskLevel a) as [la|]; [|done].
    destruct (DefectRegistryItem.riskLevel b) as [lb|]; [|done].
    intros Hcmp. exists la, lb. split; [done|]. split; [done|].
    split_diff.
    + right. split; [apply Hinj; lia | lia].
    + left. apply HR. lia.
Qed.

Lemma mode_cases sortBy :
  sortBy ∈ sortModes ->
  sortBy = "severity-desc" \/ sortBy = "severity-asc" \/ sortBy = "date-desc"
  \/ sortBy = "date-asc" \/ sortBy = "confidence-desc" \/ sortBy = "confidence-asc".
Proof. unfold sortModes. rewrite !elem_of_cons, elem_of_nil. tauto. Qed.

Lemma comparatorOf_None sortBy :
  sortBy ∉ sortModes -> ReportPage.comparatorOf sortBy = None.
Proof.
  unfold sortModes. rewrite !not_elem_of_cons. intros (H1 & H2 & H3 & H4 & H5 & H6 & _).
  unfold ReportPage.comparatorOf.
  repeat match goal with
  | |- context [String.eqb sortBy ?s] => destruct (String.eqb_spec sortBy s); [done|]
  end.
  done.
Qed.

Lemma sortedDefectRegistry_Permutation sortBy defectRegistry :
  ReportPage.sortedDefectRegistry sortBy defectRegistry ≡ₚ defectRegistry.
Proof.
  unfold ReportPage.sortedDefectRegistry.
  destruct (ReportPage.comparatorOf sortBy); [apply sort_Permutation | done].
Qed.

Lemma sortedDefectRegistry_shownBefore sortBy defectRegistry :
  Forall hasRiskLevel defectRegistry ->
  StronglySorted (shownBefore sortBy) (ReportPage.sortedDefectRegistry sortBy defectRegistry).
Proof.
  intros Hlevels. unfold ReportPage.sortedDefectRegistry.
  destruct (decide (sortBy ∈ sortModes)) as [Hmode|Hmode].
  - apply mode_cases in Hmode as [->|[->|[->|[->|[->| ->]]]]]; unfold shownBefore; simpl.
    + by apply compareSeverity_shown;
        [apply riskOrderDesc_moreSevere | apply riskOrderDesc_inj |].
    + apply (compareSeverity_shown ReportPage.riskOrderAsc (fun la lb => moreSevere lb la));
        [apply riskOrderAsc_moreSevere | apply riskOrderAsc_inj | done].
    + apply sort_compareDefects_ordered.
    + apply (sort_shown _ _ (fun _ => True)); unfold_comparators;
        [intros; lia | intros; lia | intros; lia | by apply Forall_true].
    + apply (sort_shown _ _ (fun _ => True)); unfold_comparators;
        [intros a b _ _; split_diff; lia | intros a b c _ _ _; split_diff; lia
        | intros a b _ _; split_diff; lia | by apply Forall_true].
    + apply (sort_shown _ _ (fun _ => True)); unfold_comparators;
        [intros a b _ _; split_diff; lia | intros a b c _ _ _; split_diff; lia
        | intros a b _ _; split_diff; lia | by apply Forall_true].
  - rewrite (comparatorOf_None _ Hmode).
    apply (StronglySorted_impl_on (fun _ _ => True) _ (fun _ => True)).
    + intros a b _ _ _. unfold shownBefore. revert Hmode.
      unfold sortModes. rewrite !not_elem_of_cons.
      intros (H1 & H2 & H3 & H4 & H5 & H6 & _).
      repeat match goal with
      | |- context [String.eqb sortBy ?s] => destruct (String.eqb_spec sortBy s); [done|]
      end.
      done.
    + by apply Forall_true.
    + clear. induction defectRegistry; constructor; [done | by apply Forall_true].
Qed.

(** X9: the array the report page shows is a rearrangement of the registry in
    its state, whatever [sortBy] is.  When every entry has a risk level, each
    of the six modes orders it as its name says: by severity (most severe
    first, or last), by confidence (highest first, or last), in both with the
    newer entry first among equals, also in the ascending modes; by the
    timestamp ascending; or in the order of the registry sort.  Any other
    value of [sortBy] leaves the order of the registry. *)
Theorem sort_modes_ordered sortBy defectRegistry :
  Forall hasRiskLevel defectRegistry ->
  let shown := ReportPage.sortedDefectRegistry sortBy defectRegistry in
  shown ≡ₚ defectRegistry
  /\ StronglySorted (shownBefore sortBy) shown
  /\ ((sortBy ∉ sortModes) -> shown = defectRegistry).
Proof.
  intros Hlevels shown. split; [|split].
  - apply sortedDefectRegistry_Permutation.
  - by apply sortedDefectRegistry_shownBefore.
  - intros Hmode. unfold shown, ReportPage.sortedDefectRegistry.
    by rewrite (comparatorOf_None _ Hmode).
Qed.

Lemma sort_modes_ordered_witness :
  Forall hasRiskLevel getInitialDefectRegistry
  /\ let shown := ReportPage.sortedDefectRegistry "severity-asc" getInitialDefectRegistry in
     shown ≡ₚ getInitialDefectRegistry
     /\ StronglySorted (shownBefore "severity-asc") shown
     /\ (("severity-asc" ∉ sortModes) -> shown = getInitialDefectRegistry).
Proof.
  assert (Hlevels : Forall hasRiskLevel getInitialDefectRegistry).
  { repeat constructor; done. }
  split; [exact Hlevels|].
  exact (sort_modes_ordered "severity-asc" getInitialDefectRegistry Hlevels).
Defined.

(** X10: the report page, in its default mode 'date-desc', shows a registry
    that [updateDefectRegistryWithDetections] returned entry for entry in the
    order it was returned: the comparator of the page is the comparator of the
    registry sort, and sorting a second time moves nothing. *)
Theorem returned_registry_shown_as_is random now now' registry leakageStatus c drawn :
  let returned := Working.updatedRegistry
    (updateDefectRegistryWithDetections random now now' registry leakageStatus c drawn) in
  ReportPage.sortedDefectRegistry "date-desc" returned = returned.
Proof.
  intros returned.
  change (ReportPage.sortedDefectRegistry "date-desc" returned)
    with (sort compareDefects returned).
  apply sort_sorted, returned_sorted.
Qed.

(** X11: 'date-asc' is not 'date-desc' read backwards.  An entry with a last
    detection is, in the mode 'date-desc', before an entry without one
    whatever their dates; when its last detection is earlier than the detected
    date of the other, the mode 'date-asc' puts it first too.  Both modes then
    show the two entries in the same order, in whichever order the registry
    has them. *)
Theorem date_modes_can_agree a b ta :
  DefectRegistryItem.lastDetected a = Some ta ->
  DefectRegistryItem.lastDetected b = None ->
  ta < DefectRegistryItem.detectedDate b ->
  ReportPage.sortedDefectRegistry "date-desc" [a; b] = [a; b]
  /\ ReportPage.sortedDefectRegistry "date-desc" [b; a] = [a; b]
  /\ ReportPage.sortedDefectRegistry "date-asc" [a; b] = [a; b]
  /\ ReportPage.sortedDefectRegistry "date-asc" [b; a] = [a; b].
Proof.
  intros Ha Hb Hlt.
  unfold ReportPage.sortedDefectRegistry; simpl.
  unfold compareDefects, ReportPage.compareDateAsc, ReportPage.getSortTimestamp.
  rewrite Ha, Hb. simpl.
  rewrite (proj2 (Z.leb_le _ _)) by lia.
  rewrite (proj2 (Z.leb_gt _ _)) by lia.
  done.
Qed.

Lemma date_modes_can_agree_witness :
  let a := DefectRegistryItem.mk "DEF-101" "Major/Sudden Leak" (Some "Section A-B")
             (Some critical) (Some "Critical") None (isoDate 2024 11 16)
             (Some (isoDate 2024 11 16 + 36000000)) pending
             "High pressure drop" "PT" "Direct visual sighting of spill"
             "Visible spectrum camera" 90 in
  let b := DefectRegistryItem.mk "DEF-002" "Poor Pipe Support" (Some "Section B-C")
             (Some low) (Some "Low") None (isoDate 2024 11 20) None resolved
             "Unusual vibrations" "Seismometer"
             "Identification of soil erosion or subsidence under the pipe"
             "Visible spectrum camera" 88 in
  DefectRegistryItem.lastDetected a = Some (isoDate 2024 11 16 + 36000000)
  /\ DefectRegistryItem.lastDetected b = None
  /\ isoDate 2024 11 16 + 36000000 < DefectRegistryItem.detectedDate b
  /\ ReportPage.sortedDefectRegistry "date-desc" [a; b] = [a; b]
  /\ ReportPage.sortedDefectRegistry "date-desc" [b; a] = [a; b]
  /\ ReportPage.sortedDefectRegistry "date-asc" [a; b] = [a; b]
  /\ ReportPage.sortedDefectRegistry "date-asc" [b; a] = [a; b].
Proof.
  intros a b.
  assert (Ha : DefectRegistryItem.lastDetected a = Some (isoDate 2024 11 16 + 36000000))
    by reflexivity.
  assert (Hb : DefectRegistryItem.lastDetected b = None) by reflexivity.
  assert (Hlt : isoDate 2024 11 16 + 36000000 < DefectRegistryItem.detectedDate b)
    by (vm_compute; reflexivity).
  split; [exact Ha|]. split; [exact Hb|]. split; [exact Hlt|].
  exact (date_modes_can_agree a b (isoDate 2024 11 16 + 36000000) Ha Hb Hlt).
Defined.

(** ** The report page: changing a status *)

Lemma insertSorted_fmap {A} (compareFn : A -> A -> Z) (f : A -> A) a l :
  (forall a b, compareFn (f a) (f b) = compareFn a b) ->
  insertSorted compareFn (f a) (f <$> l) = f <$> insertSorted compareFn a l.
Proof.
  intros Hf. induction l as [|b l IH]; simpl; [done|].
  change (list_fmap A A f l) with (f <$> l).
  rewrite Hf. destruct (compareFn a b <=? 0); simpl; [done|].
  f_equal. exact IH.
Qed.

Lemma sort_fmap {A} (compareFn : A -> A -> Z) (f : A -> A) l :
  (forall a b, compareFn (f a) (f b) = compareFn a b) ->
  sort compareFn (f <$> l) = f <$> sort compareFn l.
Proof.
  intros Hf. induction l as [|a l IH]; simpl; [done|].
  change (list_fmap A A f l) with (f <$> l).
  rewrite IH. by apply insertSorted_fmap.
Qed.

Lemma sortedDefectRegistry_withStatus sortBy defectId newStatus registry :
  ReportPage.sortedDefectRegistry sortBy (ReportPage.withStatus defectId newStatus registry)
  = ReportPage.withStatus defectId newStatus (ReportPage.sortedDefectRegistry sortBy registry).
Proof.
  unfold ReportPage.sortedDefectRegistry, ReportPage.comparatorOf.
  repeat match goal with
  | |- context [String.eqb sortBy ?s] => destruct (String.eqb sortBy s)
  end; try done; unfold ReportPage.withStatus; apply sort_fmap; intros a b;
    unfold ReportPage.compareSeverity, compareDefects, ReportPage.compareDateAsc,
      ReportPage.compareConfidenceDesc, ReportPage.compareConfidenceAsc,
      ReportPage.getSortTimestamp;
    by destruct (String.eqb (DefectRegistryItem.id a) defectId),
                (String.eqb (DefectRegistryItem.id b) defectId).
Qed.

(** X12: [handleStatusChange] leaves the registry as it is when the request
    fails, and also when no entry has the identifier.  When the request succeeds, the identifiers keep their
    positions, and every entry of the new registry either is an entry of the
    old one or has the identifier and the new status.  In every sort mode the
    page shows the entries in the same positions as before the change: the
    sorted new registry is the changed sorted registry. *)
Theorem status_change_keeps_order {Event} defectId newStatus
    (updateDetectionStatus : string -> DefectStatus -> JsError.t + Event)
    defectRegistry sortBy :
  let registry' :=
    fst (ReportPage.handleStatusChange defectId newStatus updateDetectionStatus
           defectRegistry) in
  ReportPage.sortedDefectRegistry sortBy registry'
  = fst (ReportPage.handleStatusChange defectId newStatus updateDetectionStatus
           (ReportPage.sortedDefectRegistry sortBy defectRegistry))
  /\ DefectRegistryItem.id <$> registry' = DefectRegistryItem.id <$> defectRegistry
  /\ (forall e', e' ∈ registry' ->
        e' ∈ defectRegistry
        \/ (DefectRegistryItem.id e' = defectId
            /\ DefectRegistryItem.status e' = newStatus))
  /\ ((forall e, updateDetectionStatus defectId newStatus <> inr e) ->
      registry' = defectRegistry)
  /\ ((defectId ∉ DefectRegistryItem.id <$> defectRegistry) -> registry' = defectRegistry).
Proof.
  intros registry'. unfold registry', ReportPage.handleStatusChange.
  destruct (updateDetectionStatus defectId newStatus) as [err|event]; simpl.
  - repeat split; auto.
  - split; [apply sortedDefectRegistry_withStatus|].
    split; [|split; [|split]].
    + unfold ReportPage.withStatus. rewrite <- list_fmap_compose.
      apply list_fmap_ext. intros i e _. simpl.
      by destruct (String.eqb (DefectRegistryItem.id e) defectId).
    + unfold ReportPage.withStatus.
      intros e' (e & -> & He)%list_elem_of_fmap.
      destruct (String.eqb_spec (DefectRegistryItem.id e) defectId); [by right | by left].
    + intros Hfail. by destruct (Hfail event).
    + intros Hnot. unfold ReportPage.withStatus.
      rewrite <- (list_fmap_id defectRegistry) at 2.
      apply list_fmap_ext. intros i e Hi. simpl.
      destruct (String.eqb_spec (DefectRegistryItem.id e) defectId) as [Heq|]; [|done].
      destruct Hnot. rewrite <- Heq. apply list_elem_of_fmap_2.
      by eapply list_elem_of_lookup_2.
Qed.

(** ** The report page: filters and selections *)

(** X13: [toggleFilter] changes the membership of the filter it is given and
    of no other: after it, the array has the filter exactly when it did not
    have it before, and any other filter exactly when it had it.  It never
    introduces a duplicate, it removes every copy of a filter that is there,
    and toggling twice a filter that was not there gives the array back.
    [toggleAccordionItemSelection] is the same function. *)
Theorem toggleFilter_flips_membership filter prev :
  (forall f, f ∈ ReportPage.toggleFilter filter prev <->
             (f <> filter /\ f ∈ prev) \/ (f = filter /\ (filter ∉ prev)))
  /\ (NoDup prev -> NoDup (ReportPage.toggleFilter filter prev))
  /\ ((filter ∉ prev) ->
      ReportPage.toggleFilter filter (ReportPage.toggleFilter filter prev) = prev)
  /\ ReportPage.toggleAccordionItemSelection filter prev
     = ReportPage.toggleFilter filter prev.
Proof.
  unfold ReportPage.toggleFilter, ReportPage.toggleAccordionItemSelection.
  split; [|split; [|split; [|done]]].
  - intros f. case_bool_decide as Hin.
    + rewrite list_elem_of_filter. split; [intros [? ?]; by left|].
      intros [[? ?]|[_ ?]]; done.
    + rewrite elem_of_app, list_elem_of_singleton. split.
      * intros [Hf| ->]; [left; split; [by intros ->|done] | by right].
      * intros [[_ ?]|[? _]]; [by left | by right].
  - intros Hnd. case_bool_decide as Hin; [by apply NoDup_filter|].
    apply NoDup_app. split; [done|]. split; [|apply NoDup_singleton].
    intros f Hf ->%list_elem_of_singleton. done.
  - intros Hnot. rewrite (bool_decide_eq_false_2 _ Hnot).
    rewrite bool_decide_eq_true_2
      by (apply elem_of_app; right; by apply list_elem_of_singleton).
    rewrite filter_app, filter_cons_False by (intros H; by apply H).
    rewrite filter_nil, app_nil_r.
    clear -Hnot. induction prev as [|f prev IH]; [done|].
    apply not_elem_of_cons in Hnot as [Hne Hnot].
    rewrite filter_cons_True by done. f_equal. by apply IH.
Qed.

(** ** The report page: the count of detected entries *)

Lemma justDetected_app l1 l2 :
  ReportPage.justDetected (l1 ++ l2)
  = (ReportPage.justDetected l1 + ReportPage.justDetected l2)%nat.
Proof. unfold ReportPage.justDetected. by rewrite filter_app, length_app. Qed.

Lemma justDetected_cons e l :
  ReportPage.justDetected (e :: l)
  = ((if DefectRegistryItem.lastDetected e is Some _ then 1 else 0)
     + ReportPage.justDetected l)%nat.
Proof.
  unfold ReportPage.justDetected. rewrite filter_cons.
  destruct (DefectRegistryItem.lastDetected e) eqn:He.
  - by rewrite decide_True.
  - by rewrite decide_False by (intros H; by apply H).
Qed.

Lemma justDetected_insert i e l :
  DefectRegistryItem.lastDetected e <> None ->
  (ReportPage.justDetected l <= ReportPage.justDetected (<[i := e]> l))%nat.
Proof.
  intros He. revert i. induction l as [|x l IH]; intros i; [done|].
  destruct i as [|i]; simpl; rewrite !justDetected_cons.
  - destruct (DefectRegistryItem.lastDetected e); [|done].
    destruct (DefectRegistryItem.lastDetected x); lia.
  - specialize (IH i). lia.
Qed.

Lemma justDetected_Permutation l1 l2 :
  l1 ≡ₚ l2 -> ReportPage.justDetected l1 = ReportPage.justDetected l2.
Proof. intros H. unfold ReportPage.justDetected. by rewrite H. Qed.

Lemma justDetected_le_length l : (ReportPage.justDetected l <= length l)%nat.
Proof. unfold ReportPage.justDetected. apply length_filter. Qed.

Lemma justDetected_all l :
  (forall e, e ∈ l -> DefectRegistryItem.lastDetected e <> None) ->
  ReportPage.justDetected l = length l.
Proof.
  induction l as [|e l IH]; intros Hall; [done|].
  rewrite justDetected_cons, IH by (intros; apply Hall; by right).
  destruct (DefectRegistryItem.lastDetected e) eqn:He; [done|].
  destruct (Hall e); [by left | done].
Qed.

Lemma justDetected_none l :
  ReportPage.justDetected l = 0%nat ->
  forall e, e ∈ l -> DefectRegistryItem.lastDetected e = None.
Proof.
  induction l as [|x l IH]; intros H0 e He; [by apply elem_of_nil in He|].
  rewrite justDetected_cons in H0.
  apply elem_of_cons in He as [->|He].
  - destruct (DefectRegistryItem.lastDetected x); [lia | done].
  - apply IH; [lia | done].
Qed.

Lemma processDetections_justDetected random currentDate currentTimestamp w g :
  (ReportPage.justDetected (Working.updatedRegistry w)
   <= ReportPage.justDetected
        (Working.updatedRegistry
           (processDetections random currentDate currentTimestamp w g)))%nat.
Proof.
  destruct (processDetections_inv random currentDate currentTimestamp w g)
    as [[_ ->]|[(c & d & i & existing & -> & Hi & Hp & _ & ->)|(c & d & -> & _ & ->)]];
    simpl; [done|..].
  - by apply justDetected_insert.
  - rewrite justDetected_app. lia.
Qed.

(** X14: the count the report page shows as 'Just Detected' is the number of
    entries that have a last detection, of whichever refresh.  A
    reconciliation never lowers it: the returned registry has at least as many
    such entries as the registry passed in, as far as fifteen entries allow.
    (No branch removes a last detection, and the truncation drops entries
    without one first.) *)
Theorem just_detected_never_decreases random now now' registry leakageStatus c drawn :
  let returned := Working.updatedRegistry
    (updateDefectRegistryWithDetections random now now' registry leakageStatus c drawn) in
  (Nat.min MAX_DEFECT_REGISTRY_SIZE (ReportPage.justDetected registry)
   <= ReportPage.justDetected returned)%nat.
Proof.
  intros returned.
  set (w := reconciled random now now' registry leakageStatus c drawn).
  set (sorted := sort compareDefects (Working.updatedRegistry w)).
  assert (Hret : returned = take MAX_DEFECT_REGISTRY_SIZE sorted)
    by apply updateDefectRegistryWithDetections_take.
  set (dropped := drop MAX_DEFECT_REGISTRY_SIZE sorted).
  assert (Happ : returned ++ dropped = sorted) by (rewrite Hret; apply take_drop).
  assert (Hgrow : (ReportPage.justDetected registry
                   <= ReportPage.justDetected (Working.updatedRegistry w))%nat).
  { unfold w, reconciled.
    apply (fold_left_invariant (A := Working.t)
             (fun w0 => (ReportPage.justDetected registry
                         <= ReportPage.justDetected (Working.updatedRegistry w0))%nat));
      [done|].
    intros w0 kv _ Hw0.
    pose proof (processDetections_justDetected random (isoDay now') now w0 (snd kv)). lia. }
  assert (Hsum : (ReportPage.justDetected returned + ReportPage.justDetected dropped
                  = ReportPage.justDetected (Working.updatedRegistry w))%nat).
  { rewrite <- justDetected_app, Happ. apply justDetected_Permutation, sort_Permutation. }
  destruct (ReportPage.justDetected dropped) as [|n] eqn:Hdropped; [lia|].
  assert (Hsome : exists d, d ∈ dropped /\ DefectRegistryItem.lastDetected d <> None).
  { unfold ReportPage.justDetected in Hdropped.
    destruct (base.filter (fun d => DefectRegistryItem.lastDetected d <> None) dropped)
      as [|d ?] eqn:Hf; [done|].
    exists d.
    assert (Hd : d ∈ base.filter
                       (fun d => DefectRegistryItem.lastDetected d <> None) dropped)
      by (rewrite Hf; by left).
    apply list_elem_of_filter in Hd as [? ?]. by split. }
  destruct Hsome as (d & Hd & Hdsome).
  assert (Hall : forall r, r ∈ returned -> DefectRegistryItem.lastDetected r <> None).
  { intros r Hr.
    assert (Hord : inRegistryOrder r d).
    { eapply (StronglySorted_app_1_elem_of inRegistryOrder returned dropped); [|done..].
      rewrite Happ. apply sort_compareDefects_ordered. }
    unfold inRegistryOrder in Hord.
    destruct (DefectRegistryItem.lastDetected r); [done|].
    by destruct (DefectRegistryItem.lastDetected d). }
  rewrite (justDetected_all returned Hall).
  assert (Hlen : (MAX_DEFECT_REGISTRY_SIZE < length sorted)%nat).
  { destruct (decide (MAX_DEFECT_REGISTRY_SIZE < length sorted)%nat) as [|Hge]; [done|].
    unfold dropped in Hd. rewrite drop_ge in Hd by lia. by apply elem_of_nil in Hd. }
  rewrite Hret, length_take. lia.
Qed.

(** ** The report page: fetching the events *)

Lemma app_singleton_ne {A} (l : list A) x : l ++ [x] <> l.
Proof. intros H. apply (f_equal length) in H. rewrite length_app in H. simpl in H. lia. Qed.

(** X15: a response that is not ok and has no status text, as every HTTP/2
    response, makes [fetchDetectionEvents] empty the registry on the page and
    show the message [Failed to fetch detection events: ], without going to
    the login page; this whatever the status is, 401 included. *)
Theorem failure_without_status_text_empties_registry token
    (response : Response.t (list DetectionEvent.t)) s :
  Response.ok response = false ->
  Response.statusText response = EmptyString ->
  let s' := fetchDetectionEvents true
              (getDetectionEvents token (fun _ _ _ => Resolves response)) s in
  ReportState.defectRegistry s' = []
  /\ ReportState.isEmpty s' = true
  /\ ReportState.error s' = Some "Failed to fetch detection events: "
  /\ ReportState.navigations s' = ReportState.navigations s
  /\ ReportState.isLoading s' = false.
Proof.
  intros Hok Htext s'. unfold s', fetchDetectionEvents, getDetectionEvents.
  rewrite Hok, Htext. simpl. done.
Qed.

Lemma failure_without_status_text_empties_registry_witness :
  let response : Response.t (list DetectionEvent.t) :=
    Response.mk 401 EmptyString (inr []) in
  let s := ReportState.mk false false None getInitialDefectRegistry [] in
  Response.ok response = false
  /\ Response.statusText response = EmptyString
  /\ let s' := fetchDetectionEvents true
                 (getDetectionEvents (Some "token") (fun _ _ _ => Resolves response)) s in
     ReportState.defectRegistry s' = []
     /\ ReportState.isEmpty s' = true
     /\ ReportState.error s' = Some "Failed to fetch detection events: "
     /\ ReportState.navigations s' = ReportState.navigations s
     /\ ReportState.isLoading s' = false.
Proof.
  intros response s. split; [reflexivity|]. split; [reflexivity|].
  exact (failure_without_status_text_empties_registry (Some "token") response s
           eq_refl eq_refl).
Defined.

(** X16: [fetchDetectionEvents] goes nowhere but to the login page, and when it
    goes there it leaves the registry and the empty flag of the page as they
    were.  When it does not, the page is no longer loading, the empty flag is
    set exactly when the registry is empty, and the registry is either empty,
    with the message of the failure shown, or the converted events, as many as
    the back end sent, with no message. *)
Theorem fetchDetectionEvents_outcomes isAuthenticated
    (events : nat -> JsError.t + list DetectionEvent.t) s :
  let s' := fetchDetectionEvents isAuthenticated events s in
  (ReportState.navigations s' = ReportState.navigations s ++ ["/login"]
   /\ ReportState.defectRegistry s' = ReportState.defectRegistry s
   /\ ReportState.isEmpty s' = ReportState.isEmpty s)
  \/ (ReportState.navigations s' = ReportState.navigations s
      /\ ReportState.isLoading s' = false
      /\ (ReportState.isEmpty s' = true <-> ReportState.defectRegistry s' = [])
      /\ ((exists err, events MAX_DEFECT_REGISTRY_SIZE = inl err
             /\ ReportState.error s' = Some (JsError.message err)
             /\ ReportState.defectRegistry s' = [])
          \/ (exists received, events MAX_DEFECT_REGISTRY_SIZE = inr received
                /\ ReportState.error s' = None
                /\ ReportState.defectRegistry s' = convertDetectionEvent <$> received
                /\ length (ReportState.defectRegistry s') = length received))).
Proof.
  intros s'. unfold s', fetchDetectionEvents.
  destruct isAuthenticated; simpl; [|by left].
  destruct (events MAX_DEFECT_REGISTRY_SIZE) as [err|received] eqn:Hev.
  - destruct (isUnauthorizedMessage (JsError.message err)); simpl; [by left|].
    right. repeat split; try done. left. by exists err.
  - right. simpl. split; [done|]. split; [done|]. split.
    + rewrite bool_decide_eq_true. split.
      * intros Hlen. by apply nil_length_inv.
      * by intros ->.
    + right. exists received. by rewrite length_fmap.
Qed.

(** X17: every entry converted from an event of the back end has a risk
    level, the one of the event, so that the sort modes order the fetched
    registry as they promise; and every one has a last detection, so that the
    count shown as 'Just Detected' is, in every sort mode, the number of
    events received. *)
Theorem fetched_registry_all_just_detected sortBy (events : list DetectionEvent.t) :
  let defectRegistry := convertDetectionEvent <$> events in
  Forall hasRiskLevel defectRegistry
  /\ StronglySorted (shownBefore sortBy) (ReportPage.sortedDefectRegistry sortBy defectRegistry)
  /\ ReportPage.justDetected (ReportPage.sortedDefectRegistry sortBy defectRegistry)
     = length events.
Proof.
  intros defectRegistry.
  assert (Hlevels : Forall hasRiskLevel defectRegistry).
  { apply Forall_fmap, Forall_true. intros e. by unfold hasRiskLevel. }
  split; [done|].
  split; [by apply sortedDefectRegistry_shownBefore|].
  rewrite (justDetected_Permutation _ _ (sortedDefectRegistry_Permutation _ _)).
  rewrite justDetected_all; [by unfold defectRegistry; rewrite length_fmap|].
  intros e (ev & -> & _)%list_elem_of_fmap. done.
Qed.

(** ** The overview page: where a leak is drawn *)

(** X18: [getLeakCoordinates] has coordinates of its own for each of the seven
    locations the generator of the detection utilities uses, no two of them
    the same.  A location it does not know is drawn at the coordinates of
    'Station Area', so that its marker covers the marker of that station; and
    a location that is the name of a member of [Object.prototype] gets that
    member, which has no coordinates. *)
Theorem getLeakCoordinates_known_and_fallback :
  locations = OverviewPage.locationMap.*1
  /\ (forall location, location ∈ locations ->
        exists x y, OverviewPage.getLeakCoordinates location = OverviewPage.Coordinates x y
                    /\ (location, (x, y)) ∈ OverviewPage.locationMap)
  /\ NoDup (OverviewPage.getLeakCoordinates <$> locations)
  /\ (forall location,
        (location ∉ locations) -> (location ∉ objectPrototypeMembers) ->
        OverviewPage.getLeakCoordinates location
        = OverviewPage.getLeakCoordinates "Station Area")
  /\ (forall location, location ∈ objectPrototypeMembers ->
        OverviewPage.getLeakCoordinates location = OverviewPage.NoCoordinates location).
Proof.
  split; [reflexivity|]. split; [|split; [|split]].
  - intros location Hin.
    assert (Hall : Forall (fun location =>
              exists x y, OverviewPage.getLeakCoordinates location
                          = OverviewPage.Coordinates x y
                          /\ (location, (x, y)) ∈ OverviewPage.locationMap) locations).
    { repeat constructor; eexists _, _; (split; [reflexivity|]);
        unfold OverviewPage.locationMap; rewrite !elem_of_cons; tauto. }
    rewrite Forall_forall in Hall. by apply Hall.
  - apply (bool_decide_unpack _). by vm_compute.
  - intros location Hloc Hproto. unfold OverviewPage.getLeakCoordinates at 1.
    rewrite ownProperty_None by exact Hloc.
    by rewrite bool_decide_eq_false_2.
  - intros location Hin. unfold OverviewPage.getLeakCoordinates.
    rewrite ownProperty_None.
    + by rewrite bool_decide_eq_true_2.
    + assert (Hall : Forall (fun name => name ∉ map fst OverviewPage.locationMap)
                       objectPrototypeMembers).
      { apply (bool_decide_unpack _). by vm_compute. }
      rewrite Forall_forall in Hall. by apply Hall.
Qed.

(** ** The overview page: the leak markers *)

Lemma leakSet_keys key v m :
  (OverviewPage.leakSet key v m).*1
  = if bool_decide (key ∈ m.*1) then m.*1 else m.*1 ++ [key].
Proof.
  induction m as [|[k x] m IH]; simpl; [done|].
  destruct (String.eqb_spec k key) as [->|Hne]; simpl.
  - rewrite bool_decide_eq_true_2; [done | by left].
  - change (list_fmap _ _ fst (OverviewPage.leakSet key v m))
      with ((OverviewPage.leakSet key v m).*1).
    rewrite IH. change (list_fmap _ _ fst m) with (m.*1).
    destruct (decide (key ∈ m.*1)) as [Hin|Hnot].
    + rewrite !bool_decide_eq_true_2; [done | by right | done].
    + rewrite !bool_decide_eq_false_2; [done | | done].
      intros [?|?]%elem_of_cons; [congruence | done].
Qed.

Lemma leakSet_elem_of key v m k' v' :
  NoDup m.*1 ->
  (k', v') ∈ OverviewPage.leakSet key v m ->
  (k' = key /\ v' = v) \/ (k' <> key /\ (k', v') ∈ m).
Proof.
  induction m as [|[k x] m IH]; simpl; intros Hnd Hin.
  - apply list_elem_of_singleton in Hin. injection Hin as -> ->. by left.
  - apply NoDup_cons in Hnd as [Hk Hnd].
    destruct (String.eqb_spec k key) as [->|Hne].
    + apply elem_of_cons in Hin as [Hin|Hin].
      * injection Hin as -> ->. by left.
      * right. split; [|by right]. intros ->. apply Hk.
        change key with (fst (key, v')). by apply list_elem_of_fmap_2.
    + apply elem_of_cons in Hin as [Hin|Hin].
      * injection Hin as -> ->. right. split; [done | by left].
      * destruct (IH Hnd Hin) as [?|[? ?]]; [by left|]. right. split; [done | by right].
Qed.

Lemma leakSet_elem_of_key key v m :
  NoDup m.*1 -> (key, v) ∈ OverviewPage.leakSet key v m.
Proof.
  induction m as [|[k x] m IH]; simpl; intros Hnd; [by left|].
  apply NoDup_cons in Hnd as [Hk Hnd].
  destruct (String.eqb_spec k key) as [->|Hne]; [by left|].
  right. by apply IH.
Qed.

Lemma leakSet_length key v m :
  (length (OverviewPage.leakSet key v m) <= S (length m))%nat.
Proof.
  induction m as [|[k x] m IH]; simpl; [lia|].
  destruct (String.eqb k key); simpl; lia.
Qed.

Lemma addLeak_fold_length detections m :
  (length (fold_left OverviewPage.addLeak detections m) <= length m + length detections)%nat.
Proof.
  revert m. induction detections as [|d detections IH]; intros m; simpl; [lia|].
  etrans; [apply IH|]. unfold OverviewPage.addLeak.
  destruct (DefectDetection.location d) as [location|]; [|lia].
  destruct (String.eqb location EmptyString); [lia|].
  pose proof (leakSet_length location
                (OverviewPage.Leak.mk (DefectDetection.defectType d) location) m). lia.
Qed.

Lemma leakMap_spec detections :
  let m := fold_left OverviewPage.addLeak detections [] in
  NoDup m.*1
  /\ (forall k v, (k, v) ∈ m ->
        OverviewPage.Leak.location v = k /\ k <> EmptyString /\ lastAt detections k v)
  /\ (forall d l, d ∈ detections -> DefectDetection.location d = Some l ->
        l <> EmptyString -> l ∈ m.*1).
Proof.
  induction detections as [|d detections IH] using rev_ind; simpl.
  - split; [constructor|]. split; [intros k v H|intros d l H]; by apply elem_of_nil in H.
  - rewrite fold_left_app. simpl.
    set (m := fold_left OverviewPage.addLeak detections []) in *.
    destruct IH as (Hnd & Hval & Hkeys).
    assert (Hkeep : forall k v, (k, v) ∈ m -> DefectDetection.location d <> Some k ->
              lastAt (detections ++ [d]) k v).
    { intros k v Hin Hne. destruct (Hval k v Hin) as (_ & _ & pre & d0 & post & -> & Hl & Ht & Hpost).
      exists pre, d0, (post ++ [d]). rewrite <- app_assoc. simpl.
      repeat split; try done.
      intros d' [Hd'|Hd']%elem_of_app; [by apply Hpost|].
      apply list_elem_of_singleton in Hd' as ->. exact Hne. }
    unfold OverviewPage.addLeak.
    destruct (DefectDetection.location d) as [location|] eqn:Hloc.
    + destruct (String.eqb_spec location EmptyString) as [->|Hne].
      * split; [done|]. split.
        -- intros k v Hin. destruct (Hval k v Hin) as (Hl & Hk & _).
           split; [done|]. split; [done|]. apply Hkeep; [done|]. congruence.
        -- intros d' l [Hd'|Hd']%elem_of_app Hl Hne.
           ++ by eapply Hkeys.
           ++ apply list_elem_of_singleton in Hd' as ->. congruence.
      * split; [|split].
        -- rewrite leakSet_keys. case_bool_decide; [done|].
           apply NoDup_app. split; [done|]. split; [|apply NoDup_singleton].
           intros k Hk Hk'. apply list_elem_of_singleton in Hk' as ->. done.
        -- intros k v Hin. apply (leakSet_elem_of _ _ _ _ _ Hnd) in Hin as [[-> ->]|[Hk Hin]].
           ++ simpl. split; [done|]. split; [done|].
              exists detections, d, []. repeat split; try done.
              intros d' Hd'. by apply elem_of_nil in Hd'.
           ++ destruct (Hval k v Hin) as (Hl & Hk' & _).
              split; [done|]. split; [done|]. apply Hkeep; [done|]. congruence.
        -- intros d' l [Hd'|Hd']%elem_of_app Hl Hne'.
           ++ rewrite leakSet_keys. case_bool_decide.
              ** by eapply Hkeys.
              ** apply elem_of_app. left. by eapply Hkeys.
           ++ apply list_elem_of_singleton in Hd' as ->.
              rewrite Hloc in Hl. injection Hl as ->.
              rewrite leakSet_keys. case_bool_decide; [done|].
              apply elem_of_app. right. by apply list_elem_of_singleton.
    + split; [done|]. split.
      * intros k v Hin. destruct (Hval k v Hin) as (Hl & Hk & _).
        split; [done|]. split; [done|]. by apply Hkeep.
      * intros d' l [Hd'|Hd']%elem_of_app Hl Hne.
        -- by eapply Hkeys.
        -- apply list_elem_of_singleton in Hd' as ->. congruence.
Qed.

(** X19: the overview page draws one leak marker for each location that some
    detection of the control system or of the drone has, an undefined or empty
    location apart, and never two at one location.  The marker of a location
    has the defect type of the last detection there, the drone's after the
    control system's: of two defects detected at one location only the later
    is drawn. *)
Theorem leak_markers_one_per_location leakageStatus :
  let detections :=
    controlSystemDetections leakageStatus ++ droneDetections leakageStatus in
  let leaks := OverviewPage.allLeakages leakageStatus in
  NoDup (OverviewPage.Leak.location <$> leaks)
  /\ (forall l, l ∈ OverviewPage.Leak.location <$> leaks <->
        l <> EmptyString
        /\ exists d, d ∈ detections /\ DefectDetection.location d = Some l)
  /\ (forall leak, leak ∈ leaks ->
        exists pre d post,
          detections = pre ++ d :: post
          /\ DefectDetection.location d = Some (OverviewPage.Leak.location leak)
          /\ DefectDetection.defectType d = OverviewPage.Leak.defectType leak
          /\ forall d', d' ∈ post ->
               DefectDetection.location d' <> Some (OverviewPage.Leak.location leak))
  /\ (length leaks <= length detections)%nat.
Proof.
  intros detections leaks.
  set (m := fold_left OverviewPage.addLeak detections []).
  assert (Hleaks : leaks = m.*2).
  { unfold leaks, OverviewPage.allLeakages, m, detections.
    by rewrite fold_left_app. }
  destruct (leakMap_spec detections) as (Hnd & Hval & Hkeys). fold m in Hnd, Hval, Hkeys.
  assert (Hlocs : OverviewPage.Leak.location <$> leaks = m.*1).
  { rewrite Hleaks, <- list_fmap_compose. apply list_fmap_ext.
    intros i [k v] Hi. simpl. apply (Hval k v). by eapply list_elem_of_lookup_2. }
  assert (Hlast : forall leak, leak ∈ leaks -> lastAt detections (OverviewPage.Leak.location leak) leak).
  { intros leak Hin. rewrite Hleaks in Hin.
    apply list_elem_of_fmap in Hin as ([k v] & -> & Hin). simpl.
    destruct (Hval k v Hin) as (-> & _ & Hl). exact Hl. }
  split; [by rewrite Hlocs|]. split; [|split].
  - intros l. rewrite Hlocs. split.
    + intros ([k v] & -> & Hin)%list_elem_of_fmap. simpl.
      destruct (Hval k v Hin) as (_ & Hk & pre & d & post & Hd & Hl & _).
      split; [done|]. exists d. split; [|done].
      rewrite Hd. apply elem_of_app. right. by left.
    + intros (Hne & d & Hd & Hl). by eapply Hkeys.
  - exact Hlast.
  - rewrite Hleaks, length_fmap.
    pose proof (addLeak_fold_length detections []) as Hlen. simpl in Hlen. exact Hlen.
Qed.

(** ** The overview page: fetching the statistics *)

(** X20: when the response to the request of [getOverviewStats] is not ok,
    the overview page either goes to the login page, keeping the status and
    the statistics it has, or renders the error screen with the message
    [Failed to fetch overview stats: ] followed by the status text, having
    replaced its status by one without detections.  Which of the two depends
    on the status text alone, and a response without status text, whatever
    its status, gives the error screen: the dashboard is never rendered from
    such a response. *)
Theorem overview_failure_screen token (response : Response.t OverviewStats.t) s :
  Response.ok response = false ->
  let s' := OverviewPage.fetchOverviewData true
              (getOverviewStats token (fun _ _ _ => Resolves response)) s in
  let message := "Failed to fetch overview stats: " +:+ Response.statusText response in
  (OverviewPage.State.isLoading s' = false)
  /\ ((isUnauthorizedMessage message = true
       /\ OverviewPage.State.navigations s' = OverviewPage.State.navigations s ++ ["/login"]
       /\ OverviewPage.State.leakageStatus s' = OverviewPage.State.leakageStatus s
       /\ OverviewPage.State.controlSystemStats s' = OverviewPage.State.controlSystemStats s
       /\ OverviewPage.State.droneStats s' = OverviewPage.State.droneStats s)
      \/ (isUnauthorizedMessage message = false
          /\ OverviewPage.State.navigations s' = OverviewPage.State.navigations s
          /\ OverviewPage.render s' = OverviewPage.ErrorLoadingData message
          /\ OverviewPage.State.leakageStatus s'
             = Some (LeakageDetection.mk (Subsystem.mk ok []) (Subsystem.mk ok []) 0)))
  /\ (Response.statusText response = EmptyString ->
      OverviewPage.render s'
      = OverviewPage.ErrorLoadingData "Failed to fetch overview stats: ").
Proof.
  intros Hok s' message.
  assert (Hs' : s' = OverviewPage.fetchOverviewData true
                       (inl (JsError.mk "Error" message)) s).
  { unfold s', getOverviewStats. by rewrite Hok. }
  assert (Hmessage : String.eqb message EmptyString = false).
  { apply String.eqb_neq. intros Heq. vm_compute in Heq. discriminate. }
  assert (Hdef : message
                 = "Failed to fetch overview stats: " +:+ Response.statusText response)
    by reflexivity.
  clearbody s' message. subst s'.
  unfold OverviewPage.fetchOverviewData. simpl.
  destruct (isUnauthorizedMessage message) eqn:Hunauthorized; simpl.
  - split; [done|]. split; [by left|].
    intros Htext. rewrite Hdef, Htext in Hunauthorized.
    vm_compute in Hunauthorized. discriminate.
  - unfold OverviewPage.render. simpl. rewrite Hmessage.
    split; [done|]. split; [by right|].
    intros Htext. by rewrite Hdef, Htext.
Qed.

Lemma overview_failure_screen_witness :
  let response : Response.t OverviewStats.t :=
    Response.mk 401 EmptyString (inl (JsError.mk "SyntaxError" "Unexpected end of JSON input")) in
  let s := OverviewPage.State.mk None
             (ControlSystemSummary.mk 145 0 15 130) (DroneSummary.mk 2847 1234 1613)
             true None [] in
  Response.ok response = false
  /\ let s' := OverviewPage.fetchOverviewData true
                 (getOverviewStats (Some "token") (fun _ _ _ => Resolves response)) s in
     let message := "Failed to fetch overview stats: " +:+ Response.statusText response in
     (OverviewPage.State.isLoading s' = false)
     /\ ((isUnauthorizedMessage message = true
          /\ OverviewPage.State.navigations s'
             = OverviewPage.State.navigations s ++ ["/login"]
          /\ OverviewPage.State.leakageStatus s' = OverviewPage.State.leakageStatus s
          /\ OverviewPage.State.controlSystemStats s'
             = OverviewPage.State.controlSystemStats s
          /\ OverviewPage.State.droneStats s' = OverviewPage.State.droneStats s)
         \/ (isUnauthorizedMessage message = false
             /\ OverviewPage.State.navigations s' = OverviewPage.State.navigations s
             /\ OverviewPage.render s' = OverviewPage.ErrorLoadingData message
             /\ OverviewPage.State.leakageStatus s'
                = Some (LeakageDetection.mk (Subsystem.mk ok []) (Subsystem.mk ok []) 0)))
     /\ (Response.statusText response = EmptyString ->
         OverviewPage.render s'
         = OverviewPage.ErrorLoadingData "Failed to fetch overview stats: ").
Proof.
  intros response s. split; [reflexivity|].
  exact (overview_failure_screen (Some "token") response s eq_refl).
Defined.

(** ** The authentication service *)

Lemma login_cases fetch username password s :
  (AuthService.login fetch username password s = (s, false))
  \/ (exists response data,
        fetch username password = Resolves response
        /\ Response.ok response = true
        /\ Response.json response = inr data
        /\ AuthService.login fetch username password s
           = (AuthService.updateAuthState (AuthState.mk true (Some username))
                (AuthService.setItem (TokenData.access_token data) s), true)).
Proof.
  unfold AuthService.login.
  destruct (fetch username password) as [e|response]; [by left|].
  destruct (Response.ok response) eqn:Hok; [|by left].
  destruct (Response.json response) as [e|data] eqn:Hjson; [by left|].
  right. by exists response, data.
Qed.

Lemma verifyToken_cases fetch s :
  (AuthService.verifyToken fetch s = (s, false))
  \/ (exists token response data,
        AuthService.access_token s = Some token
        /\ token <> EmptyString
        /\ fetch [("Authorization", "Bearer " +:+ token)] = Resolves response
        /\ Response.ok response = true
        /\ Response.json response = inr data
        /\ AuthService.verifyToken fetch s
           = (AuthService.updateAuthState
                (AuthState.mk true (VerifyData.username data)) s, true)).
Proof.
  unfold AuthService.verifyToken.
  destruct (AuthService.access_token s) as [token|] eqn:Htoken; [|by left].
  destruct (String.eqb_spec token EmptyString) as [|Hne]; [by left|].
  destruct (fetch _) as [e|response] eqn:Hfetch; [by left|].
  destruct (Response.ok response) eqn:Hok; [|by left].
  destruct (Response.json response) as [e|data] eqn:Hjson; [by left|].
  right. by exists token, response, data.
Qed.

Lemma verifyTokenSettle_cases outcome s :
  (AuthService.verifyTokenSettle outcome s = (s, false))
  \/ (exists data,
        AuthService.verifyTokenSettle outcome s
        = (AuthService.updateAuthState
             (AuthState.mk true (VerifyData.username data)) s, true)).
Proof.
  unfold AuthService.verifyTokenSettle.
  destruct outcome as [e|response]; [by left|].
  destruct (Response.ok response); [|by left].
  destruct (Response.json response) as [e|data]; [by left|].
  right. by exists data.
Qed.

(** A call of [verifyToken] is its request followed by what it does when the
    response is there. *)
Lemma verifyToken_request_settle fetch s :
  AuthService.verifyToken fetch s
  = match AuthService.verifyTokenRequest s with
    | Some token =>
        AuthService.verifyTokenSettle (fetch [("Authorization", "Bearer " +:+ token)]) s
    | None => (s, false)
    end.
Proof.
  unfold AuthService.verifyToken, AuthService.verifyTokenRequest.
  destruct (AuthService.access_token s) as [token|]; [|done].
  by destruct (String.eqb token EmptyString).
Qed.

(** With nothing in between, the two events of a call of [verifyToken] are
    the call run to its end. *)
Lemma verifyToken_uninterrupted fetch session :
  AuthService.verifyTokenRequest (AuthService.service session) <> None ->
  AuthService.step (AuthService.step session AuthService.VerifyTokenCalled)
    (AuthService.VerifyTokenSettled (length (AuthService.verifying session)) fetch)
  = AuthService.mkSession
      (fst (AuthService.verifyToken fetch (AuthService.service session)))
      (AuthService.verifying session).
Proof.
  intros Hreq. rewrite verifyToken_request_settle. simpl.
  destruct (AuthService.verifyTokenRequest (AuthService.service session)) as [token|];
    [|done].
  simpl. rewrite lookup_app_r by lia. rewrite Nat.sub_diag. simpl.
  f_equal. clear. induction (AuthService.verifying session) as [|x l IH]; [done|].
  simpl. f_equal. exact IH.
Qed.

Lemma step_authConsistent session e :
  authConsistent (AuthService.service session) ->
  authConsistent (AuthService.service (AuthService.step session e)).
Proof.
  intros (Huser & Hcb & Hprovided).
  destruct e as [fetch u p| | |i fetch|]; simpl.
  - destruct (login_cases fetch u p (AuthService.service session))
      as [->|(r & data & _ & _ & _ & ->)]; [done|].
    unfold authConsistent. simpl. rewrite Hcb. done.
  - unfold authConsistent. simpl. rewrite Hcb. done.
  - by destruct (AuthService.verifyTokenRequest (AuthService.service session)).
  - destruct (AuthService.verifying session !! i) as [token|]; [|done]. simpl.
    destruct (verifyTokenSettle_cases (fetch [("Authorization", "Bearer " +:+ token)])
                (AuthService.service session)) as [->|(data & ->)]; [done|].
    unfold authConsistent. simpl. rewrite Hcb. done.
  - done.
Qed.

Lemma step_tokenKept session e :
  match e with
  | AuthService.Logout => AuthService.verifying session = []
  | _ => True
  end ->
  tokenKept session -> tokenKept (AuthService.step session e).
Proof.
  intros Hquiet (Hauth & Hwaiting).
  destruct e as [fetch u p| | |i fetch|]; simpl.
  - destruct (login_cases fetch u p (AuthService.service session))
      as [->|(r & data & _ & _ & _ & ->)]; [done|].
    unfold tokenKept. simpl. done.
  - unfold tokenKept. simpl. rewrite Hquiet. done.
  - unfold AuthService.verifyTokenRequest.
    destruct (AuthService.access_token (AuthService.service session)) as [token|] eqn:Ht;
      [|unfold tokenKept; by rewrite Ht].
    destruct (String.eqb token EmptyString); [unfold tokenKept; by rewrite Ht|].
    unfold tokenKept. simpl. rewrite Ht. done.
  - destruct (AuthService.verifying session !! i) as [token|] eqn:Hi; [|done].
    assert (Htoken : AuthService.access_token (AuthService.service session) <> None).
    { apply Hwaiting. intros Hnil. by rewrite Hnil in Hi. }
    destruct (verifyTokenSettle_cases (fetch [("Authorization", "Bearer " +:+ token)])
                (AuthService.service session)) as [Heq|(data & Heq)];
      rewrite Heq; unfold tokenKept; simpl; done.
  - done.
Qed.

Lemma events_tokenKept session events :
  AuthService.logoutsWhenSettled session events ->
  tokenKept session -> tokenKept (fold_left AuthService.step events session).
Proof.
  revert session. induction events as [|e events IH]; intros session Hquiet Hkept; [done|].
  destruct Hquiet as [He Hquiet]. simpl.
  apply IH; [exact Hquiet|]. by apply step_tokenKept.
Qed.

Lemma mounted_consistent access_token :
  authConsistent (AuthService.service (AuthService.mounted access_token))
  /\ tokenKept (AuthService.mounted access_token).
Proof.
  unfold AuthService.mounted. split.
  - by apply step_authConsistent.
  - by apply step_tokenKept.
Qed.

(** X21: in a provider, after the mount and whatever happens then, the calls
    of [login], [logout], [verifyToken] and [init] and their responses coming
    in any order: when the service says that the user is not authenticated it
    names no user, and the state the provider hands to the pages is the state
    of the service.  When [logout] is only called while no call of
    [verifyToken] waits for its response, a service that says authenticated
    has an access token in the storage.  Not otherwise: [verifyToken] writes
    the state when its response comes without reading the token again, so a
    [logout] before the response of [init] leaves the service authenticated
    with no token. *)
Theorem provider_state_consistent events access_token :
  let session := AuthService.provider events access_token in
  let s := AuthService.service session in
  (AuthState.isAuthenticated (AuthService.authState s) = false ->
   AuthState.user (AuthService.authState s) = None)
  /\ AuthService.provided s = AuthService.getAuthState s
  /\ (AuthService.logoutsWhenSettled (AuthService.mounted access_token) events ->
      AuthState.isAuthenticated (AuthService.authState s) = true ->
      AuthService.getToken s <> None)
  /\ (forall token verified,
        token <> EmptyString ->
        Response.ok verified = true ->
        (exists data, Response.json verified = inr data) ->
        let raced :=
          AuthService.service
            (AuthService.provider
               [ AuthService.Logout;
                 AuthService.VerifyTokenSettled 0 (fun _ => Resolves verified) ]
               (Some token)) in
        AuthState.isAuthenticated (AuthService.authState raced) = true
        /\ AuthService.getToken raced = None).
Proof.
  intros session s.
  destruct (mounted_consistent access_token) as [Hmounted Hkept].
  assert (Hcons : authConsistent s).
  { unfold s, session, AuthService.provider.
    apply (fold_left_invariant
             (fun session => authConsistent (AuthService.service session)));
      [exact Hmounted|].
    intros session' e _. apply step_authConsistent. }
  destruct Hcons as (Huser & _ & Hprovided).
  split; [exact Huser|]. split; [|split].
  - rewrite Hprovided. unfold AuthService.getAuthState.
    by destruct (AuthService.authState s).
  - intros Hquiet.
    by apply (events_tokenKept (AuthService.mounted access_token) events Hquiet Hkept).
  - intros token verified Htoken Hok [data Hjson] raced.
    unfold raced, AuthService.provider, AuthService.mounted. simpl.
    unfold AuthService.verifyTokenRequest. simpl.
    destruct (String.eqb_spec token EmptyString) as [|_]; [done|]. simpl.
    by rewrite Hok, Hjson.
Qed.

(** A session: the stored token is verified, the user logs out and logs in
    again. *)
Lemma provider_state_consistent_witness :
  let events :=
    [ AuthService.VerifyTokenSettled 0
        (fun _ => Resolves (Response.mk 200 "OK" (inr (VerifyData.mk (Some "admin")))));
      AuthService.Logout;
      AuthService.Login
        (fun _ _ => Resolves (Response.mk 200 "OK" (inr (TokenData.mk (Some "fresh")))))
        "admin" "password" ] in
  let s := AuthService.service (AuthService.provider events (Some "stored")) in
  AuthService.logoutsWhenSettled (AuthService.mounted (Some "stored")) events
  /\ AuthState.isAuthenticated (AuthService.authState s) = true
  /\ AuthService.getToken s <> None
  /\ AuthService.provided s = AuthService.getAuthState s.
Proof.
  intros events s.
  assert (Hquiet : AuthService.logoutsWhenSettled (AuthService.mounted (Some "stored")) events)
    by (repeat split).
  assert (Hauth : AuthState.isAuthenticated (AuthService.authState s) = true)
    by reflexivity.
  destruct (provider_state_consistent events (Some "stored")) as (_ & Hprovided & Htoken & _).
  split; [exact Hquiet|]. split; [exact Hauth|].
  split; [exact (Htoken Hquiet Hauth) | exact Hprovided].
Defined.

(** X22: a call of [verifyToken] or of [login] that returns [false] changes
    nothing.  So [verifyToken] never logs out: when the back end rejects the
    stored token, the service stays as it was, authenticated if it was, and
    the rejected token stays in the storage.  Whatever it returns,
    [verifyToken] leaves the storage as it is and never ends an
    authentication. *)
Theorem failed_verification_changes_nothing fetch fetch' username password s :
  (snd (AuthService.verifyToken fetch s) = false ->
   fst (AuthService.verifyToken fetch s) = s)
  /\ (snd (AuthService.login fetch' username password s) = false ->
      fst (AuthService.login fetch' username password s) = s)
  /\ AuthService.access_token (fst (AuthService.verifyToken fetch s))
     = AuthService.access_token s
  /\ (AuthState.isAuthenticated (AuthService.authState s) = true ->
      AuthState.isAuthenticated
        (AuthService.authState (fst (AuthService.verifyToken fetch s))) = true)
  /\ (forall response : Response.t VerifyData.t,
        Response.ok response = false ->
        AuthService.verifyToken (fun _ => Resolves response) s = (s, false)).
Proof.
  split; [|split; [|split; [|split]]].
  - destruct (verifyToken_cases fetch s) as [->|(t & r & data & _ & _ & _ & _ & _ & ->)];
      done.
  - destruct (login_cases fetch' username password s) as [->|(r & data & _ & _ & _ & ->)];
      done.
  - destruct (verifyToken_cases fetch s) as [->|(t & r & data & _ & _ & _ & _ & _ & ->)];
      done.
  - destruct (verifyToken_cases fetch s) as [->|(t & r & data & _ & _ & _ & _ & _ & ->)];
      done.
  - intros response Hok. unfold AuthService.verifyToken.
    destruct (AuthService.access_token s) as [token|]; [|done].
    destruct (String.eqb token EmptyString); [done|]. by rewrite Hok.
Qed.

(** X23: what the detection service sends after the calls of the
    authentication service.  After a [login] that returned [true] the
    [Authorization] header of [getAuthHeaders] is [Bearer ] followed by the
    token of the response, when that is a token that is not empty, and
    [Bearer undefined] when the response has none; the service says
    authenticated in both cases.  After [logout] the header is empty, the
    service says not authenticated, and a second [logout] changes nothing. *)
Theorem headers_follow_login_and_logout fetch username password s :
  (snd (AuthService.login fetch username password s) = true ->
   let s' := fst (AuthService.login fetch username password s) in
   exists response data,
     fetch username password = Resolves response
     /\ Response.json response = inr data
     /\ AuthService.authState s' = AuthState.mk true (Some username)
     /\ DetectionService.getAuthHeaders (AuthService.getToken s')
        = [ ("Content-Type", "application/json");
            ("Authorization",
             match TokenData.access_token data with
             | Some token =>
                 if String.eqb token EmptyString then EmptyString
                 else "Bearer " +:+ token
             | None => "Bearer undefined"
             end) ])
  /\ DetectionService.getAuthHeaders (AuthService.getToken (AuthService.logout s))
     = [ ("Content-Type", "application/json"); ("Authorization", EmptyString) ]
  /\ AuthService.authState (AuthService.logout s) = AuthState.mk false None
  /\ AuthService.logout (AuthService.logout s) = AuthService.logout s.
Proof.
  split; [|split; [|split]].
  - intros Hret s'. unfold s'.
    destruct (login_cases fetch username password s)
      as [Heq|(r & data & Hfetch & Hok & Hjson & Heq)]; rewrite Heq in *; [done|].
    exists r, data. split; [done|]. split; [done|]. split; [done|].
    simpl. by destruct (TokenData.access_token data).
  - reflexivity.
  - reflexivity.
  - unfold AuthService.logout, AuthService.updateAuthState, AuthService.removeItem. simpl.
    by destruct (AuthService.authStateCallback s).
Qed.

(** ** The login page *)

(** X24: on the login page, over the authentication service, a submitted form
    either succeeds, and then the page goes to [/overview] with no error shown
    and the service says authenticated as the user of the form; or it shows
    'Invalid credentials' and the service is as before.  It shows that message
    for every failure: when the request was not answered at all and when the
    answer was not ok, whatever its status.  No submission shows 'Login
    failed', [login] catching everything itself.  A form that is not valid
    does nothing. *)
Theorem login_failures_all_invalid_credentials fetch isFormValid page service :
  let result := LoginPage.handleSubmit (authServiceLogin fetch) isFormValid page service in
  let page' := fst result in
  let service' := snd result in
  (isFormValid = false -> result = (page, service))
  /\ (isFormValid = true ->
      LoginPage.loading page' = false
      /\ ((LoginPage.navigations page' = LoginPage.navigations page ++ ["/overview"]
           /\ LoginPage.error page' = EmptyString
           /\ AuthService.authState service'
              = AuthState.mk true (Some (LoginPage.username page)))
          \/ (LoginPage.navigations page' = LoginPage.navigations page
              /\ LoginPage.error page' = "Invalid credentials"
              /\ service' = service)))
  /\ (isFormValid = true ->
      (forall e, fetch (LoginPage.username page) (LoginPage.password page) = Rejects e ->
                 LoginPage.error page' = "Invalid credentials")
      /\ (forall response,
            fetch (LoginPage.username page) (LoginPage.password page) = Resolves response ->
            Response.ok response = false ->
            LoginPage.error page' = "Invalid credentials")).
Proof.
  intros result page' service'.
  unfold page', service', result, LoginPage.handleSubmit, authServiceLogin.
  destruct isFormValid; simpl.
  - destruct (login_cases fetch (LoginPage.username page) (LoginPage.password page) service)
      as [Heq|(r & data & Hfetch & Hok & Hjson & Heq)]; rewrite Heq; simpl.
    + split; [done|]. split.
      * intros _. split; [done|]. by right.
      * done.
    + split; [done|]. split.
      * intros _. split; [done|]. by left.
      * intros _. split.
        -- intros e He. rewrite He in Hfetch. discriminate.
        -- intros response Hr Hnot. rewrite Hr in Hfetch. injection Hfetch as ->.
           congruence.
  - done.
Qed.
